(** * dame-live: the checkers rules engine of [server.js]

    A shallow embedding of the rules engine and of the socket handlers
    that drive it.  Boards are JavaScript arrays of arrays of numbers and
    are modelled as lists of lists of [Z]; JavaScript values that arrive
    over the wire are modelled by [JsVal]. *)

From Stdlib Require Import ZArith Lia Bool DecimalString.
From stdpp Require Import base option list strings.

Local Open Scope Z_scope.

(** ** JavaScript values that reach the handlers *)

(** [JNum z] is an integer-valued number, [JNonInt] any other number that
    is not [NaN] (fractions, infinities), [JObject] any object. *)
Inductive JsVal :=
| JUndefined
| JNull
| JBool (b : bool)
| JNum (z : Z)
| JNonInt
| JNaN
| JStr (s : string)
| JObject.

(** [!!v] *)
Definition truthy (v : JsVal) : bool :=
  match v with
  | JUndefined | JNull | JNaN => false
  | JBool b => b
  | JNum z => negb (z =? 0)
  | JNonInt => true
  | JStr s => negb (bool_decide (s = EmptyString))
  | JObject => true
  end.

(** [v === s] for a string literal [s] *)
Definition strictEqStr (v : JsVal) (s : string) : bool :=
  match v with
  | JStr t => bool_decide (t = s)
  | _ => false
  end.

(** [Number.isInteger(v)], with the integer when it is one *)
Definition asInteger (v : JsVal) : option Z :=
  match v with
  | JNum z => Some z
  | _ => None
  end.

(** ** Data model *)

Record Square := mkSquare { sq_r : Z; sq_c : Z }.

Record Move := mkMove { mv_from : Square; mv_to : Square }.

Record Capture := mkCapture { cap_from : Square; cap_over : Square; cap_to : Square }.

Record MoveResult := mkMoveResult {
  lm_from : Square;
  lm_to : Square;
  lm_captured : option Square;
  lm_penaltyRemoved : bool
}.

Record Rules := mkRules {
  mustCapture : JsVal;
  skipCapturePenaltyRemoveMoved : JsVal;
  multiCapture : JsVal;
  flyingKingMove : JsVal;
  flyingKingCapture : JsVal;
  menBackwardCapture : JsVal
}.

(** Pieces: 0 empty, 1 / 2 White man / king, -1 / -2 Black man / king. *)
Abbreviation Board := (list (list Z)).

Record GameState := mkState {
  board : Board;
  turn : Z;
  winner : Z;
  lastMove : option MoveResult;
  rules : Rules
}.

#[global] Instance Square_eq_dec : EqDecision Square.
Proof. solve_decision. Defined.

#[global] Instance Capture_eq_dec : EqDecision Capture.
Proof. solve_decision. Defined.

(** ** Array access *)

(** [l[i]] for a number [i]: [None] is JavaScript's [undefined]. *)
Definition nthZ {A} (l : list A) (i : Z) : option A :=
  if 0 <=? i then l !! Z.to_nat i else None.

(** [board[r]?.[c]].  The source also reads [board[r][c]] without the
    [?.]; it does so only behind [inBounds(r, c)], where on an 8x8 board
    (see [wfBoard] and [cellAt_inBounds]) the two reads agree. *)
Definition cellAt (b : Board) (r c : Z) : option Z :=
  match nthZ b r with
  | Some row => nthZ row c
  | None => None
  end.

(** [board[r][c] = v] for a square that is on the grid *)
Definition setCell (b : Board) (r c : Z) (v : Z) : Board :=
  if (0 <=? r) && (0 <=? c)
  then alter (λ row, <[Z.to_nat c := v]> row) (Z.to_nat r) b
  else b.

Definition wfBoard (b : Board) : bool :=
  (length b =? 8)%nat && forallb (λ row, (length row =? 8)%nat) b.

(** ** Geometry helpers *)

Definition sign (piece : Z) : Z :=
  if piece =? 0 then 0 else if 0 <? piece then 1 else -1.

Definition isKing (piece : Z) : bool := Z.abs piece =? 2.

Definition inBounds (r c : Z) : bool :=
  (0 <=? r) && (r <? 8) && (0 <=? c) && (c <? 8).

Definition cloneBoard (b : Board) : Board := (λ row, row) <$> b.

Definition forwardDir (side : Z) : Z := if side =? 1 then -1 else 1.

(** [board[r][c] === 0] *)
Definition isEmptyAt (b : Board) (r c : Z) : bool :=
  match cellAt b r c with
  | Some v => v =? 0
  | None => false
  end.

(** [mid && sign(mid) === -side] for [mid = board[r]?.[c]] *)
Definition enemyAt (b : Board) (r c : Z) (side : Z) : bool :=
  match cellAt b r c with
  | Some mid => negb (mid =? 0) && (sign mid =? - side)
  | None => false
  end.

(** ** Move generators *)

Definition listManMoves (b : Board) (r c side : Z) : list Move :=
  let dr := forwardDir side in
  dc ← [-1; 1];
  let r1 := r + dr in
  let c1 := c + dc in
  if inBounds r1 c1 && isEmptyAt b r1 c1
  then [mkMove (mkSquare r c) (mkSquare r1 c1)]
  else [].

(** One 2-step jump in direction [(dr, dc)]: the loop body shared by
    [listManCaptures] and the short branch of [listKingCaptures]. *)
Definition shortJump (b : Board) (r c side dr dc : Z) : list Capture :=
  let r1 := r + dr in
  let c1 := c + dc in
  let r2 := r + 2 * dr in
  let c2 := c + 2 * dc in
  if negb (inBounds r2 c2) then []
  else if enemyAt b r1 c1 side && isEmptyAt b r2 c2
       then [mkCapture (mkSquare r c) (mkSquare r1 c1) (mkSquare r2 c2)]
       else [].

Definition listManCaptures (b : Board) (r c side : Z)
    (allowBackwardCapture : bool) : list Capture :=
  let drs := if allowBackwardCapture then [-1; 1] else [forwardDir side] in
  dr ← drs; dc ← [-1; 1]; shortJump b r c side dr dc.

(** The [while (inBounds(rr, cc) && board[rr][cc] === 0)] loop of the
    flying king move.  [fuel] bounds the iterations; 8 is always enough
    ([slideLoop_fuel]). *)
Fixpoint slideLoop (fuel : nat) (b : Board) (r c dr dc rr cc : Z) : list Move :=
  match fuel with
  | O => []
  | S fuel' =>
      if inBounds rr cc && isEmptyAt b rr cc
      then mkMove (mkSquare r c) (mkSquare rr cc)
             :: slideLoop fuel' b r c dr dc (rr + dr) (cc + dc)
      else []
  end.

Definition listKingMoves (b : Board) (r c : Z) (flying : bool) : list Move :=
  if negb flying then
    dr ← [-1; 1]; dc ← [-1; 1];
    let rr := r + dr in
    let cc := c + dc in
    if inBounds rr cc && isEmptyAt b rr cc
    then [mkMove (mkSquare r c) (mkSquare rr cc)]
    else []
  else
    dr ← [-1; 1]; dc ← [-1; 1];
    slideLoop 8 b r c dr dc (r + dr) (c + dc).

(** The [while (inBounds(rr, cc))] loop of the flying king capture, with
    its local [seenEnemy]; the result is what the iterations push onto
    [out].  [fuel] bounds the iterations; 8 is always enough
    ([flyLoop_fuel]). *)
Fixpoint flyLoop (fuel : nat) (b : Board) (r c side dr dc rr cc : Z)
    (seenEnemy : option Square) : list Capture :=
  match fuel with
  | O => []
  | S fuel' =>
      if inBounds rr cc then
        match cellAt b rr cc with
        | Some cell =>
            if cell =? 0 then
              match seenEnemy with
              | Some e => [mkCapture (mkSquare r c) e (mkSquare rr cc)]
              | None => []
              end ++ flyLoop fuel' b r c side dr dc (rr + dr) (cc + dc) seenEnemy
            else
              let s := sign cell in
              if s =? side then []
              else if s =? - side then
                match seenEnemy with
                | Some _ => []
                | None =>
                    flyLoop fuel' b r c side dr dc (rr + dr) (cc + dc)
                      (Some (mkSquare rr cc))
                end
              else []
        | None => []
        end
      else []
  end.

Definition listKingCaptures (b : Board) (r c side : Z)
    (flyingCapture : bool) : list Capture :=
  if negb flyingCapture then
    dr ← [-1; 1]; dc ← [-1; 1]; shortJump b r c side dr dc
  else
    dr ← [-1; 1]; dc ← [-1; 1];
    flyLoop 8 b r c side dr dc (r + dr) (c + dc) None.

Definition listCapturesForPiece (b : Board) (r c : Z) (rl : Rules) : list Capture :=
  match cellAt b r c with
  | Some piece =>
      if piece =? 0 then []
      else
        let side := sign piece in
        if isKing piece
        then listKingCaptures b r c side (truthy (flyingKingCapture rl))
        else listManCaptures b r c side (truthy (menBackwardCapture rl))
  | None => []
  end.

Definition listMovesForPiece (b : Board) (r c : Z) (rl : Rules) : list Move :=
  match cellAt b r c with
  | Some piece =>
      if piece =? 0 then []
      else
        let side := sign piece in
        if isKing piece
        then listKingMoves b r c (truthy (flyingKingMove rl))
        else listManMoves b r c side
  | None => []
  end.

(** The squares in the order of [for r in 0..7, for c in 0..7]. *)
Definition allSquares : list Square :=
  r ← [0; 1; 2; 3; 4; 5; 6; 7];
  c ← [0; 1; 2; 3; 4; 5; 6; 7];
  [mkSquare r c].

(** [arr.length] as a condition *)
Definition nonEmpty {A} (l : list A) : bool :=
  match l with [] => false | _ => true end.

(** [sign(board[r][c])] at a square of the double loop *)
Definition signAt (b : Board) (s : Square) : option Z :=
  sign <$> cellAt b (sq_r s) (sq_c s).

Definition anyCaptureAvailable (b : Board) (side : Z) (rl : Rules) : bool :=
  existsb
    (λ s, bool_decide (signAt b s = Some side)
          && nonEmpty (listCapturesForPiece b (sq_r s) (sq_c s) rl))
    allSquares.

(** ** Applying a move *)

(** The rank of the piece that is placed on the destination: a man that
    reaches its last row becomes a king. *)
Definition placedPiece (piece side tr : Z) : Z :=
  if negb (isKing piece) then
    let placed := if (side =? 1) && (tr =? 0) then 2 else piece in
    if (side =? -1) && (tr =? 7) then -2 else placed
  else piece.

(** [x => x.to.r === tr && x.to.c === tc] *)
Definition landsOn (tr tc : Z) (x : Capture) : bool :=
  (sq_r (cap_to x) =? tr) && (sq_c (cap_to x) =? tc).

Definition moveLandsOn (tr tc : Z) (x : Move) : bool :=
  (sq_r (mv_to x) =? tr) && (sq_c (mv_to x) =? tc).

(** [applyMoveWithRules(state, move)].  The source indexes
    [board[fr][fc]] and [newBoard[tr][tc]] unguarded; [None] stands for a
    source or destination square that the board does not have, where the
    source raises a [TypeError] or goes on with [undefined].  The handler
    never calls it there ([applyMoveWithRules_total]). *)
Definition applyMoveWithRules (state : GameState) (move : Move) : option GameState :=
  let b := board state in
  let rl := rules state in
  let fr := sq_r (mv_from move) in
  let fc := sq_c (mv_from move) in
  let tr := sq_r (mv_to move) in
  let tc := sq_c (mv_to move) in
  match cellAt b fr fc, cellAt b tr tc with
  | Some piece, Some _ =>
      let side := sign piece in
      let newBoard := setCell (cloneBoard b) fr fc 0 in
      let caps := listCapturesForPiece b fr fc rl in
      let capMatch := List.find (landsOn tr tc) caps in
      let isCapture := bool_decide (is_Some capMatch) in
      let capturedPos := cap_over <$> capMatch in
      let newBoard :=
        match capturedPos with
        | Some p => setCell newBoard (sq_r p) (sq_c p) 0
        | None => newBoard
        end in
      let placed := placedPiece piece side tr in
      let newBoard := setCell newBoard tr tc placed in
      let captureWasAvailable := anyCaptureAvailable b side rl in
      let penaltyRemoved :=
        truthy (mustCapture rl) && truthy (skipCapturePenaltyRemoveMoved rl)
        && captureWasAvailable && negb isCapture in
      let newBoard := if penaltyRemoved then setCell newBoard tr tc 0 else newBoard in
      Some {| board := newBoard;
              turn := - turn state;
              winner := winner state;
              lastMove := Some (mkMoveResult (mv_from move) (mv_to move)
                                  capturedPos penaltyRemoved);
              rules := rules state |}
  | _, _ => None
  end.

(** ** Terminal-state evaluation *)

Definition countPieces (b : Board) (side : Z) : nat :=
  length (filter (λ s, signAt b s = Some side) allSquares).

Definition hasAnyLegalMove (state : GameState) (side : Z) : bool :=
  let b := board state in
  let rl := rules state in
  existsb
    (λ s, if negb (bool_decide (signAt b s = Some side)) then false
          else nonEmpty (listCapturesForPiece b (sq_r s) (sq_c s) rl)
               || nonEmpty (listMovesForPiece b (sq_r s) (sq_c s) rl))
    allSquares.

Definition checkWinner (state : GameState) : Z :=
  let white := countPieces (board state) 1 in
  let black := countPieces (board state) (-1) in
  if (white =? 0)%nat then -1
  else if (black =? 0)%nat then 1
  else if negb (hasAnyLegalMove state (turn state)) then - turn state
  else 0.

(** ** Initial state *)

(** [for r in rows, for c in 0..7: if ((r + c) % 2 === 1) board[r][c] = v] *)
Definition fillRows (rows : list Z) (v : Z) (b : Board) : Board :=
  foldl (λ b r,
    foldl (λ b c, if (r + c) mod 2 =? 1 then setCell b r c v else b)
          b [0; 1; 2; 3; 4; 5; 6; 7])
    b rows.

Definition initialRules : Rules :=
  {| mustCapture := JBool true;
     skipCapturePenaltyRemoveMoved := JBool true;
     multiCapture := JStr "optional";
     flyingKingMove := JBool true;
     flyingKingCapture := JBool true;
     menBackwardCapture := JBool false |}.

Definition createInitialState : GameState :=
  let b := replicate 8 (replicate 8 0) in
  let b := fillRows [0; 1; 2] (-1) b in
  let b := fillRows [5; 6; 7] 1 b in
  {| board := b; turn := 1; winner := 0; lastMove := None; rules := initialRules |}.

(** ** Socket handlers *)

Inductive Role := RWhite | RBlack | RSpectator.

(** A room: the game state and the socket ids seated as White and Black.
    The room's [clientMap] is read and written by [joinRoom] only and is
    left out. *)
Record Room := mkRoom {
  room_state : GameState;
  players_white : option string;
  players_black : option string
}.

(** [io.to(roomId).emit("state", { state })] *)
Inductive Emit := EmitState (st : GameState).

(** What a handler call did: it returned, leaving the map of rooms (which
    only ever holds the one fixed room) as given and having emitted the
    listed messages, or it raised a [TypeError]. *)
Inductive Outcome :=
| Returned (rooms : option Room) (emits : list Emit)
| Raised.

Definition roleOf (room : Room) (socketId : string) : Role :=
  if bool_decide (players_white room = Some socketId) then RWhite
  else if bool_decide (players_black room = Some socketId) then RBlack
  else RSpectator.

(** The [rules] object of an [updateRules] message, as built by the
    handler from the payload's six properties. *)
Definition normalizeRules (p : Rules) : Rules :=
  {| mustCapture := JBool (truthy (mustCapture p));
     skipCapturePenaltyRemoveMoved := JBool (truthy (skipCapturePenaltyRemoveMoved p));
     multiCapture :=
       if strictEqStr (multiCapture p) "forced" then JStr "forced" else JStr "optional";
     flyingKingMove := JBool (truthy (flyingKingMove p));
     flyingKingCapture := JBool (truthy (flyingKingCapture p));
     menBackwardCapture := JBool (truthy (menBackwardCapture p)) |}.

Definition setRules (st : GameState) (rl : Rules) : GameState :=
  {| board := board st; turn := turn st; winner := winner st;
     lastMove := lastMove st; rules := rl |}.

Definition setWinner (st : GameState) (w : Z) : GameState :=
  {| board := board st; turn := turn st; winner := w;
     lastMove := lastMove st; rules := rules st |}.

(** [socket.on("updateRules", ({ roomId, rules }) => ...)], for a message
    that is an object.  [payload] is the message's [rules]: [None] when it
    is [undefined] or [null] (reading a property of it raises), otherwise
    its six properties, an absent one being [JUndefined]. *)
Definition updateRules (rooms : option Room) (socketId : string)
    (payload : option Rules) : Outcome :=
  match rooms with
  | None => Returned rooms []
  | Some room =>
      match roleOf room socketId with
      | RWhite =>
          match payload with
          | None => Raised
          | Some p =>
              let st := setRules (room_state room) (normalizeRules p) in
              Returned (Some (mkRoom st (players_white room) (players_black room)))
                       [EmitState st]
          end
      | _ => Returned rooms []
      end
  end.

(** The [from] or [to] of a [makeMove] message. *)
Record SquareP := mkSquareP { p_r : JsVal; p_c : JsVal }.

(** [x?.r] and [x?.c]; [None] is an [x] without properties. *)
Definition optR (x : option SquareP) : JsVal :=
  match x with Some s => p_r s | None => JUndefined end.

Definition optC (x : option SquareP) : JsVal :=
  match x with Some s => p_c s | None => JUndefined end.

(** [v >= 0 && v < 8] *)
Definition inRange (v : Z) : bool := (0 <=? v) && (v <? 8).

(** [const w = checkWinner(room.state); if (w !== 0) room.state.winner = w] *)
Definition recordWinner (next : GameState) : GameState :=
  if negb (checkWinner next =? 0) then setWinner next (checkWinner next) else next.

(** The body of the [makeMove] handler from [const state = room.state]
    on, for a seated player of side [side]. *)
Definition makeMoveSeated (room : Room) (side : Z) (from to : option SquareP) : Outcome :=
  let state := room_state room in
  if negb (winner state =? 0) then Returned (Some room) []
  else if negb (turn state =? side) then Returned (Some room) []
  else
    match asInteger (optR from), asInteger (optC from),
          asInteger (optR to), asInteger (optC to) with
    | Some fr, Some fc, Some tr, Some tc =>
        if negb (forallb inRange [fr; fc; tr; tc]) then Returned (Some room) []
        else
          match cellAt (board state) fr fc, cellAt (board state) tr tc with
          | Some piece, Some target =>
              if negb (sign piece =? side) then Returned (Some room) []
              else if negb (target =? 0) then Returned (Some room) []
              else
                let caps := listCapturesForPiece (board state) fr fc (rules state) in
                let moves := listMovesForPiece (board state) fr fc (rules state) in
                let isCap := existsb (landsOn tr tc) caps in
                let isMove := existsb (moveLandsOn tr tc) moves in
                if negb isCap && negb isMove then Returned (Some room) []
                else
                  match applyMoveWithRules state
                          (mkMove (mkSquare fr fc) (mkSquare tr tc)) with
                  | Some next =>
                      let next := recordWinner next in
                      Returned
                        (Some (mkRoom next (players_white room) (players_black room)))
                        [EmitState next]
                  | None => Raised
                  end
          | _, _ => Raised
          end
    | _, _, _, _ => Returned (Some room) []
    end.

(** [socket.on("makeMove", ({ roomId, from, to }) => ...)], for a message
    that is an object.  [from] and [to] are the message's properties of
    these names, [None] when they have no properties of their own
    ([undefined], [null], a primitive).
    [Raised] stands for a square that the board does not have, which an
    8x8 board excludes ([makeMove_eq]). *)
Definition makeMove (rooms : option Room) (socketId : string)
    (from to : option SquareP) : Outcome :=
  match rooms with
  | None => Returned rooms []
  | Some room =>
      match roleOf room socketId with
      | RSpectator => Returned rooms []
      | RWhite => makeMoveSeated room 1 from to
      | RBlack => makeMoveSeated room (-1) from to
      end
  end.

(** [socket.on("resetGame", () => ...)] *)
Definition resetGame (rooms : option Room) (socketId : string) : Outcome :=
  match rooms with
  | None => Returned rooms []
  | Some room =>
      match roleOf room socketId with
      | RSpectator => Returned rooms []
      | _ =>
          Returned (Some (mkRoom createInitialState (players_white room) (players_black room)))
                   [EmitState createInitialState]
      end
  end.

(** * Vocabulary of the statements *)

(** ** Rays of a square *)

(** The square [i] steps from [(r, c)] in direction [(dr, dc)]. *)
Definition raySquare (r c dr dc i : Z) : Square :=
  mkSquare (r + i * dr) (c + i * dc).

(** That square is on the board and empty. *)
Definition rayClear (b : Board) (r c dr dc i : Z) : Prop :=
  inBounds (r + i * dr) (c + i * dc) = true ∧
  cellAt b (r + i * dr) (c + i * dc) = Some 0.

(** That square is on the board and holds a piece of the side opposite
    to [side]. *)
Definition rayEnemy (b : Board) (side r c dr dc i : Z) : Prop :=
  inBounds (r + i * dr) (c + i * dc) = true ∧
  ∃ m, cellAt b (r + i * dr) (c + i * dc) = Some m ∧ m ≠ 0 ∧ sign m = - side.

(** That square is on the board and holds a piece of either side. *)
Definition rayOccupied (b : Board) (r c dr dc i : Z) : Prop :=
  inBounds (r + i * dr) (c + i * dc) = true ∧
  ∃ m, cellAt b (r + i * dr) (c + i * dc) = Some m ∧ m ≠ 0.

(** The number of squares from [rr] to the edge in direction [dr],
    [rr] included: the iterations that a loop along a ray can make. *)
Definition squaresAhead (rr dr : Z) : Z :=
  if (0 <=? rr) && (rr <? 8) then (if dr =? 1 then 8 - rr else rr + 1) else 0.

(** ** Captures *)

(** What every generated capture looks like, whatever the piece and the
    rules: it runs along one diagonal of the source square, jumps the
    first piece on it, and lands behind that piece. *)
Definition jumpsFirstPiece (b : Board) (r c : Z) (x : Capture) : Prop :=
  ∃ dr dc j k,
    (dr = -1 ∨ dr = 1) ∧ (dc = -1 ∨ dc = 1) ∧ 1 <= j < k ∧
    (∀ i, 1 <= i < j → cellAt b (r + i * dr) (c + i * dc) = Some 0) ∧
    (∃ m, cellAt b (r + j * dr) (c + j * dc) = Some m ∧ m ≠ 0) ∧
    x = mkCapture (mkSquare r c) (raySquare r c dr dc j) (raySquare r c dr dc k).

(** The landing square is empty and the jumped square holds a piece of
    the side opposite to [side]. *)
Definition captureSound (b : Board) (side : Z) (x : Capture) : Prop :=
  cellAt b (sq_r (cap_to x)) (sq_c (cap_to x)) = Some 0 ∧
  ∃ m, cellAt b (sq_r (cap_over x)) (sq_c (cap_over x)) = Some m ∧
       m ≠ 0 ∧ sign m = - side.

(** The scan from [(r, c)] along [(dr, dc)] meets a first piece and,
    behind it, a second one. *)
Definition secondPieceOnRay (b : Board) (r c dr dc : Z) : Prop :=
  ∃ j j', 1 <= j < j' ∧
    (∀ i, 1 <= i < j → rayClear b r c dr dc i) ∧ rayOccupied b r c dr dc j ∧
    (∀ i, j < i < j' → rayClear b r c dr dc i) ∧ rayOccupied b r c dr dc j'.

(** The capture lands on the ray of [(r, c)] along [(dr, dc)]. *)
Definition landsOnRay (r c dr dc : Z) (x : Capture) : Prop :=
  ∃ k, 1 <= k ∧ cap_to x = raySquare r c dr dc k.

(** "A ray yields no capture when a second piece is encountered", read
    as it stands: of the flying captures of the king on [(r, c)], none
    lands on a ray on which the scan meets a second piece. *)
Definition noCaptureOnRayWithSecondPiece (b : Board) (r c side : Z) : Prop :=
  ∀ dr dc, (dr = -1 ∨ dr = 1) → (dc = -1 ∨ dc = 1) →
    secondPieceOnRay b r c dr dc →
    ∀ x, x ∈ listKingCaptures b r c side true → ¬ landsOnRay r c dr dc x.

(** ** Accepted moves *)

(** The guards of the [makeMove] handler for a seated player of side
    [side] (1 for White, -1 for Black) who submits the integer squares of
    [mv]: the move is accepted when all of them pass
    ([makeMove_accepted], [makeMove_rejected]). *)
Definition accepted (st : GameState) (side : Z) (mv : Move) : bool :=
  let b := board st in
  let fr := sq_r (mv_from mv) in
  let fc := sq_c (mv_from mv) in
  let tr := sq_r (mv_to mv) in
  let tc := sq_c (mv_to mv) in
  ((side =? 1) || (side =? -1))
  && (winner st =? 0) && (turn st =? side)
  && forallb inRange [fr; fc; tr; tc]
  && bool_decide (sign <$> cellAt b fr fc = Some side)
  && bool_decide (cellAt b tr tc = Some 0)
  && (existsb (landsOn tr tc) (listCapturesForPiece b fr fc (rules st))
      || existsb (moveLandsOn tr tc) (listMovesForPiece b fr fc (rules st))).

(** The move lands where one of the captures of its source square
    lands: [isCap], as the handler computes it with [caps.some]. *)
Definition isCaptureMove (st : GameState) (mv : Move) : bool :=
  existsb (landsOn (sq_r (mv_to mv)) (sq_c (mv_to mv)))
    (listCapturesForPiece (board st) (sq_r (mv_from mv)) (sq_c (mv_from mv)) (rules st)).

(** The condition of the penalty rule, on the pre-move state *)
Definition penaltyApplies (st : GameState) (side : Z) (mv : Move) : bool :=
  truthy (mustCapture (rules st))
  && truthy (skipCapturePenaltyRemoveMoved (rules st))
  && anyCaptureAvailable (board st) side (rules st)
  && negb (isCaptureMove st mv).

(** ** Submissions *)

(** The side of the player behind a socket, if seated *)
Definition seatSide (room : Room) (socketId : string) : option Z :=
  match roleOf room socketId with
  | RWhite => Some 1
  | RBlack => Some (-1)
  | RSpectator => None
  end.

(** The move of a message whose four coordinates are integers *)
Definition submittedMove (from to : option SquareP) : option Move :=
  match asInteger (optR from), asInteger (optC from),
        asInteger (optR to), asInteger (optC to) with
  | Some fr, Some fc, Some tr, Some tc => Some (mkMove (mkSquare fr fc) (mkSquare tr tc))
  | _, _, _, _ => None
  end.


(** ** Terminal states *)

(** [side] has no piece on the board. *)
Definition sideHasNoPiece (b : Board) (side : Z) : Prop :=
  ∀ r c, inBounds r c = true → sign <$> cellAt b r c ≠ Some side.

(** No piece of [side] has a capture or a simple move. *)
Definition sideHasNoMove (st : GameState) (side : Z) : Prop :=
  ∀ r c, inBounds r c = true → sign <$> cellAt (board st) r c = Some side →
    listCapturesForPiece (board st) r c (rules st) = [] ∧
    listMovesForPiece (board st) r c (rules st) = [].

(** ** Stored states *)

Definition isBoolean (v : JsVal) : Prop :=
  match v with JBool _ => True | _ => False end.

(** The five switches are booleans and [multiCapture] is one of the two
    strings. *)
Definition wfRules (rl : Rules) : Prop :=
  isBoolean (mustCapture rl) ∧
  isBoolean (skipCapturePenaltyRemoveMoved rl) ∧
  isBoolean (flyingKingMove rl) ∧
  isBoolean (flyingKingCapture rl) ∧
  isBoolean (menBackwardCapture rl) ∧
  (multiCapture rl = JStr "optional" ∨ multiCapture rl = JStr "forced").

(** What holds of every state the server stores: the board is 8x8 and
    the rules record is well formed. *)
Definition stateInv (st : GameState) : Prop :=
  wfBoard (board st) = true ∧ wfRules (rules st).

(** [getRoom(roomId)], which [joinRoom] calls: the room, created with the
    initial state when the map does not have it yet. *)
Definition getRoom (rooms : option Room) : Room :=
  match rooms with
  | Some room => room
  | None => mkRoom createInitialState None None
  end.

(** The maps of rooms that the server can reach from its start.  Of
    [joinRoom] and [disconnect] only this is kept: [joinRoom] goes through
    [getRoom], and both may change who is seated, and never touch the
    state. *)
Inductive reachable : option Room → Prop :=
| reach_start : reachable None
| reach_joinRoom rooms white black :
    reachable rooms →
    reachable (Some (mkRoom (room_state (getRoom rooms)) white black))
| reach_disconnect room white black :
    reachable (Some room) →
    reachable (Some (mkRoom (room_state room) white black))
| reach_updateRules rooms socketId payload rooms' emits :
    reachable rooms →
    updateRules rooms socketId payload = Returned rooms' emits →
    reachable rooms'
| reach_makeMove rooms socketId from to rooms' emits :
    reachable rooms →
    makeMove rooms socketId from to = Returned rooms' emits →
    reachable rooms'
| reach_resetGame rooms socketId rooms' emits :
    reachable rooms →
    resetGame rooms socketId = Returned rooms' emits →
    reachable rooms'.

(** ** Positions used as examples *)

(** A White king on (7,0), a Black man on (6,1), (5,2) empty, a Black man
    on (4,3). *)
Definition twoOnRayBoard : Board :=
  setCell (setCell (setCell (replicate 8 (replicate 8 0)) 7 0 2) 6 1 (-1)) 4 3 (-1).

(** A White man on (5,2) that can capture the Black man on (4,3), and a
    White man on (1,6) one step from its last row; White to move. *)
Definition penaltyState : GameState :=
  {| board := setCell (setCell (setCell (replicate 8 (replicate 8 0)) 5 2 1) 4 3 (-1)) 1 6 1;
     turn := 1; winner := 0; lastMove := None; rules := initialRules |}.

(** White is seated as socket "w", Black as "b". *)
Definition seatedRoom (st : GameState) : Room :=
  mkRoom st (Some "w"%string) (Some "b"%string).

(** A payload with none of its six properties of the expected type *)
Definition oddPayload : Rules :=
  mkRules (JNum 1) JUndefined (JStr "always") JNull (JStr "yes") JObject.

(** * Vocabulary of the further properties *)

(** ** Simple moves *)

(** What every generated simple move looks like: it runs along one
    diagonal of the source square over empty squares only, [k] steps. *)
Definition slidesTo (b : Board) (r c : Z) (k : Z) (x : Move) : Prop :=
  ∃ dr dc,
    (dr = -1 ∨ dr = 1) ∧ (dc = -1 ∨ dc = 1) ∧ 1 <= k ∧
    (∀ i, 1 <= i <= k → rayClear b r c dr dc i) ∧
    x = mkMove (mkSquare r c) (raySquare r c dr dc k).

(** ** Positions *)

(** A cell holds one of the five piece codes, and a piece only on a dark
    square (row + column odd). *)
Definition legalCell (r c v : Z) : Prop :=
  -2 <= v <= 2 ∧ (v ≠ 0 → (r + c) mod 2 = 1).

(** The position of a state is one that play can produce: an 8x8 board
    of legal cells with at most 12 pieces a side, a side to move, and a
    winner code. *)
Definition positionInv (st : GameState) : Prop :=
  wfBoard (board st) = true ∧
  (∀ r c v, cellAt (board st) r c = Some v → legalCell r c v) ∧
  (turn st = 1 ∨ turn st = -1) ∧
  (winner st = 0 ∨ winner st = 1 ∨ winner st = -1) ∧
  (countPieces (board st) 1 ≤ 12)%nat ∧
  (countPieces (board st) (-1) ≤ 12)%nat.

(** * Seats: [joinRoom] and [disconnect] *)

(** [socket.emit("roomJoined", { roomId, role, state })] and
    [io.to(roomId).emit("presence", { players: { white, black } })] *)
Inductive JoinEmit :=
| RoomJoined (role : Role) (st : GameState)
| Presence (white black : bool).

Section Seats.
(** The values that a [clientId] can take, with the equality of [Map]
    keys and with [!!]. *)
Context {Key : Type} `{EqDecision Key} (keyTruthy : Key → bool).

(** A room with its [clientMap], which [has], [get] and [set] use as a
    function from keys. *)
Record Lobby := mkLobby {
  lobby_room : Room;
  clientMap : Key → option Role
}.

(** [clientMap.set(k, role)] *)
Definition mapSet (k : Key) (role : Role) (m : Key → option Role) : Key → option Role :=
  λ k', if decide (k' = k) then Some role else m k'.

(** [getRoom(roomId)] on the room with its [clientMap] *)
Definition getLobby (rooms : option Lobby) : Lobby :=
  match rooms with
  | Some lobby => lobby
  | None => mkLobby (mkRoom createInitialState None None) (λ _, None)
  end.

(** [!room.players.white]: socket ids are non-empty strings *)
Definition seatFree (seat : option string) : bool :=
  match seat with None => true | Some _ => false end.

(** The branch of [joinRoom] for a client that [clientMap] does not
    know: the seat asked for if it is free, else the first free seat. *)
Definition seatNewcomer (room : Room) (socketId : string) (seat : JsVal) : Room * Role :=
  let '(room, role) :=
    if strictEqStr seat "white" then
      if seatFree (players_white room)
      then (mkRoom (room_state room) (Some socketId) (players_black room), RWhite)
      else (room, RSpectator)
    else if strictEqStr seat "black" then
      if seatFree (players_black room)
      then (mkRoom (room_state room) (players_white room) (Some socketId), RBlack)
      else (room, RSpectator)
    else (room, RSpectator) in
  match role with
  | RSpectator =>
      if seatFree (players_white room)
      then (mkRoom (room_state room) (Some socketId) (players_black room), RWhite)
      else if seatFree (players_black room)
      then (mkRoom (room_state room) (players_white room) (Some socketId), RBlack)
      else (room, RSpectator)
  | _ => (room, role)
  end.

(** The branch of [joinRoom] for a client that [clientMap] maps to
    [role]: the socket takes the seat of that role. *)
Definition seatReturning (room : Room) (socketId : string) (role : Role) : Room :=
  let room :=
    match role with
    | RWhite => mkRoom (room_state room) (Some socketId) (players_black room)
    | _ => room
    end in
  match role with
  | RBlack => mkRoom (room_state room) (players_white room) (Some socketId)
  | _ => room
  end.

(** The first half of [joinRoom], up to [socket.join(roomId)]: the room
    with its seats and [clientMap] afterwards, and the [role] of the
    socket. *)
Definition seatSocket (rooms : option Lobby) (socketId : string) (seat : JsVal)
    (clientId : Key) : Lobby * Role :=
  let lobby := getLobby rooms in
  let room := lobby_room lobby in
  match (if keyTruthy clientId then clientMap lobby clientId else None) with
  | Some role => (mkLobby (seatReturning room socketId role) (clientMap lobby), role)
  | None =>
      let '(room, role) := seatNewcomer room socketId seat in
      let clients :=
        if keyTruthy clientId
           && match role with RWhite | RBlack => true | RSpectator => false end
        then mapSet clientId role (clientMap lobby)
        else clientMap lobby in
      (mkLobby room clients, role)
  end.


(** [socket.on("disconnect", () => ...)] *)
Definition disconnect (rooms : option Lobby) (socketId : string)
    : option Lobby * list JoinEmit :=
  match rooms with
  | None => (None, [])
  | Some lobby =>
      let room := lobby_room lobby in
      let leftWhite := bool_decide (players_white room = Some socketId) in
      let white := if leftWhite then None else players_white room in
      let leftBlack := bool_decide (players_black room = Some socketId) in
      let black := if leftBlack then None else players_black room in
      let room := mkRoom (room_state room) white black in
      (Some (mkLobby room (clientMap lobby)),
       if leftWhite || leftBlack
       then [Presence (negb (seatFree white)) (negb (seatFree black))]
       else [])
  end.

End Seats.

(** JavaScript's [!!] on a string *)
Definition stringTruthy (s : string) : bool :=
  negb (bool_decide (s = EmptyString)).

(** * The client's copy of the engine

    The browser script has its own copy of the generators, which return
    the targets only ([{ to }]), for highlighting.  Its [sign], [isKing],
    [inBounds] and [forwardDir] are those of the server, letter for
    letter. *)

Module Client.

Definition listManMoves (b : Board) (r c side : Z) : list Square :=
  let dr := forwardDir side in
  dc ← [-1; 1];
  let r1 := r + dr in
  let c1 := c + dc in
  if inBounds r1 c1 && isEmptyAt b r1 c1 then [mkSquare r1 c1] else [].

(** The body of the two-step jump loops *)
Definition shortJump (b : Board) (r c side dr dc : Z) : list Square :=
  let r1 := r + dr in
  let c1 := c + dc in
  let r2 := r + 2 * dr in
  let c2 := c + 2 * dc in
  if negb (inBounds r2 c2) then []
  else if enemyAt b r1 c1 side && isEmptyAt b r2 c2 then [mkSquare r2 c2] else [].

Definition listManCaptures (b : Board) (r c side : Z) (allowBackward : bool) : list Square :=
  let drs := if allowBackward then [-1; 1] else [forwardDir side] in
  dr ← drs; dc ← [-1; 1]; shortJump b r c side dr dc.

Fixpoint slideLoop (fuel : nat) (b : Board) (dr dc rr cc : Z) : list Square :=
  match fuel with
  | O => []
  | S fuel' =>
      if inBounds rr cc && isEmptyAt b rr cc
      then mkSquare rr cc :: slideLoop fuel' b dr dc (rr + dr) (cc + dc)
      else []
  end.

Definition listKingMoves (b : Board) (r c : Z) (flying : bool) : list Square :=
  if negb flying then
    dr ← [-1; 1]; dc ← [-1; 1];
    let rr := r + dr in
    let cc := c + dc in
    if inBounds rr cc && isEmptyAt b rr cc then [mkSquare rr cc] else []
  else
    dr ← [-1; 1]; dc ← [-1; 1]; slideLoop 8 b dr dc (r + dr) (c + dc).

Fixpoint flyLoop (fuel : nat) (b : Board) (side dr dc rr cc : Z)
    (seenEnemy : option Square) : list Square :=
  match fuel with
  | O => []
  | S fuel' =>
      if inBounds rr cc then
        match cellAt b rr cc with
        | Some cell =>
            if cell =? 0 then
              match seenEnemy with
              | Some _ => [mkSquare rr cc]
              | None => []
              end ++ flyLoop fuel' b side dr dc (rr + dr) (cc + dc) seenEnemy
            else
              let s := sign cell in
              if s =? side then []
              else if s =? - side then
                match seenEnemy with
                | Some _ => []
                | None =>
                    flyLoop fuel' b side dr dc (rr + dr) (cc + dc) (Some (mkSquare rr cc))
                end
              else []
        | None => []
        end
      else []
  end.

Definition listKingCaptures (b : Board) (r c side : Z) (flyingCap : bool) : list Square :=
  if negb flyingCap then
    dr ← [-1; 1]; dc ← [-1; 1]; shortJump b r c side dr dc
  else
    dr ← [-1; 1]; dc ← [-1; 1]; flyLoop 8 b side dr dc (r + dr) (c + dc) None.

Definition listMovesForPiece (b : Board) (r c : Z) (rl : Rules) : list Square :=
  match cellAt b r c with
  | Some piece =>
      if piece =? 0 then []
      else if isKing piece
           then listKingMoves b r c (truthy (flyingKingMove rl))
           else listManMoves b r c (sign piece)
  | None => []
  end.

Definition listCapturesForPiece (b : Board) (r c : Z) (rl : Rules) : list Square :=
  match cellAt b r c with
  | Some piece =>
      if piece =? 0 then []
      else if isKing piece
           then listKingCaptures b r c (sign piece) (truthy (flyingKingCapture rl))
           else listManCaptures b r c (sign piece) (truthy (menBackwardCapture rl))
  | None => []
  end.

(** [key(rc)]: the template string of the two numbers *)
Definition key (rc : Square) : string :=
  String.append (NilZero.string_of_int (Z.to_int (sq_r rc)))
    (String.append "," (NilZero.string_of_int (Z.to_int (sq_c rc)))).

(** [set.add(k)] on a [Set] held as the list of its elements in insertion
    order *)
Definition setAdd (set : list string) (k : string) : list string :=
  if bool_decide (k ∈ set) then set else set ++ [k].

(** [computeLegalTargets(r, c)]: the [legalTargets] set it leaves, from
    the script's [state] and [role].  The clicked square is a square of
    the rendered 8x8 board, where [state.board[r][c]] is a number. *)
Definition computeLegalTargets (state : option GameState) (role : Role) (r c : Z)
    : list string :=
  match state with
  | None => []
  | Some state =>
      match cellAt (board state) r c with
      | None => []
      | Some piece =>
          let side := match role with RWhite => 1 | RBlack => -1 | RSpectator => 0 end in
          if side =? 0 then []
          else if negb (winner state =? 0) then []
          else if negb (turn state =? side) then []
          else if negb (sign piece =? side) then []
          else
            let caps := listCapturesForPiece (board state) r c (rules state) in
            let moves := listMovesForPiece (board state) r c (rules state) in
            foldl (λ set x, setAdd set (key x)) [] (caps ++ moves)
      end
  end.

(** The client's [anyCaptureAvailable], which [render] calls for the
    hint line *)
Definition anyCaptureAvailable (b : Board) (side : Z) (rl : Rules) : bool :=
  existsb
    (λ s, bool_decide (signAt b s = Some side)
          && nonEmpty (listCapturesForPiece b (sq_r s) (sq_c s) rl))
    allSquares.

(** The script's variables [role], [state], [selected] and
    [legalTargets] *)
Record Vars := mkVars {
  v_role : Role;
  v_state : option GameState;
  v_selected : option Square;
  v_legalTargets : list string
}.

(** Their values when the script has run: spectator, no state, nothing
    selected, the empty set *)
Definition initialVars : Vars := mkVars RSpectator None None [].

(** [socket.on("roomJoined", ...)], up to the call of [render] *)
Definition onRoomJoined (v : Vars) (r : Role) (s : GameState) : Vars :=
  mkVars r (Some s) None [].

(** [socket.on("state", ...)], up to the call of [render] *)
Definition onState (v : Vars) (s : GameState) : Vars :=
  mkVars (v_role v) (Some s) None [].

(** What the script sends on a click: [socket.emit("makeMove", ...)] with
    its [from] and [to] *)
Inductive Sent :=
| SendMakeMove (from to : Square).

(** [onSquareClick(e)] for the square [(r, c)] of the rendered board, up
    to the call of [render]: the variables it leaves and what it sends *)
Definition onSquareClick (v : Vars) (r c : Z) : Vars * list Sent :=
  match v_state v with
  | None => (v, [])
  | Some st =>
      if negb (winner st =? 0) then (v, [])
      else
        let hit := bool_decide (key (mkSquare r c) ∈ v_legalTargets v) in
        match v_selected v with
        | Some sel =>
            if hit then (v, [SendMakeMove sel (mkSquare r c)])
            else
              let targets := computeLegalTargets (v_state v) (v_role v) r c in
              let side := match v_role v with RWhite => 1 | RBlack => -1 | RSpectator => 0 end in
              let sel' :=
                if (length targets =? 0)%nat
                   && ((side =? 0)
                       || negb (bool_decide (signAt (board st) (mkSquare r c) = Some side)))
                then None else Some (mkSquare r c) in
              (mkVars (v_role v) (v_state v) sel' targets, [])
        | None =>
            let targets := computeLegalTargets (v_state v) (v_role v) r c in
            let side := match v_role v with RWhite => 1 | RBlack => -1 | RSpectator => 0 end in
            let sel' :=
              if (length targets =? 0)%nat
                 && ((side =? 0)
                     || negb (bool_decide (signAt (board st) (mkSquare r c) = Some side)))
              then None else Some (mkSquare r c) in
            (mkVars (v_role v) (v_state v) sel' targets, [])
        end
  end.

(** The [from] and [to] of the message as the server's handler reads
    them *)
Definition wire (s : Square) : option SquareP :=
  Some (mkSquareP (JNum (sq_r s)) (JNum (sq_c s))).

(** The variables after any sequence of [roomJoined] and [state] messages
    that carry a well-formed board, and of clicks on squares of the
    rendered board *)
Inductive reach : Vars → Prop :=
| reach_init : reach initialVars
| reach_roomJoined v r s :
    reach v → wfBoard (board s) = true → reach (onRoomJoined v r s)
| reach_state v s :
    reach v → wfBoard (board s) = true → reach (onState v s)
| reach_click v r c :
    reach v → inBounds r c = true → reach (onSquareClick v r c).1.

End Client.

(** While a square is selected, [legalTargets] is the set computed for it
    from the current [state] and [role]; every [state] held has a
    well-formed board. *)
Definition varsInv (v : Client.Vars) : Prop :=
  (∀ st, Client.v_state v = Some st → wfBoard (board st) = true) ∧
  match Client.v_selected v with
  | Some sel =>
      inBounds (sq_r sel) (sq_c sel) = true ∧
      Client.v_legalTargets v
      = Client.computeLegalTargets (Client.v_state v) (Client.v_role v) (sq_r sel) (sq_c sel)
  | None => True
  end.

(** ** Rules records *)

(** Two rules records whose five switches coerce to the same booleans;
    nothing is said of [multiCapture]. *)
Definition sameSwitches (rl rl' : Rules) : Prop :=
  truthy (mustCapture rl) = truthy (mustCapture rl') ∧
  truthy (skipCapturePenaltyRemoveMoved rl) = truthy (skipCapturePenaltyRemoveMoved rl') ∧
  truthy (flyingKingMove rl) = truthy (flyingKingMove rl') ∧
  truthy (flyingKingCapture rl) = truthy (flyingKingCapture rl') ∧
  truthy (menBackwardCapture rl) = truthy (menBackwardCapture rl').

(** * Properties *)

(** ** Arrays and boards *)

Lemma cloneBoard_id (b : Board) : cloneBoard b = b.
Proof. unfold cloneBoard. induction b as [|row b IH]; simpl; [done | by f_equal]. Qed.

Lemma nthZ_Some_range {A} (l : list A) (i : Z) (x : A) :
  nthZ l i = Some x → 0 <= i < Z.of_nat (length l).
Proof.
  unfold nthZ. destruct (Z.leb_spec 0 i) as [Hi|Hi]; [|done].
  intros H. apply lookup_lt_Some in H. lia.
Qed.

Lemma nthZ_is_Some {A} (l : list A) (i : Z) :
  0 <= i < Z.of_nat (length l) → is_Some (nthZ l i).
Proof.
  intros Hi. unfold nthZ. destruct (Z.leb_spec 0 i); [|lia].
  apply lookup_lt_is_Some. lia.
Qed.

Lemma wfBoard_rows (b : Board) :
  wfBoard b = true →
  length b = 8%nat ∧ ∀ row, row ∈ b → length row = 8%nat.
Proof.
  unfold wfBoard. rewrite andb_true_iff, Nat.eqb_eq, forallb_forall.
  intros [Hlen Hrows]. split; [done|].
  intros row Hin. apply Nat.eqb_eq, Hrows. by apply list_elem_of_In.
Qed.

(** On an 8x8 board every in-bounds square is there: a read behind
    [inBounds] never meets [undefined]. *)
Lemma cellAt_inBounds (b : Board) (r c : Z) :
  wfBoard b = true → inBounds r c = true → is_Some (cellAt b r c).
Proof.
  intros Hwf Hin. apply wfBoard_rows in Hwf as [Hlen Hrows].
  unfold inBounds in Hin. rewrite !andb_true_iff in Hin.
  destruct Hin as [[[H1 H2] H3] H4].
  apply Z.leb_le in H1, H3. apply Z.ltb_lt in H2, H4.
  unfold cellAt.
  destruct (nthZ_is_Some b r) as [row Hrow]; [lia|]. rewrite Hrow.
  apply nthZ_is_Some.
  assert (row ∈ b) as Hmem.
  { unfold nthZ in Hrow. destruct (0 <=? r); [|done].
    by eapply list_elem_of_lookup_2. }
  rewrite (Hrows row Hmem). lia.
Qed.

Lemma cellAt_Some_nonneg (b : Board) (r c v : Z) :
  cellAt b r c = Some v → 0 <= r ∧ 0 <= c.
Proof.
  unfold cellAt. destruct (nthZ b r) as [row|] eqn:Hrow; [|done].
  intros Hc. apply nthZ_Some_range in Hrow, Hc. lia.
Qed.

Lemma cellAt_setCell_eq (b : Board) (r c v : Z) :
  is_Some (cellAt b r c) → cellAt (setCell b r c v) r c = Some v.
Proof.
  intros [x Hx]. pose proof (cellAt_Some_nonneg _ _ _ _ Hx) as [Hr Hc].
  unfold setCell, cellAt, nthZ in *.
  destruct (Z.leb_spec 0 r); [|lia]. destruct (Z.leb_spec 0 c); [|lia].
  cbn [andb]. rewrite list_lookup_alter_eq.
  destruct (b !! Z.to_nat r) as [row|] eqn:Hrow; [|done]. cbn [fmap option_fmap option_map] in *.
  apply list_lookup_insert_eq. by eapply lookup_lt_Some.
Qed.

Lemma cellAt_setCell_ne (b : Board) (r c v r' c' : Z) :
  (r, c) ≠ (r', c') → cellAt (setCell b r c v) r' c' = cellAt b r' c'.
Proof.
  intros Hne. unfold setCell.
  destruct (Z.leb_spec 0 r); [|done]. destruct (Z.leb_spec 0 c); [|done].
  cbn [andb]. unfold cellAt, nthZ.
  destruct (Z.leb_spec 0 r'); [|done].
  destruct (decide (Z.to_nat r = Z.to_nat r')) as [Heq|Hr].
  - rewrite Heq, list_lookup_alter_eq.
    destruct (b !! Z.to_nat r') as [row|]; [|done].
    cbn [fmap option_fmap option_map].
    destruct (Z.leb_spec 0 c'); [|done].
    apply list_lookup_insert_ne. intros Hc. apply Hne. f_equal; lia.
  - by rewrite list_lookup_alter_ne.
Qed.

Lemma wfBoard_setCell (b : Board) (r c v : Z) :
  wfBoard b = true → wfBoard (setCell b r c v) = true.
Proof.
  intros Hwf. apply wfBoard_rows in Hwf as [Hlen Hrows].
  unfold setCell. destruct ((0 <=? r) && (0 <=? c)).
  2:{ unfold wfBoard. rewrite andb_true_iff, Nat.eqb_eq, forallb_forall.
      split; [done|]. intros row Hin. apply Nat.eqb_eq, Hrows. by apply list_elem_of_In. }
  unfold wfBoard. rewrite andb_true_iff, Nat.eqb_eq, forallb_forall.
  split; [by rewrite length_alter|].
  intros row Hin. apply Nat.eqb_eq. apply list_elem_of_In in Hin.
  apply list_elem_of_lookup in Hin as [i Hi].
  destruct (decide (Z.to_nat r = i)) as [<-|Hne].
  - rewrite list_lookup_alter_eq in Hi.
    destruct (b !! Z.to_nat r) as [row0|] eqn:Hrow0; [|done].
    cbn [fmap option_fmap option_map] in Hi. injection Hi as <-. rewrite length_insert.
    apply Hrows. by eapply list_elem_of_lookup_2.
  - rewrite list_lookup_alter_ne in Hi by done.
    apply Hrows. by eapply list_elem_of_lookup_2.
Qed.

(** ** Geometry *)

Lemma sign_cases (p : Z) :
  (p = 0 ∧ sign p = 0) ∨ (0 < p ∧ sign p = 1) ∨ (p < 0 ∧ sign p = -1).
Proof.
  unfold sign. destruct (Z.eqb_spec p 0); [lia|].
  destruct (Z.ltb_spec 0 p); lia.
Qed.

Lemma inBounds_spec (r c : Z) :
  inBounds r c = true ↔ 0 <= r < 8 ∧ 0 <= c < 8.
Proof. unfold inBounds. rewrite !andb_true_iff. lia. Qed.

Lemma isEmptyAt_spec (b : Board) (r c : Z) :
  isEmptyAt b r c = true ↔ cellAt b r c = Some 0.
Proof.
  unfold isEmptyAt. destruct (cellAt b r c) as [v|]; [|done].
  rewrite Z.eqb_eq. split; [by intros ->|by intros [=]].
Qed.

Lemma enemyAt_spec (b : Board) (r c side : Z) :
  enemyAt b r c side = true ↔
  ∃ m, cellAt b r c = Some m ∧ m ≠ 0 ∧ sign m = - side.
Proof.
  unfold enemyAt. destruct (cellAt b r c) as [v|].
  - rewrite andb_true_iff, negb_true_iff, Z.eqb_neq, Z.eqb_eq.
    split; [intros [? ?]; eauto|]. by intros (m & [= ->] & ? & ?).
  - split; [done|]. by intros (m & ? & _).
Qed.

(** ** The generators on the positions of the specification *)

(** On the initial board the White man on (5,0) has no capture and the
    one simple move to (4,1). *)
Example initial_man_on_5_0 :
  listCapturesForPiece (board createInitialState) 5 0 initialRules = [] ∧
  listMovesForPiece (board createInitialState) 5 0 initialRules
  = [mkMove (mkSquare 5 0) (mkSquare 4 1)].
Proof. split; vm_compute; reflexivity. Qed.

(** A White man on (3,4) captures the Black man on (2,3) forwards; with
    [menBackwardCapture] on it also captures the one on (4,5) backwards. *)
Example man_captures_back_and_forth :
  let b := setCell (setCell (setCell (replicate 8 (replicate 8 0)) 3 4 1) 2 3 (-1)) 4 5 (-1) in
  listManCaptures b 3 4 1 false
  = [mkCapture (mkSquare 3 4) (mkSquare 2 3) (mkSquare 1 2)] ∧
  listManCaptures b 3 4 1 true
  = [mkCapture (mkSquare 3 4) (mkSquare 2 3) (mkSquare 1 2);
     mkCapture (mkSquare 3 4) (mkSquare 4 5) (mkSquare 5 6)].
Proof. split; vm_compute; reflexivity. Qed.

(** After a first move by White and a reply by Black it is White's turn
    again and the game goes on. *)
Example two_moves_from_the_start :
  match makeMove (Some (seatedRoom createInitialState)) "w"
          (Some (mkSquareP (JNum 5) (JNum 0))) (Some (mkSquareP (JNum 4) (JNum 1))) with
  | Returned rooms' _ =>
      match makeMove rooms' "b"
              (Some (mkSquareP (JNum 2) (JNum 1))) (Some (mkSquareP (JNum 3) (JNum 2))) with
      | Returned (Some room'') _ =>
          turn (room_state room'') = 1 ∧ winner (room_state room'') = 0
      | _ => False
      end
  | Raised => False
  end.
Proof. vm_compute. split; reflexivity. Qed.

(** ** Rays *)

Lemma raySquare_shift (r c dr dc i : Z) :
  raySquare (r + dr) (c + dc) dr dc i = raySquare r c dr dc (i + 1).
Proof. unfold raySquare. f_equal; lia. Qed.

Lemma rayClear_shift (b : Board) (r c dr dc i : Z) :
  rayClear b (r + dr) (c + dc) dr dc i ↔ rayClear b r c dr dc (i + 1).
Proof.
  unfold rayClear.
  replace (r + dr + i * dr) with (r + (i + 1) * dr) by lia.
  by replace (c + dc + i * dc) with (c + (i + 1) * dc) by lia.
Qed.

Lemma rayEnemy_shift (b : Board) (side r c dr dc i : Z) :
  rayEnemy b side (r + dr) (c + dc) dr dc i ↔ rayEnemy b side r c dr dc (i + 1).
Proof.
  unfold rayEnemy.
  replace (r + dr + i * dr) with (r + (i + 1) * dr) by lia.
  by replace (c + dc + i * dc) with (c + (i + 1) * dc) by lia.
Qed.

Lemma rayClear_0 (b : Board) (r c dr dc : Z) :
  rayClear b r c dr dc 0 ↔ inBounds r c = true ∧ cellAt b r c = Some 0.
Proof. unfold rayClear. by rewrite !Z.mul_0_l, !Z.add_0_r. Qed.

Lemma rayEnemy_0 (b : Board) (side r c dr dc : Z) :
  rayEnemy b side r c dr dc 0 ↔
  inBounds r c = true ∧ ∃ m, cellAt b r c = Some m ∧ m ≠ 0 ∧ sign m = - side.
Proof. unfold rayEnemy. by rewrite !Z.mul_0_l, !Z.add_0_r. Qed.

(** A run of squares [lo..hi] of a ray, re-indexed from the next square. *)
Lemma rayClear_run_shift (b : Board) (r c dr dc lo hi : Z) :
  (∀ i, lo <= i <= hi → rayClear b (r + dr) (c + dc) dr dc i) ↔
  (∀ i, lo + 1 <= i <= hi + 1 → rayClear b r c dr dc i).
Proof.
  split; intros H i Hi.
  - specialize (H (i - 1)). rewrite rayClear_shift in H.
    replace (i - 1 + 1) with i in H by lia. apply H. lia.
  - apply rayClear_shift, H. lia.
Qed.

(** ** The flying capture loop *)

Section FlyLoop.
Variables (b : Board) (r c side dr dc : Z).

(** After the enemy [e] has been seen, the loop pushes one capture per
    empty square until the first square that is off the board or
    occupied. *)
Lemma flyLoop_seen_elem (n : nat) (rr cc : Z) (e : Square) (x : Capture) :
  x ∈ flyLoop n b r c side dr dc rr cc (Some e) ↔
  ∃ k, 0 <= k < Z.of_nat n ∧
       (∀ i, 0 <= i <= k → rayClear b rr cc dr dc i) ∧
       x = mkCapture (mkSquare r c) e (raySquare rr cc dr dc k).
Proof.
  revert rr cc. induction n as [|n IH]; intros rr cc.
  { simpl. split; [by intros ?%elem_of_nil|]. intros (k & ? & _). lia. }
  cbn [flyLoop].
  destruct (inBounds rr cc) eqn:Hin.
  2:{ split; [by intros ?%elem_of_nil|]. intros (k & Hk & Hrun & _).
      destruct (Hrun 0) as [Hin' _]; [lia|].
      rewrite !Z.mul_0_l, !Z.add_0_r in Hin'. congruence. }
  destruct (cellAt b rr cc) as [cell|] eqn:Hcell.
  2:{ split; [by intros ?%elem_of_nil|]. intros (k & Hk & Hrun & _).
      destruct (Hrun 0) as [_ Hc]; [lia|].
      rewrite !Z.mul_0_l, !Z.add_0_r in Hc. congruence. }
  destruct (Z.eqb_spec cell 0) as [->|Hne].
  - cbn [app]. rewrite elem_of_cons, IH. split.
    + intros [->|(k & Hk & Hrun & ->)].
      * exists 0. split; [lia|]. split.
        -- intros i Hi. assert (i = 0) as -> by lia. by apply rayClear_0.
        -- unfold raySquare. do 2 f_equal; lia.
      * exists (k + 1). split; [lia|]. split.
        -- intros i Hi. destruct (decide (i = 0)) as [->|Hi0].
           ++ by apply rayClear_0.
           ++ apply (proj1 (rayClear_run_shift b rr cc dr dc 0 k) Hrun). lia.
        -- by rewrite raySquare_shift.
    + intros (k & Hk & Hrun & ->).
      destruct (decide (k = 0)) as [->|Hk0].
      * left. unfold raySquare. do 2 f_equal; lia.
      * right. exists (k - 1). split; [lia|]. split.
        -- apply rayClear_run_shift. intros i Hi. apply Hrun. lia.
        -- rewrite raySquare_shift. by replace (k - 1 + 1) with k by lia.
  - assert (x ∈ (if sign cell =? side then []
                 else if sign cell =? - side then [] else []) ↔ False) as Hnil.
    { destruct (sign cell =? side), (sign cell =? - side);
        split; try done; by intros ?%elem_of_nil. }
    cbn zeta. rewrite Hnil. split; [done|].
    intros (k & Hk & Hrun & _).
    destruct (Hrun 0) as [_ Hc]; [lia|].
    rewrite !Z.mul_0_l, !Z.add_0_r in Hc. congruence.
Qed.

(** Before any piece has been seen, the loop skips the empty squares;
    the first piece must be an enemy, and every empty square behind it,
    up to the next piece or the edge, is one capture. *)
Lemma flyLoop_elem (n : nat) (rr cc : Z) (x : Capture) :
  x ∈ flyLoop n b r c side dr dc rr cc None ↔
  ∃ j k, 0 <= j ∧ j < k ∧ k < Z.of_nat n ∧
         (∀ i, 0 <= i <= j - 1 → rayClear b rr cc dr dc i) ∧
         rayEnemy b side rr cc dr dc j ∧
         (∀ i, j + 1 <= i <= k → rayClear b rr cc dr dc i) ∧
         x = mkCapture (mkSquare r c) (raySquare rr cc dr dc j)
               (raySquare rr cc dr dc k).
Proof.
  revert rr cc. induction n as [|n IH]; intros rr cc.
  { simpl. split; [by intros ?%elem_of_nil|]. intros (j & k & ? & ? & ? & _). lia. }
  cbn [flyLoop].
  assert (∀ j, 0 <= j →
            (∀ i, 0 <= i <= j - 1 → rayClear b rr cc dr dc i) →
            rayEnemy b side rr cc dr dc j →
            (j = 0 ∧ rayEnemy b side rr cc dr dc 0) ∨
            (0 < j ∧ rayClear b rr cc dr dc 0)) as Hfirst.
  { intros j Hj Hrun Hen. destruct (decide (j = 0)) as [->|]; [by left|].
    right. split; [lia|]. apply Hrun. lia. }
  destruct (inBounds rr cc) eqn:Hin.
  2:{ split; [by intros ?%elem_of_nil|].
      intros (j & k & Hj & _ & _ & Hrun & Hen & _).
      destruct (Hfirst j Hj Hrun Hen) as [[_ H]|[_ H]].
      - apply rayEnemy_0 in H as [? _]. congruence.
      - apply rayClear_0 in H as [? _]. congruence. }
  destruct (cellAt b rr cc) as [cell|] eqn:Hcell.
  2:{ split; [by intros ?%elem_of_nil|].
      intros (j & k & Hj & _ & _ & Hrun & Hen & _).
      destruct (Hfirst j Hj Hrun Hen) as [[_ H]|[_ H]].
      - apply rayEnemy_0 in H as [_ (m & ? & _)]. congruence.
      - apply rayClear_0 in H as [_ ?]. congruence. }
  destruct (Z.eqb_spec cell 0) as [->|Hne].
  - cbn [app]. rewrite IH. split.
    + intros (j & k & Hj & Hjk & Hk & Hrun & Hen & Hrun' & ->).
      exists (j + 1), (k + 1). split_and!; try lia.
      * intros i Hi. destruct (decide (i = 0)) as [->|Hi0]; [by apply rayClear_0|].
        apply (proj1 (rayClear_run_shift b rr cc dr dc 0 (j - 1)) Hrun). lia.
      * by apply rayEnemy_shift in Hen.
      * intros i Hi.
        apply (proj1 (rayClear_run_shift b rr cc dr dc (j + 1) k) Hrun'). lia.
      * by rewrite !raySquare_shift.
    + intros (j & k & Hj & Hjk & Hk & Hrun & Hen & Hrun' & ->).
      destruct (Hfirst j Hj Hrun Hen) as [[_ H]|[Hj0 _]].
      { apply rayEnemy_0 in H as [_ (m & ? & ? & _)]. congruence. }
      exists (j - 1), (k - 1). split_and!; try lia.
      * apply rayClear_run_shift. intros i' Hi'. apply Hrun. lia.
      * apply rayEnemy_shift. by replace (j - 1 + 1) with j by lia.
      * apply rayClear_run_shift. intros i' Hi'. apply Hrun'. lia.
      * rewrite !raySquare_shift.
        replace (j - 1 + 1) with j by lia. by replace (k - 1 + 1) with k by lia.
  - cbn zeta. pose proof (sign_cases cell) as Hsign.
    destruct (Z.eqb_spec (sign cell) side) as [Hs|Hs].
    { split; [by intros ?%elem_of_nil|].
      intros (j & k & Hj & _ & _ & Hrun & Hen & _).
      destruct (Hfirst j Hj Hrun Hen) as [[_ H]|[_ H]].
      - apply rayEnemy_0 in H as [_ (m & Hm & ? & ?)]. simplify_eq. lia.
      - apply rayClear_0 in H as [_ ?]. congruence. }
    destruct (Z.eqb_spec (sign cell) (- side)) as [Hopp|Hopp].
    2:{ split; [by intros ?%elem_of_nil|].
        intros (j & k & Hj & _ & _ & Hrun & Hen & _).
        destruct (Hfirst j Hj Hrun Hen) as [[_ H]|[_ H]].
        - apply rayEnemy_0 in H as [_ (m & Hm & ? & ?)]. simplify_eq.
        - apply rayClear_0 in H as [_ ?]. congruence. }
    rewrite flyLoop_seen_elem. split.
    + intros (k & Hk & Hrun & ->). exists 0, (k + 1). split_and!; try lia.
      * apply rayEnemy_0. eauto.
      * intros i Hi.
        apply (proj1 (rayClear_run_shift b rr cc dr dc 0 k) Hrun). lia.
      * rewrite raySquare_shift. unfold raySquare. do 3 f_equal; lia.
    + intros (j & k & Hj & Hjk & Hk & Hrun & Hen & Hrun' & ->).
      destruct (Hfirst j Hj Hrun Hen) as [[-> _]|[_ H]].
      2:{ apply rayClear_0 in H as [_ ?]. congruence. }
      exists (k - 1). split; [lia|]. split.
      * apply rayClear_run_shift. intros i Hi. apply Hrun'. lia.
      * rewrite raySquare_shift. replace (k - 1 + 1) with k by lia.
        unfold raySquare. do 3 f_equal; lia.
Qed.
End FlyLoop.

(** ** Fuel *)

Lemma squaresAhead_le_8 (rr dr : Z) : squaresAhead rr dr <= 8.
Proof.
  unfold squaresAhead.
  destruct (Z.leb_spec 0 rr), (Z.ltb_spec rr 8), (dr =? 1); simpl; lia.
Qed.

Lemma squaresAhead_step (rr cc dr : Z) :
  dr = -1 ∨ dr = 1 → inBounds rr cc = true →
  squaresAhead (rr + dr) dr <= squaresAhead rr dr - 1.
Proof.
  intros Hdr [Hr _]%inBounds_spec. unfold squaresAhead.
  destruct (Z.leb_spec 0 rr), (Z.ltb_spec rr 8); try lia.
  destruct (Z.leb_spec 0 (rr + dr)), (Z.ltb_spec (rr + dr) 8),
    (Z.eqb_spec dr 1); simpl; lia.
Qed.

Lemma squaresAhead_out (rr cc dr : Z) :
  squaresAhead rr dr <= 0 → dr = -1 ∨ dr = 1 → inBounds rr cc = false.
Proof.
  intros H Hdr. destruct (inBounds rr cc) eqn:Hin; [|done].
  apply inBounds_spec in Hin as [Hr _]. unfold squaresAhead in H.
  destruct (Z.leb_spec 0 rr), (Z.ltb_spec rr 8), (Z.eqb_spec dr 1);
    simpl in H; lia.
Qed.

(** Once the fuel covers the squares ahead, more fuel changes nothing:
    the loop has left the board before the fuel runs out. *)
Lemma flyLoop_fuel_mono (b : Board) (r c side dr dc : Z) :
  dr = -1 ∨ dr = 1 →
  ∀ (n m : nat) rr cc seen, squaresAhead rr dr <= Z.of_nat n → (n ≤ m)%nat →
    flyLoop m b r c side dr dc rr cc seen = flyLoop n b r c side dr dc rr cc seen.
Proof.
  intros Hdr. induction n as [|n IH]; intros m rr cc seen Hn Hm.
  - pose proof (squaresAhead_out rr cc dr Hn Hdr) as Hout.
    destruct m; cbn [flyLoop]; [done|]. by rewrite Hout.
  - destruct m as [|m]; [lia|]. cbn [flyLoop].
    destruct (inBounds rr cc) eqn:Hin; [|done].
    pose proof (squaresAhead_step rr cc dr Hdr Hin) as Hstep.
    rewrite !(IH m) by lia. done.
Qed.

Lemma flyLoop_fuel (b : Board) (r c side dr dc rr cc : Z) (seen : option Square) (n : nat) :
  dr = -1 ∨ dr = 1 → (8 ≤ n)%nat →
  flyLoop n b r c side dr dc rr cc seen = flyLoop 8 b r c side dr dc rr cc seen.
Proof.
  intros Hdr Hn. apply flyLoop_fuel_mono; [done| |done].
  pose proof (squaresAhead_le_8 rr dr). lia.
Qed.

Lemma slideLoop_fuel_mono (b : Board) (r c dr dc : Z) :
  dr = -1 ∨ dr = 1 →
  ∀ (n m : nat) rr cc, squaresAhead rr dr <= Z.of_nat n → (n ≤ m)%nat →
    slideLoop m b r c dr dc rr cc = slideLoop n b r c dr dc rr cc.
Proof.
  intros Hdr. induction n as [|n IH]; intros m rr cc Hn Hm.
  - pose proof (squaresAhead_out rr cc dr Hn Hdr) as Hout.
    destruct m; cbn [slideLoop]; [done|]. by rewrite Hout.
  - destruct m as [|m]; [lia|]. cbn [slideLoop].
    destruct (inBounds rr cc) eqn:Hin; [|done].
    pose proof (squaresAhead_step rr cc dr Hdr Hin) as Hstep.
    rewrite !(IH m) by lia. done.
Qed.

Lemma slideLoop_fuel (b : Board) (r c dr dc rr cc : Z) (n : nat) :
  dr = -1 ∨ dr = 1 → (8 ≤ n)%nat →
  slideLoop n b r c dr dc rr cc = slideLoop 8 b r c dr dc rr cc.
Proof.
  intros Hdr Hn. apply slideLoop_fuel_mono; [done| |done].
  pose proof (squaresAhead_le_8 rr dr). lia.
Qed.

(** ** Captures, square by square *)

Lemma dir_elem (d : Z) : d ∈ [-1; 1] ↔ d = -1 ∨ d = 1.
Proof. rewrite !elem_of_cons, elem_of_nil. tauto. Qed.

Lemma shortJump_elem (b : Board) (r c side dr dc : Z) (x : Capture) :
  x ∈ shortJump b r c side dr dc ↔
  inBounds (r + 2 * dr) (c + 2 * dc) = true ∧
  (∃ m, cellAt b (r + dr) (c + dc) = Some m ∧ m ≠ 0 ∧ sign m = - side) ∧
  cellAt b (r + 2 * dr) (c + 2 * dc) = Some 0 ∧
  x = mkCapture (mkSquare r c) (mkSquare (r + dr) (c + dc))
        (mkSquare (r + 2 * dr) (c + 2 * dc)).
Proof.
  unfold shortJump. cbn zeta.
  destruct (inBounds (r + 2 * dr) (c + 2 * dc)) eqn:Hin; cbn [negb].
  2:{ split; [by intros ?%elem_of_nil|]. by intros [? _]. }
  destruct (enemyAt b (r + dr) (c + dc) side) eqn:Hen; cbn [andb].
  2:{ split; [by intros ?%elem_of_nil|]. intros (_ & Hm & _).
      apply enemyAt_spec in Hm. congruence. }
  apply enemyAt_spec in Hen.
  destruct (isEmptyAt b (r + 2 * dr) (c + 2 * dc)) eqn:Hem.
  - apply isEmptyAt_spec in Hem. rewrite list_elem_of_singleton.
    split; [by intros ->|]. by intros (_ & _ & _ & ->).
  - split; [by intros ?%elem_of_nil|]. intros (_ & _ & H0 & _).
    apply isEmptyAt_spec in H0. congruence.
Qed.

(** The flying branch of [listKingCaptures], ray by ray, from the king's
    own square. *)
Lemma flying_ray_elem (b : Board) (r c side dr dc : Z) (x : Capture) :
  dr = -1 ∨ dr = 1 →
  x ∈ flyLoop 8 b r c side dr dc (r + dr) (c + dc) None ↔
  ∃ j k, 1 <= j < k ∧
         (∀ i, 1 <= i < j → rayClear b r c dr dc i) ∧
         rayEnemy b side r c dr dc j ∧
         (∀ i, j < i <= k → rayClear b r c dr dc i) ∧
         x = mkCapture (mkSquare r c) (raySquare r c dr dc j) (raySquare r c dr dc k).
Proof.
  intros Hdr. rewrite flyLoop_elem. split.
  - intros (j & k & Hj & Hjk & Hk & Hrun & Hen & Hrun' & ->).
    exists (j + 1), (k + 1). split_and!; try lia.
    + intros i Hi. apply (proj1 (rayClear_run_shift b r c dr dc 0 (j - 1)) Hrun). lia.
    + by apply rayEnemy_shift.
    + intros i Hi. apply (proj1 (rayClear_run_shift b r c dr dc (j + 1) k) Hrun'). lia.
    + by rewrite !raySquare_shift.
  - intros (j & k & Hjk & Hrun & Hen & Hrun' & ->).
    exists (j - 1), (k - 1).
    assert (k <= 8) as Hk8.
    { assert (inBounds (r + 1 * dr) (c + 1 * dc) = true) as [H1 _]%inBounds_spec.
      { destruct (decide (j = 1)) as [->|]; [apply Hen|]. apply Hrun. lia. }
      destruct (Hrun' k) as [[H2 _]%inBounds_spec _]; [lia|]. nia. }
    split_and!; try lia.
    + apply rayClear_run_shift. intros i Hi. apply Hrun. lia.
    + apply rayEnemy_shift. by replace (j - 1 + 1) with j by lia.
    + apply rayClear_run_shift. intros i Hi. apply Hrun'. lia.
    + rewrite !raySquare_shift.
      replace (j - 1 + 1) with j by lia. by replace (k - 1 + 1) with k by lia.
Qed.

Lemma forwardDir_dir (side : Z) : forwardDir side = -1 ∨ forwardDir side = 1.
Proof. unfold forwardDir. destruct (side =? 1); auto. Qed.

Lemma shortJump_jumps (b : Board) (r c side dr dc : Z) (x : Capture) :
  dr = -1 ∨ dr = 1 → dc = -1 ∨ dc = 1 →
  x ∈ shortJump b r c side dr dc → jumpsFirstPiece b r c x.
Proof.
  intros Hdr Hdc (_ & (m & Hm & Hne & _) & _ & ->)%shortJump_elem.
  exists dr, dc, 1, 2. split_and!; try done; try lia.
  - exists m. split; [|done]. by rewrite !Z.mul_1_l.
  - unfold raySquare. by rewrite !Z.mul_1_l.
Qed.

Lemma shortJump_sound (b : Board) (r c side dr dc : Z) (x : Capture) :
  x ∈ shortJump b r c side dr dc → captureSound b side x.
Proof. intros (_ & Hm & H0 & ->)%shortJump_elem. by split. Qed.

Lemma flying_ray_jumps (b : Board) (r c side dr dc : Z) (x : Capture) :
  dr = -1 ∨ dr = 1 → dc = -1 ∨ dc = 1 →
  x ∈ flyLoop 8 b r c side dr dc (r + dr) (c + dc) None → jumpsFirstPiece b r c x.
Proof.
  intros Hdr Hdc Hx. apply flying_ray_elem in Hx; [|done].
  destruct Hx as (j & k & Hjk & Hrun & [_ (m & Hm & Hne & _)] & _ & ->).
  exists dr, dc, j, k. split_and!; try done; try lia.
  - intros i Hi. by apply Hrun.
  - by exists m.
Qed.

Lemma flying_ray_sound (b : Board) (r c side dr dc : Z) (x : Capture) :
  dr = -1 ∨ dr = 1 →
  x ∈ flyLoop 8 b r c side dr dc (r + dr) (c + dc) None → captureSound b side x.
Proof.
  intros Hdr Hx. apply flying_ray_elem in Hx; [|done].
  destruct Hx as (j & k & Hjk & _ & [_ Hen] & Hrun & ->).
  split; [|done]. apply Hrun. lia.
Qed.

Lemma listManCaptures_elem (b : Board) (r c side : Z) (back : bool) (x : Capture) :
  x ∈ listManCaptures b r c side back ↔
  ∃ dr dc, (if back then dr = -1 ∨ dr = 1 else dr = forwardDir side) ∧
           (dc = -1 ∨ dc = 1) ∧ x ∈ shortJump b r c side dr dc.
Proof.
  unfold listManCaptures. cbn zeta. rewrite list_elem_of_bind.
  split.
  - intros (dr & (dc & Hx & Hdc%dir_elem)%list_elem_of_bind & Hdr).
    exists dr, dc. split_and!; try done.
    destruct back; [by apply dir_elem|by apply list_elem_of_singleton].
  - intros (dr & dc & Hdr & Hdc & Hx). exists dr. split.
    + apply list_elem_of_bind. exists dc. split; [done|by apply dir_elem].
    + destruct back; [by apply dir_elem|by apply list_elem_of_singleton].
Qed.

Lemma listKingCaptures_elem (b : Board) (r c side : Z) (flying : bool) (x : Capture) :
  x ∈ listKingCaptures b r c side flying ↔
  ∃ dr dc, (dr = -1 ∨ dr = 1) ∧ (dc = -1 ∨ dc = 1) ∧
           x ∈ (if flying
                then flyLoop 8 b r c side dr dc (r + dr) (c + dc) None
                else shortJump b r c side dr dc).
Proof.
  unfold listKingCaptures. destruct flying; cbn [negb]; rewrite list_elem_of_bind.
  all: split;
    [ intros (dr & (dc & Hx & Hdc%dir_elem)%list_elem_of_bind & Hdr%dir_elem);
      by exists dr, dc
    | intros (dr & dc & Hdr & Hdc & Hx); exists dr; split; [|by apply dir_elem];
      apply list_elem_of_bind; exists dc; split; [done|by apply dir_elem] ].
Qed.

Lemma listCapturesForPiece_elem (b : Board) (r c : Z) (rl : Rules) (x : Capture) :
  x ∈ listCapturesForPiece b r c rl →
  ∃ piece, cellAt b r c = Some piece ∧ piece ≠ 0 ∧
    x ∈ (if isKing piece
         then listKingCaptures b r c (sign piece) (truthy (flyingKingCapture rl))
         else listManCaptures b r c (sign piece) (truthy (menBackwardCapture rl))).
Proof.
  unfold listCapturesForPiece. destruct (cellAt b r c) as [piece|]; [|by intros ?%elem_of_nil].
  destruct (Z.eqb_spec piece 0); [by intros ?%elem_of_nil|]. cbn zeta. eauto.
Qed.

Lemma listCapturesForPiece_jumps (b : Board) (r c : Z) (rl : Rules) (x : Capture) :
  x ∈ listCapturesForPiece b r c rl → jumpsFirstPiece b r c x.
Proof.
  intros (piece & _ & _ & Hx)%listCapturesForPiece_elem.
  destruct (isKing piece).
  - apply listKingCaptures_elem in Hx as (dr & dc & Hdr & Hdc & Hx).
    destruct (truthy _);
      [by apply (flying_ray_jumps b r c (sign piece) dr dc)
      |by apply (shortJump_jumps b r c (sign piece) dr dc)].
  - apply listManCaptures_elem in Hx as (dr & dc & Hdr & Hdc & Hx).
    apply (shortJump_jumps b r c (sign piece) dr dc); [|done..].
    destruct (truthy _); [done|]. subst dr. apply forwardDir_dir.
Qed.

Lemma listCapturesForPiece_sound (b : Board) (r c : Z) (rl : Rules) (x : Capture) :
  x ∈ listCapturesForPiece b r c rl →
  ∃ piece, cellAt b r c = Some piece ∧ piece ≠ 0 ∧ captureSound b (sign piece) x.
Proof.
  intros (piece & Hp & Hne & Hx)%listCapturesForPiece_elem.
  exists piece. split_and!; try done.
  destruct (isKing piece).
  - apply listKingCaptures_elem in Hx as (dr & dc & Hdr & Hdc & Hx).
    destruct (truthy _);
      [by apply (flying_ray_sound b r c (sign piece) dr dc)
      |by apply (shortJump_sound b r c (sign piece) dr dc)].
  - apply listManCaptures_elem in Hx as (dr & dc & Hdr & Hdc & Hx).
    by apply (shortJump_sound b r c (sign piece) dr dc).
Qed.

(** Two captures of one piece that land on the same square are the same
    capture: the landing square fixes the diagonal, and the jumped piece
    is the first piece on it. *)
Lemma jumps_to_inj (b : Board) (r c : Z) (x y : Capture) :
  jumpsFirstPiece b r c x → jumpsFirstPiece b r c y →
  cap_to x = cap_to y → x = y.
Proof.
  intros (dr & dc & j & k & Hdr & Hdc & Hjk & Hrun & (m & Hm & Hne) & ->)
         (dr' & dc' & j' & k' & Hdr' & Hdc' & Hjk' & Hrun' & (m' & Hm' & Hne') & ->) Hto.
  cbn in Hto. unfold raySquare in Hto. injection Hto as Hr Hc.
  assert (dr = dr' ∧ k = k') as [<- <-] by (destruct Hdr, Hdr'; subst; lia).
  assert (dc = dc') as <- by (destruct Hdc, Hdc'; subst; lia).
  assert (j = j') as <-.
  { destruct (Z.lt_trichotomy j j') as [Hlt|[?|Hlt]]; [|done|].
    - rewrite Hrun' in Hm by lia. congruence.
    - rewrite Hrun in Hm' by lia. congruence. }
  done.
Qed.

Lemma captures_to_inj (b : Board) (r c : Z) (rl : Rules) (x y : Capture) :
  x ∈ listCapturesForPiece b r c rl → y ∈ listCapturesForPiece b r c rl →
  cap_to x = cap_to y → x = y.
Proof.
  intros Hx%listCapturesForPiece_jumps Hy%listCapturesForPiece_jumps.
  by apply (jumps_to_inj b r c).
Qed.

(** ** No capture is listed twice *)

Lemma flyLoop_seen_NoDup (b : Board) (r c side dr dc : Z) (n : nat) :
  dr = -1 ∨ dr = 1 →
  ∀ rr cc e, NoDup (flyLoop n b r c side dr dc rr cc (Some e)).
Proof.
  intros Hdr. induction n as [|n IH]; intros rr cc e; [constructor|].
  cbn [flyLoop]. destruct (inBounds rr cc); [|constructor].
  destruct (cellAt b rr cc) as [cell|]; [|constructor].
  destruct (cell =? 0).
  - cbn [app]. constructor; [|apply IH].
    intros (k & Hk & _ & Heq)%flyLoop_seen_elem.
    unfold raySquare in Heq. injection Heq as Hr _.
    destruct Hdr; subst dr; lia.
  - cbn zeta. destruct (_ =? side); [constructor|].
    destruct (_ =? - side); constructor.
Qed.

Lemma flyLoop_NoDup (b : Board) (r c side dr dc : Z) (n : nat) :
  dr = -1 ∨ dr = 1 →
  ∀ rr cc, NoDup (flyLoop n b r c side dr dc rr cc None).
Proof.
  intros Hdr. induction n as [|n IH]; intros rr cc; [constructor|].
  cbn [flyLoop]. destruct (inBounds rr cc); [|constructor].
  destruct (cellAt b rr cc) as [cell|]; [|constructor].
  destruct (cell =? 0); [apply IH|].
  cbn zeta. destruct (_ =? side); [constructor|].
  destruct (_ =? - side); [by apply flyLoop_seen_NoDup|constructor].
Qed.

Lemma listKingCaptures_flying_NoDup (b : Board) (r c side : Z) :
  NoDup (listKingCaptures b r c side true).
Proof.
  unfold listKingCaptures. cbn [negb].
  assert (NoDup [-1; 1]) as Hdirs.
  { repeat constructor; rewrite ?elem_of_cons, ?elem_of_nil; lia. }
  assert (∀ dr dc x, dr ∈ [-1; 1] → dc ∈ [-1; 1] →
            x ∈ flyLoop 8 b r c side dr dc (r + dr) (c + dc) None →
            ∃ k, 1 < k ∧ cap_to x = raySquare r c dr dc k) as Hto.
  { intros dr dc x Hdr%dir_elem Hdc%dir_elem Hx.
    apply flying_ray_elem in Hx as (j & k & Hjk & _ & _ & _ & ->); [|done].
    exists k. split; [lia|done]. }
  apply NoDup_bind; [| |done].
  - intros dr dr' x Hdr Hdr' Hx Hx'.
    apply list_elem_of_bind in Hx as (dc & Hx & Hdc).
    apply list_elem_of_bind in Hx' as (dc' & Hx' & Hdc').
    destruct (Hto _ _ _ Hdr Hdc Hx) as (k & Hk & Hxk).
    destruct (Hto _ _ _ Hdr' Hdc' Hx') as (k' & Hk' & Hxk').
    rewrite Hxk in Hxk'. unfold raySquare in Hxk'. injection Hxk' as Hr _.
    apply dir_elem in Hdr, Hdr'. destruct Hdr, Hdr'; subst; lia.
  - intros dr Hdr. apply NoDup_bind; [| |done].
    + intros dc dc' x Hdc Hdc' Hx Hx'.
      destruct (Hto _ _ _ Hdr Hdc Hx) as (k & Hk & Hxk).
      destruct (Hto _ _ _ Hdr Hdc' Hx') as (k' & Hk' & Hxk').
      rewrite Hxk in Hxk'. unfold raySquare in Hxk'. injection Hxk' as _ Hc.
      apply dir_elem in Hdc, Hdc'. destruct Hdc, Hdc'; subst; lia.
    + intros dc _. apply flyLoop_NoDup. by apply dir_elem.
Qed.

(** ** The claims about the capture generators *)

(** C5.  Every capture that [listManCaptures], [listKingCaptures] (short
    or flying) and [listCapturesForPiece] return, for every board, source
    square, side and rules, lands on an empty square and jumps a square
    that holds a piece of the other side: the landing square is never
    occupied, and the jumped square is never empty nor a piece of the
    moving side. *)
Theorem legalCaptures_sound :
  (∀ (b : Board) r c side back,
     Forall (captureSound b side) (listManCaptures b r c side back)) ∧
  (∀ (b : Board) r c side flying,
     Forall (captureSound b side) (listKingCaptures b r c side flying)) ∧
  (∀ (b : Board) r c rl,
     Forall (λ x, ∃ piece, cellAt b r c = Some piece ∧ piece ≠ 0 ∧
                           captureSound b (sign piece) x)
            (listCapturesForPiece b r c rl)).
Proof.
  split_and!.
  - intros b r c side back. apply Forall_forall.
    intros x (dr & dc & _ & _ & Hx)%listManCaptures_elem.
    by apply (shortJump_sound b r c side dr dc).
  - intros b r c side flying. apply Forall_forall.
    intros x (dr & dc & Hdr & _ & Hx)%listKingCaptures_elem.
    destruct flying;
      [by apply (flying_ray_sound b r c side dr dc)
      |by apply (shortJump_sound b r c side dr dc)].
  - intros b r c rl. apply Forall_forall.
    intros x Hx. by apply (listCapturesForPiece_sound b r c rl).
Qed.

(** A flying capture that lands on a given ray is a capture of that
    ray: the landing square tells the ray. *)
Lemma flying_capture_of_ray (b : Board) (r c side dr dc : Z) (x : Capture) :
  dr = -1 ∨ dr = 1 → dc = -1 ∨ dc = 1 →
  x ∈ listKingCaptures b r c side true → landsOnRay r c dr dc x →
  ∃ j k, 1 <= j < k ∧
         (∀ i, 1 <= i < j → rayClear b r c dr dc i) ∧
         rayEnemy b side r c dr dc j ∧
         (∀ i, j < i <= k → rayClear b r c dr dc i) ∧
         x = mkCapture (mkSquare r c) (raySquare r c dr dc j) (raySquare r c dr dc k).
Proof.
  intros Hdr Hdc (dr' & dc' & Hdr' & Hdc' & Hx)%listKingCaptures_elem (k0 & Hk0 & Hto).
  apply flying_ray_elem in Hx; [|done].
  destruct Hx as (j & k & Hjk & Hrun & Hen & Hrun' & ->).
  cbn in Hto. unfold raySquare in Hto. injection Hto as Hr Hc.
  assert (dr' = dr) as -> by (destruct Hdr, Hdr'; subst; lia).
  assert (dc' = dc) as -> by (destruct Hdc, Hdc'; subst; lia).
  by exists j, k.
Qed.

(** The first piece on a ray is at one place only. *)
Lemma first_piece_unique (b : Board) (side r c dr dc j j0 : Z) :
  (∀ i, 1 <= i < j → rayClear b r c dr dc i) → 1 <= j → rayOccupied b r c dr dc j →
  (∀ i, 1 <= i < j0 → rayClear b r c dr dc i) → 1 <= j0 → rayEnemy b side r c dr dc j0 →
  j0 = j.
Proof.
  intros Hrun Hj [_ (m & Hm & Hne)] Hrun0 Hj0 [_ (m0 & Hm0 & Hne0 & _)].
  destruct (Z.lt_trichotomy j0 j) as [Hlt|[?|Hlt]]; [|done|].
  - destruct (Hrun j0) as [_ H0]; [lia|]. congruence.
  - destruct (Hrun0 j) as [_ H0]; [lia|]. congruence.
Qed.

(** C3, as amended.  With [flyingKingCapture] on, the king capture
    generator returns exactly these captures: along each of the four
    diagonals, when the first piece met (at step [j], behind empty squares
    only) is an enemy, one capture over it for every step [k] behind it
    such that all the squares from the enemy up to [k] are on the board
    and empty.  So every empty square between the jumped enemy and the
    next piece (or the edge) is a landing square of its own; no capture
    is listed twice, nor two captures for one landing square; a ray whose
    first piece is not an enemy gives no capture; and on a ray with a
    second piece every capture jumps the first piece and lands before the
    second one. *)
Theorem listKingCaptures_flying_spec (b : Board) (r c side : Z) :
  (∀ x, x ∈ listKingCaptures b r c side true ↔
     ∃ dr dc j k,
       (dr = -1 ∨ dr = 1) ∧ (dc = -1 ∨ dc = 1) ∧ 1 <= j < k ∧
       (∀ i, 1 <= i < j → rayClear b r c dr dc i) ∧
       rayEnemy b side r c dr dc j ∧
       (∀ i, j < i <= k → rayClear b r c dr dc i) ∧
       x = mkCapture (mkSquare r c) (raySquare r c dr dc j) (raySquare r c dr dc k)) ∧
  NoDup (listKingCaptures b r c side true) ∧
  (∀ x y, x ∈ listKingCaptures b r c side true →
          y ∈ listKingCaptures b r c side true →
          cap_to x = cap_to y → x = y) ∧
  (∀ dr dc j x,
     (dr = -1 ∨ dr = 1) → (dc = -1 ∨ dc = 1) → 1 <= j →
     (∀ i, 1 <= i < j → rayClear b r c dr dc i) →
     rayOccupied b r c dr dc j → ¬ rayEnemy b side r c dr dc j →
     x ∈ listKingCaptures b r c side true → ¬ landsOnRay r c dr dc x) ∧
  (∀ dr dc j j' x,
     (dr = -1 ∨ dr = 1) → (dc = -1 ∨ dc = 1) → 1 <= j < j' →
     (∀ i, 1 <= i < j → rayClear b r c dr dc i) → rayOccupied b r c dr dc j →
     (∀ i, j < i < j' → rayClear b r c dr dc i) → rayOccupied b r c dr dc j' →
     x ∈ listKingCaptures b r c side true → landsOnRay r c dr dc x →
     cap_over x = raySquare r c dr dc j ∧
     ∃ k, j < k < j' ∧ cap_to x = raySquare r c dr dc k).
Proof.
  split_and!.
  - intros x. rewrite listKingCaptures_elem. split.
    + intros (dr & dc & Hdr & Hdc & Hx). apply flying_ray_elem in Hx; [|done].
      destruct Hx as (j & k & Hx). by exists dr, dc, j, k.
    + intros (dr & dc & j & k & Hdr & Hdc & Hx). exists dr, dc.
      split_and!; try done. apply flying_ray_elem; [done|]. by exists j, k.
  - apply listKingCaptures_flying_NoDup.
  - intros x y (dr & dc & Hdr & Hdc & Hx)%listKingCaptures_elem
      (dr' & dc' & Hdr' & Hdc' & Hy)%listKingCaptures_elem.
    apply (jumps_to_inj b r c).
    + apply (flying_ray_jumps b r c side dr dc); [exact Hdr|exact Hdc|exact Hx].
    + apply (flying_ray_jumps b r c side dr' dc'); [exact Hdr'|exact Hdc'|exact Hy].
  - intros dr dc j x Hdr Hdc Hj Hrun Hocc Hnot Hx Hray.
    destruct (flying_capture_of_ray b r c side dr dc x Hdr Hdc Hx Hray)
      as (j0 & k & Hjk & Hrun0 & Hen & _).
    assert (j0 = j) as -> by (apply (first_piece_unique b side r c dr dc); try done; lia).
    done.
  - intros dr dc j j' x Hdr Hdc Hjj' Hrun Hocc Hrun' [_ (m' & Hm' & Hne')] Hx Hray.
    destruct (flying_capture_of_ray b r c side dr dc x Hdr Hdc Hx Hray)
      as (j0 & k & Hjk & Hrun0 & Hen & Hland & ->).
    assert (j0 = j) as -> by (apply (first_piece_unique b side r c dr dc); try done; lia).
    split; [done|]. exists k. split; [|done].
    destruct (Z.lt_ge_cases k j') as [?|Hge]; [lia|].
    destruct (Hland j') as [_ H0]; [lia|]. congruence.
Qed.

Lemma listKingCaptures_flying_spec_witness :
  mkCapture (mkSquare 7 0) (mkSquare 6 1) (mkSquare 5 2)
  ∈ listKingCaptures twoOnRayBoard 7 0 1 true.
Proof.
  apply (proj1 (listKingCaptures_flying_spec twoOnRayBoard 7 0 1)).
  exists (-1), 1, 1, 2. split_and!; [by left|by right|lia|lia|..].
  - intros i Hi. lia.
  - split; [reflexivity|]. exists (-1). split_and!; [reflexivity|lia|reflexivity].
  - intros i Hi. assert (i = 2) as -> by lia. split; reflexivity.
  - reflexivity.
Defined.

(** C3, counterexample.  On [twoOnRayBoard] the scan from (7,0) towards
    (0,7) meets a second piece on (4,3), and the generator still returns
    the capture over (6,1) that lands on (5,2). *)
Lemma listKingCaptures_second_piece_counterexample :
  ¬ noCaptureOnRayWithSecondPiece twoOnRayBoard 7 0 1.
Proof.
  intros H.
  apply (H (-1) 1 (or_introl eq_refl) (or_intror eq_refl))
    with (x := mkCapture (mkSquare 7 0) (mkSquare 6 1) (mkSquare 5 2)).
  - exists 1, 3. split_and!; try lia.
    + split; [done|]. by exists (-1).
    + intros i Hi. assert (i = 2) as -> by lia. by split.
    + split; [done|]. by exists (-1).
  - vm_compute. by constructor.
  - exists 2. by split.
Qed.

(** ** The applier, cell by cell *)

Lemma cellAt_setCell (b : Board) (r c v r' c' : Z) :
  is_Some (cellAt b r c) →
  cellAt (setCell b r c v) r' c'
  = if decide ((r, c) = (r', c')) then Some v else cellAt b r' c'.
Proof.
  intros Hon. destruct (decide ((r, c) = (r', c'))) as [[= <- <-]|Hne].
  - by apply cellAt_setCell_eq.
  - by apply cellAt_setCell_ne.
Qed.

Lemma setCell_on_grid (b : Board) (r c v r' c' : Z) :
  is_Some (cellAt b r' c') → is_Some (cellAt (setCell b r c v) r' c').
Proof.
  intros Hon. destruct (decide ((r, c) = (r', c'))) as [[= -> ->]|Hne].
  - rewrite cellAt_setCell_eq; [by eexists|done].
  - by rewrite cellAt_setCell_ne.
Qed.

Lemma landsOn_spec (tr tc : Z) (x : Capture) :
  landsOn tr tc x = true ↔ cap_to x = mkSquare tr tc.
Proof.
  unfold landsOn. rewrite andb_true_iff, !Z.eqb_eq.
  destruct x as [f o [r c]]; cbn. split; [by intros [-> ->]|by intros [= -> ->]].
Qed.

(** [caps.find(...)] and [caps.some(...)] on the captures of a piece: the
    capture that is found is the only one that lands on the target. *)
Lemma find_capture (b : Board) (r c : Z) (rl : Rules) (tr tc : Z) (x : Capture) :
  List.find (landsOn tr tc) (listCapturesForPiece b r c rl) = Some x ↔
  x ∈ listCapturesForPiece b r c rl ∧ cap_to x = mkSquare tr tc.
Proof.
  split.
  - intros [Hin Hto]%find_some. split; [by apply list_elem_of_In|by apply landsOn_spec].
  - intros [Hin Hto].
    destruct (List.find _ _) as [y|] eqn:Hfind.
    + apply find_some in Hfind as [Hy Hyto].
      apply list_elem_of_In in Hy. apply landsOn_spec in Hyto.
      f_equal. apply (captures_to_inj b r c rl); [done..|congruence].
    + apply list_elem_of_In in Hin. apply landsOn_spec in Hto.
      rewrite (find_none _ _ Hfind x Hin) in Hto. done.
Qed.

Lemma find_capture_None (b : Board) (r c : Z) (rl : Rules) (tr tc : Z) :
  List.find (landsOn tr tc) (listCapturesForPiece b r c rl) = None ↔
  ∀ x, x ∈ listCapturesForPiece b r c rl → cap_to x ≠ mkSquare tr tc.
Proof.
  split.
  - intros Hfind x Hin Hto. apply landsOn_spec in Hto.
    apply list_elem_of_In in Hin. rewrite (find_none _ _ Hfind x Hin) in Hto. done.
  - intros Hall. destruct (List.find _ _) as [y|] eqn:Hfind; [|done].
    apply find_capture in Hfind as [Hin Hto]. by destruct (Hall y).
Qed.

Lemma existsb_landsOn (b : Board) (r c : Z) (rl : Rules) (tr tc : Z) :
  existsb (landsOn tr tc) (listCapturesForPiece b r c rl)
  = bool_decide (is_Some (List.find (landsOn tr tc) (listCapturesForPiece b r c rl))).
Proof.
  induction (listCapturesForPiece b r c rl) as [|y l IH]; [done|].
  simpl. by destruct (landsOn tr tc y).
Qed.

Lemma accepted_inv (st : GameState) (side : Z) (mv : Move) :
  accepted st side mv = true →
  ∃ piece,
    cellAt (board st) (sq_r (mv_from mv)) (sq_c (mv_from mv)) = Some piece ∧
    sign piece = side ∧ piece ≠ 0 ∧
    cellAt (board st) (sq_r (mv_to mv)) (sq_c (mv_to mv)) = Some 0 ∧
    (side = 1 ∨ side = -1) ∧ winner st = 0 ∧ turn st = side ∧
    mv_from mv ≠ mv_to mv.
Proof.
  unfold accepted. cbn zeta. rewrite !andb_true_iff, orb_true_iff, !Z.eqb_eq.
  intros [[[[[[Hside Hw] Ht] _] Hp] Ht0] _].
  apply bool_decide_eq_true in Hp, Ht0.
  destruct (cellAt _ (sq_r (mv_from mv)) _) as [piece|] eqn:Hpiece; [|done].
  injection Hp as Hp. exists piece.
  assert (piece ≠ 0) as Hne.
  { intros ->. unfold sign in Hp. simpl in Hp. lia. }
  split_and!; try done; try lia.
  intros Heq. rewrite Heq in Hpiece. congruence.
Qed.

(** The state that [applyMoveWithRules] returns, field by field and cell
    by cell, whenever both squares of the move are on the board. *)
Lemma applyMoveWithRules_cells (st : GameState) (mv : Move) (piece tgt : Z) :
  let b := board st in
  let fr := sq_r (mv_from mv) in
  let fc := sq_c (mv_from mv) in
  let tr := sq_r (mv_to mv) in
  let tc := sq_c (mv_to mv) in
  let capMatch := List.find (landsOn tr tc) (listCapturesForPiece b fr fc (rules st)) in
  let pen := penaltyApplies st (sign piece) mv in
  cellAt b fr fc = Some piece → cellAt b tr tc = Some tgt →
  ∃ next,
    applyMoveWithRules st mv = Some next ∧
    turn next = - turn st ∧ winner next = winner st ∧ rules next = rules st ∧
    lastMove next = Some (mkMoveResult (mv_from mv) (mv_to mv) (cap_over <$> capMatch) pen) ∧
    ∀ r c,
      cellAt (board next) r c
      = if decide ((tr, tc) = (r, c))
        then Some (if pen then 0 else placedPiece piece (sign piece) tr)
        else if decide (cap_over <$> capMatch = Some (mkSquare r c)) then Some 0
        else if decide ((fr, fc) = (r, c)) then Some 0
        else cellAt b r c.
Proof.
  intros b fr fc tr tc capMatch pen Hpiece Htgt.
  unfold applyMoveWithRules. fold b fr fc tr tc. rewrite Hpiece, Htgt.
  fold capMatch. cbn zeta.
  assert (truthy (mustCapture (rules st))
          && truthy (skipCapturePenaltyRemoveMoved (rules st))
          && anyCaptureAvailable b (sign piece) (rules st)
          && negb (bool_decide (is_Some capMatch)) = pen) as ->.
  { unfold pen, penaltyApplies, isCaptureMove. by rewrite existsb_landsOn. }
  eexists. split; [reflexivity|]. cbn [turn winner rules lastMove board].
  split_and!; try done.
  intros r c. rewrite cloneBoard_id.
  set (b1 := setCell b fr fc 0).
  assert (∀ r' c', is_Some (cellAt b r' c') → is_Some (cellAt b1 r' c')) as Hb1.
  { intros r' c'. apply setCell_on_grid. }
  assert (∀ r' c', cellAt b1 r' c'
            = if decide ((fr, fc) = (r', c')) then Some 0 else cellAt b r' c') as Ecell1.
  { intros r' c'. apply cellAt_setCell. by eexists. }
  set (b2 := match cap_over <$> capMatch with
             | Some p => setCell b1 (sq_r p) (sq_c p) 0
             | None => b1
             end).
  assert (∀ r' c', is_Some (cellAt b r' c') → is_Some (cellAt b2 r' c')) as Hb2.
  { intros r' c' Hon. unfold b2. destruct (cap_over <$> capMatch); [|by apply Hb1].
    by apply setCell_on_grid, Hb1. }
  assert (∀ r' c', cellAt b2 r' c'
            = if decide (cap_over <$> capMatch = Some (mkSquare r' c')) then Some 0
              else cellAt b1 r' c') as Ecell2.
  { intros r' c'. unfold b2. destruct capMatch as [x|] eqn:Hfind; cbn.
    - apply find_capture in Hfind as [Hin _].
      apply listCapturesForPiece_sound in Hin as (p & _ & _ & _ & (m & Hm & _)).
      rewrite cellAt_setCell by (apply Hb1; by eexists).
      destruct (cap_over x) as [ro co]; cbn.
      repeat case_decide; simplify_eq; done.
    - by case_decide. }
  set (placed := placedPiece piece (sign piece) tr).
  set (b3 := setCell b2 tr tc placed).
  assert (is_Some (cellAt b2 tr tc)) as Hto2 by (apply Hb2; by eexists).
  assert (cellAt (if pen then setCell b3 tr tc 0 else b3) r c
          = if decide ((tr, tc) = (r, c)) then Some (if pen then 0 else placed)
            else cellAt b2 r c) as ->.
  { destruct pen.
    - rewrite cellAt_setCell by by apply setCell_on_grid.
      unfold b3. rewrite cellAt_setCell by done. by repeat case_decide.
    - unfold b3. by rewrite cellAt_setCell by done. }
  by rewrite Ecell2, Ecell1.
Qed.

(** On an 8x8 board the applier returns a state for every move between
    in-bounds squares; the handler calls it on no other. *)
Lemma applyMoveWithRules_total (st : GameState) (mv : Move) :
  wfBoard (board st) = true →
  inBounds (sq_r (mv_from mv)) (sq_c (mv_from mv)) = true →
  inBounds (sq_r (mv_to mv)) (sq_c (mv_to mv)) = true →
  is_Some (applyMoveWithRules st mv).
Proof.
  intros Hwf Hf Ht.
  destruct (cellAt_inBounds _ _ _ Hwf Hf) as [piece Hpiece].
  destruct (cellAt_inBounds _ _ _ Hwf Ht) as [tgt Htgt].
  destruct (applyMoveWithRules_cells st mv piece tgt Hpiece Htgt) as (next & -> & _).
  by eexists.
Qed.

Lemma placedPiece_nonzero (piece side tr : Z) :
  piece ≠ 0 → placedPiece piece side tr ≠ 0.
Proof.
  intros Hne. unfold placedPiece.
  destruct (isKing piece); cbn [negb]; [done|].
  destruct (_ && _); [done|]. by destruct (_ && _).
Qed.

Lemma applyMoveWithRules_wf (st : GameState) (mv : Move) (next : GameState) :
  applyMoveWithRules st mv = Some next →
  wfBoard (board st) = true → wfBoard (board next) = true.
Proof.
  unfold applyMoveWithRules. intros Happ Hwf.
  destruct (cellAt _ (sq_r (mv_from mv)) _); [|done].
  destruct (cellAt _ (sq_r (mv_to mv)) _); [|done].
  injection Happ as <-. cbn [board]. rewrite cloneBoard_id.
  assert (∀ b', wfBoard b' = true →
            wfBoard match cap_over <$> List.find
                            (landsOn (sq_r (mv_to mv)) (sq_c (mv_to mv)))
                            (listCapturesForPiece (board st) (sq_r (mv_from mv))
                               (sq_c (mv_from mv)) (rules st)) with
                    | Some p => setCell b' (sq_r p) (sq_c p) 0
                    | None => b'
                    end = true) as Hcap.
  { intros b' Hb'. destruct (cap_over <$> _); [by apply wfBoard_setCell|done]. }
  destruct (_ && _ && _ && _); repeat apply wfBoard_setCell; by apply Hcap, wfBoard_setCell.
Qed.

(** ** The claims about the applier *)

(** C1.  For an accepted move, the penalty applies exactly when
    [mustCapture] and [skipCapturePenaltyRemoveMoved] are on, the moving
    side had a capture on the pre-move board, and the move is not a
    capture.  Then the destination is empty in the returned board and
    [penaltyRemoved] is true; otherwise the placed piece stands on the
    destination and [penaltyRemoved] is false.  The turn flips either
    way. *)
Theorem penalty_removes_moved_piece (st : GameState) (side : Z) (mv : Move) :
  accepted st side mv = true →
  ∃ piece next lm,
    cellAt (board st) (sq_r (mv_from mv)) (sq_c (mv_from mv)) = Some piece ∧
    applyMoveWithRules st mv = Some next ∧
    lastMove next = Some lm ∧
    turn next = - turn st ∧
    if truthy (mustCapture (rules st))
       && truthy (skipCapturePenaltyRemoveMoved (rules st))
       && anyCaptureAvailable (board st) side (rules st)
       && negb (isCaptureMove st mv)
    then cellAt (board next) (sq_r (mv_to mv)) (sq_c (mv_to mv)) = Some 0 ∧
         lm_penaltyRemoved lm = true
    else cellAt (board next) (sq_r (mv_to mv)) (sq_c (mv_to mv))
           = Some (placedPiece piece side (sq_r (mv_to mv))) ∧
         placedPiece piece side (sq_r (mv_to mv)) ≠ 0 ∧
         lm_penaltyRemoved lm = false.
Proof.
  intros (piece & Hpiece & Hside & Hne & Hto & _)%accepted_inv.
  destruct (applyMoveWithRules_cells st mv piece 0 Hpiece Hto)
    as (next & Happ & Hturn & _ & _ & Hlm & Hcells).
  rewrite Hside in *. eexists piece, next, _. split_and!; try done.
  fold (penaltyApplies st side mv).
  specialize (Hcells (sq_r (mv_to mv)) (sq_c (mv_to mv))).
  rewrite decide_True in Hcells by done.
  destruct (penaltyApplies st side mv); cbn [lm_penaltyRemoved]; split_and!; try done.
  by apply placedPiece_nonzero.
Qed.

Lemma penalty_removes_moved_piece_witness :
  accepted penaltyState 1 (mkMove (mkSquare 5 2) (mkSquare 4 1)) = true ∧
  ∃ next,
    applyMoveWithRules penaltyState (mkMove (mkSquare 5 2) (mkSquare 4 1)) = Some next ∧
    cellAt (board next) 4 1 = Some 0 ∧ turn next = -1.
Proof.
  split; [reflexivity|].
  destruct (penalty_removes_moved_piece penaltyState 1 (mkMove (mkSquare 5 2) (mkSquare 4 1)) eq_refl)
    as (piece & next & lm & _ & Happ & _ & Hturn & H).
  exists next. split; [exact Happ|]. split; [exact (proj1 H)|exact Hturn].
Defined.

(** C2.  [applyMoveWithRules] takes no word from its caller on whether
    the move captures: it lists the captures of the source square on the
    pre-move board, and the move is a capture (a captured square is
    recorded) exactly when its target is the landing square of one of
    them; the jumped square of that capture is the one recorded, it is
    empty in the returned board, and no penalty is applied.  When no
    listed capture lands on the target nothing is recorded. *)
Theorem applier_rederives_capture (st : GameState) (mv : Move) (next : GameState) :
  applyMoveWithRules st mv = Some next →
  let caps := listCapturesForPiece (board st) (sq_r (mv_from mv)) (sq_c (mv_from mv))
                (rules st) in
  ∃ lm,
    lastMove next = Some lm ∧
    (is_Some (lm_captured lm) ↔ ∃ x, x ∈ caps ∧ cap_to x = mv_to mv) ∧
    (∀ x, x ∈ caps → cap_to x = mv_to mv →
       lm_captured lm = Some (cap_over x) ∧
       lm_penaltyRemoved lm = false ∧
       cellAt (board next) (sq_r (cap_over x)) (sq_c (cap_over x)) = Some 0) ∧
    ((∀ x, x ∈ caps → cap_to x ≠ mv_to mv) → lm_captured lm = None).
Proof.
  intros Happ caps.
  destruct (cellAt (board st) (sq_r (mv_from mv)) (sq_c (mv_from mv)))
    as [piece|] eqn:Hpiece; [|by unfold applyMoveWithRules in Happ; rewrite Hpiece in Happ].
  destruct (cellAt (board st) (sq_r (mv_to mv)) (sq_c (mv_to mv)))
    as [tgt|] eqn:Htgt;
    [|by unfold applyMoveWithRules in Happ; rewrite Hpiece, Htgt in Happ].
  destruct (applyMoveWithRules_cells st mv piece tgt Hpiece Htgt)
    as (next' & Happ' & _ & _ & _ & Hlm & Hcells).
  rewrite Happ in Happ'. injection Happ' as <-.
  assert (mv_to mv = mkSquare (sq_r (mv_to mv)) (sq_c (mv_to mv))) as Eto
    by by destruct (mv_to mv).
  eexists. split; [exact Hlm|]. cbn [lm_captured lm_penaltyRemoved]. fold caps in Hlm, Hcells |- *.
  assert (∀ x, x ∈ caps → cap_to x = mv_to mv →
            List.find (landsOn (sq_r (mv_to mv)) (sq_c (mv_to mv))) caps = Some x) as Hfound.
  { intros x Hin Hto. apply find_capture. split; [done|]. by rewrite Hto. }
  split_and!.
  - split.
    + intros [p Hp]. destruct (List.find _ caps) as [x|] eqn:Hfind; [|done].
      apply find_capture in Hfind as [Hin Hto]. exists x. split; [done|]. by rewrite Eto.
    + intros (x & Hin & Hto). rewrite (Hfound x Hin Hto). by eexists.
  - intros x Hin Hto. pose proof (Hfound x Hin Hto) as Hfind.
    rewrite Hfind in Hcells |- *. split_and!; [done| |].
    + unfold penaltyApplies, isCaptureMove.
      rewrite existsb_landsOn. fold caps. rewrite Hfind. cbn. by rewrite !andb_false_r.
    + apply listCapturesForPiece_sound in Hin as (p & _ & _ & Hx0 & (m & Hm & Hne & _)).
      rewrite Hcells. rewrite decide_False.
      * rewrite decide_True; [done|]. cbn. by destruct (cap_over x).
      * intros [= Hr Hc]. rewrite Hto in Hx0. rewrite Hr, Hc in Hx0. congruence.
  - intros Hnone. unfold caps in *.
    rewrite (proj2 (find_capture_None _ _ _ _ _ _)); [done|].
    intros x Hin. rewrite <- Eto. by apply Hnone.
Qed.

Lemma applier_rederives_capture_witness :
  ∃ next lm,
    applyMoveWithRules penaltyState (mkMove (mkSquare 5 2) (mkSquare 3 4)) = Some next ∧
    lastMove next = Some lm ∧
    lm_captured lm = Some (mkSquare 4 3) ∧
    cellAt (board next) 4 3 = Some 0.
Proof.
  destruct (applier_rederives_capture penaltyState (mkMove (mkSquare 5 2) (mkSquare 3 4))
              _ eq_refl) as (lm & Hlm & _ & Hcap & _).
  eexists _, lm. split; [reflexivity|]. split; [exact Hlm|].
  destruct (Hcap (mkCapture (mkSquare 5 2) (mkSquare 4 3) (mkSquare 3 4)))
    as (Hc & _ & H0); [by vm_compute; constructor|reflexivity|].
  split; [exact Hc|exact H0].
Defined.



(** C9.  For an accepted move the returned board is the input board with
    the source square cleared, the jumped square of the matching capture
    (if there is one) cleared, and the destination holding the placed
    piece, or nothing after a penalty; every other cell, and the shape of
    the board, is as before.  The returned state has the [rules] and the
    [winner] of the input state. *)
Theorem applier_frame (st : GameState) (side : Z) (mv : Move) :
  accepted st side mv = true →
  let caps := listCapturesForPiece (board st) (sq_r (mv_from mv)) (sq_c (mv_from mv))
                (rules st) in
  ∃ piece next,
    cellAt (board st) (sq_r (mv_from mv)) (sq_c (mv_from mv)) = Some piece ∧
    applyMoveWithRules st mv = Some next ∧
    rules next = rules st ∧ winner next = winner st ∧
    cellAt (board next) (sq_r (mv_from mv)) (sq_c (mv_from mv)) = Some 0 ∧
    (∀ x, x ∈ caps → cap_to x = mv_to mv →
       cellAt (board next) (sq_r (cap_over x)) (sq_c (cap_over x)) = Some 0) ∧
    cellAt (board next) (sq_r (mv_to mv)) (sq_c (mv_to mv))
      = Some (if penaltyApplies st side mv then 0
              else placedPiece piece side (sq_r (mv_to mv))) ∧
    (∀ r c, mkSquare r c ≠ mv_from mv → mkSquare r c ≠ mv_to mv →
       (∀ x, x ∈ caps → cap_to x = mv_to mv → mkSquare r c ≠ cap_over x) →
       cellAt (board next) r c = cellAt (board st) r c) ∧
    (wfBoard (board st) = true → wfBoard (board next) = true).
Proof.
  intros Hacc caps. pose proof Hacc as (piece & Hpiece & Hside & Hne & Hto & _ & _ & _ & Hft)%accepted_inv.
  destruct (applyMoveWithRules_cells st mv piece 0 Hpiece Hto)
    as (next & Happ & _ & Hw & Hrl & _ & Hcells).
  rewrite Hside in *. fold caps in Hcells.
  assert (mv_from mv = mkSquare (sq_r (mv_from mv)) (sq_c (mv_from mv))) as Efrom
    by by destruct (mv_from mv).
  assert (mv_to mv = mkSquare (sq_r (mv_to mv)) (sq_c (mv_to mv))) as Eto
    by by destruct (mv_to mv).
  exists piece, next. split_and!; try done.
  - rewrite Hcells. rewrite decide_False.
    2:{ intros [= Hr Hc]. apply Hft. rewrite Efrom, Eto. by rewrite Hr, Hc. }
    case_decide; [done|]. by rewrite decide_True.
  - intros x Hin Hto'.
    assert (List.find (landsOn (sq_r (mv_to mv)) (sq_c (mv_to mv))) caps = Some x) as Hfind.
    { apply find_capture. split; [done|]. by rewrite Hto'. }
    apply listCapturesForPiece_sound in Hin as (p & _ & _ & Hx0 & (m & Hm & Hnm & _)).
    rewrite Hcells, Hfind. rewrite decide_False.
    + rewrite decide_True; [done|]. cbn. by destruct (cap_over x).
    + intros [= Hr Hc]. rewrite Hto' in Hx0. rewrite Hr, Hc in Hx0. congruence.
  - rewrite Hcells. by rewrite decide_True.
  - intros r c Hnf Hnt Hno. rewrite Hcells.
    rewrite decide_False by (intros [= Hr Hc]; apply Hnt; rewrite Eto; by rewrite Hr, Hc).
    rewrite decide_False.
    + rewrite decide_False; [done|].
      intros [= Hr Hc]. apply Hnf. rewrite Efrom. by rewrite Hr, Hc.
    + destruct (List.find _ caps) as [x|] eqn:Hfind; [|done].
      apply find_capture in Hfind as [Hin Hto']. cbn. intros [= Hx].
      apply (Hno x Hin); [by rewrite Eto|done].
  - by apply (applyMoveWithRules_wf st mv).
Qed.

Lemma applier_frame_witness :
  ∃ next,
    applyMoveWithRules penaltyState (mkMove (mkSquare 5 2) (mkSquare 3 4)) = Some next ∧
    cellAt (board next) 5 2 = Some 0 ∧
    cellAt (board next) 1 6 = Some 1 ∧
    rules next = initialRules.
Proof.
  destruct (applier_frame penaltyState 1 (mkMove (mkSquare 5 2) (mkSquare 3 4)) eq_refl)
    as (piece & next & _ & Happ & Hrl & _ & Hfrom & _ & _ & Hrest & _).
  exists next. split; [exact Happ|]. split; [exact Hfrom|]. split; [|exact Hrl].
  apply (Hrest 1 6); [discriminate|discriminate|].
  intros x Hx _. vm_compute in Hx.
  apply list_elem_of_singleton in Hx. rewrite Hx. discriminate.
Defined.

(** ** The [makeMove] handler *)

Lemma turn_recordWinner (next : GameState) : turn (recordWinner next) = turn next.
Proof. unfold recordWinner. by destruct (negb _). Qed.

Lemma inRange_inBounds (fr fc tr tc : Z) :
  forallb inRange [fr; fc; tr; tc] = true ↔
  inBounds fr fc = true ∧ inBounds tr tc = true.
Proof.
  cbn. unfold inRange. rewrite !inBounds_spec, !andb_true_iff, !Z.leb_le, !Z.ltb_lt. lia.
Qed.

(** The handler, as one case distinction on the guards. *)
Lemma makeMoveSeated_eq (room : Room) (side : Z) (from to : option SquareP) :
  wfBoard (board (room_state room)) = true → side = 1 ∨ side = -1 →
  makeMoveSeated room side from to
  = match submittedMove from to with
    | Some mv =>
        if accepted (room_state room) side mv then
          match applyMoveWithRules (room_state room) mv with
          | Some next =>
              Returned (Some (mkRoom (recordWinner next)
                                (players_white room) (players_black room)))
                       [EmitState (recordWinner next)]
          | None => Raised
          end
        else Returned (Some room) []
    | None => Returned (Some room) []
    end.
Proof.
  intros Hwf Hside. unfold makeMoveSeated, submittedMove, accepted. cbn zeta.
  destruct (asInteger (optR from)) as [fr|]; [|by repeat case_match].
  destruct (asInteger (optC from)) as [fc|]; [|by repeat case_match].
  destruct (asInteger (optR to)) as [tr|]; [|by repeat case_match].
  destruct (asInteger (optC to)) as [tc|]; [|by repeat case_match].
  cbn [mv_from mv_to sq_r sq_c].
  assert ((side =? 1) || (side =? -1) = true) as ->
    by (destruct Hside as [-> | ->]; done).
  destruct (winner (room_state room) =? 0); cbn [negb andb]; [|done].
  destruct (turn (room_state room) =? side); cbn [negb andb]; [|done].
  destruct (forallb inRange [fr; fc; tr; tc]) eqn:Hrange; cbn [negb andb]; [|done].
  apply inRange_inBounds in Hrange as [Hf Ht].
  destruct (cellAt_inBounds _ _ _ Hwf Hf) as [piece Hpiece].
  destruct (cellAt_inBounds _ _ _ Hwf Ht) as [target Htarget].
  rewrite Hpiece, Htarget. cbn [fmap option_fmap option_map].
  destruct (Z.eqb_spec (sign piece) side) as [Hs|Hs]; cbn [negb].
  2:{ rewrite bool_decide_eq_false_2; [done|]. by intros [=]. }
  rewrite bool_decide_eq_true_2 by by rewrite Hs.
  destruct (Z.eqb_spec target 0) as [->|Ht0]; cbn [negb andb].
  2:{ rewrite bool_decide_eq_false_2; [done|]. by intros [=]. }
  rewrite bool_decide_eq_true_2 by done. cbn [andb].
  destruct (existsb (landsOn tr tc) _), (existsb (moveLandsOn tr tc) _);
    cbn [negb andb orb]; done.
Qed.

Lemma makeMove_eq (room : Room) (socketId : string) (from to : option SquareP) :
  wfBoard (board (room_state room)) = true →
  makeMove (Some room) socketId from to
  = match seatSide room socketId, submittedMove from to with
    | Some side, Some mv =>
        if accepted (room_state room) side mv then
          match applyMoveWithRules (room_state room) mv with
          | Some next =>
              Returned (Some (mkRoom (recordWinner next)
                                (players_white room) (players_black room)))
                       [EmitState (recordWinner next)]
          | None => Raised
          end
        else Returned (Some room) []
    | _, _ => Returned (Some room) []
    end.
Proof.
  intros Hwf. unfold makeMove, seatSide.
  destruct (roleOf room socketId); [by apply makeMoveSeated_eq; auto..|done].
Qed.

Lemma makeMove_accepted (room : Room) (socketId : string) (from to : option SquareP)
    (side : Z) (mv : Move) :
  wfBoard (board (room_state room)) = true →
  seatSide room socketId = Some side → submittedMove from to = Some mv →
  accepted (room_state room) side mv = true →
  ∃ next,
    applyMoveWithRules (room_state room) mv = Some next ∧
    makeMove (Some room) socketId from to
    = Returned (Some (mkRoom (recordWinner next) (players_white room) (players_black room)))
               [EmitState (recordWinner next)].
Proof.
  intros Hwf Hseat Hmv Hacc. rewrite makeMove_eq, Hseat, Hmv, Hacc by done.
  apply accepted_inv in Hacc as (piece & Hpiece & _ & _ & Hto & _).
  destruct (applyMoveWithRules_cells _ mv piece 0 Hpiece Hto) as (next & Happ & _).
  exists next. by rewrite Happ.
Qed.

Lemma makeMove_rejected (room : Room) (socketId : string) (from to : option SquareP) :
  wfBoard (board (room_state room)) = true →
  (∀ side mv, seatSide room socketId = Some side → submittedMove from to = Some mv →
     accepted (room_state room) side mv = false) →
  makeMove (Some room) socketId from to = Returned (Some room) [].
Proof.
  intros Hwf Hrej. rewrite makeMove_eq by done.
  destruct (seatSide room socketId) as [side|]; [|done].
  destruct (submittedMove from to) as [mv|]; [|done].
  by rewrite (Hrej side mv).
Qed.

(** C6.  [applyMoveWithRules] returns a state whose turn is the opposite
    of the input's, capture or not; an accepted submission replaces the
    room's state by one with the opposite turn (recording a winner does
    not touch the turn), and a submission that is not accepted, or that
    finds no room, leaves the state, and so the turn, as it was. *)
Theorem turn_alternation :
  (∀ st mv next, applyMoveWithRules st mv = Some next → turn next = - turn st) ∧
  (∀ room socketId from to side mv,
     wfBoard (board (room_state room)) = true →
     seatSide room socketId = Some side → submittedMove from to = Some mv →
     accepted (room_state room) side mv = true →
     ∃ room',
       makeMove (Some room) socketId from to
       = Returned (Some room') [EmitState (room_state room')] ∧
       turn (room_state room') = - turn (room_state room)) ∧
  (∀ room socketId from to,
     wfBoard (board (room_state room)) = true →
     (∀ side mv, seatSide room socketId = Some side → submittedMove from to = Some mv →
        accepted (room_state room) side mv = false) →
     makeMove (Some room) socketId from to = Returned (Some room) []) ∧
  (∀ socketId from to, makeMove None socketId from to = Returned None []).
Proof.
  split_and!.
  - intros st mv next Happ. unfold applyMoveWithRules in Happ.
    destruct (cellAt _ (sq_r (mv_from mv)) _); [|done].
    destruct (cellAt _ (sq_r (mv_to mv)) _); [|done].
    by injection Happ as <-.
  - intros room socketId from to side mv Hwf Hseat Hmv Hacc.
    destruct (makeMove_accepted room socketId from to side mv Hwf Hseat Hmv Hacc)
      as (next & Happ & ->).
    exists (mkRoom (recordWinner next) (players_white room) (players_black room)).
    split; [reflexivity|]. cbn [room_state]. rewrite turn_recordWinner.
    apply accepted_inv in Hacc as (piece & Hpiece & _ & _ & Hto & _).
    destruct (applyMoveWithRules_cells _ mv piece 0 Hpiece Hto) as (next' & Happ' & Hturn & _).
    congruence.
  - apply makeMove_rejected.
  - done.
Qed.

Lemma turn_alternation_witness :
  ∃ next,
    applyMoveWithRules createInitialState (mkMove (mkSquare 5 0) (mkSquare 4 1)) = Some next ∧
    turn next = -1.
Proof.
  eexists. split; [reflexivity|].
  exact (proj1 turn_alternation createInitialState
           (mkMove (mkSquare 5 0) (mkSquare 4 1)) _ eq_refl).
Defined.

Lemma moveLandsOn_spec (tr tc : Z) (x : Move) :
  moveLandsOn tr tc x = true ↔ mv_to x = mkSquare tr tc.
Proof.
  unfold moveLandsOn. rewrite andb_true_iff, !Z.eqb_eq.
  destruct x as [f [r c]]; cbn. split; [by intros [-> ->]|by intros [= -> ->]].
Qed.



(** ** Terminal states *)

Lemma range8_elem (z : Z) : z ∈ [0; 1; 2; 3; 4; 5; 6; 7] ↔ 0 <= z < 8.
Proof. rewrite !elem_of_cons, elem_of_nil. lia. Qed.

Lemma allSquares_elem (s : Square) :
  s ∈ allSquares ↔ inBounds (sq_r s) (sq_c s) = true.
Proof.
  unfold allSquares. rewrite inBounds_spec, list_elem_of_bind. split.
  - intros (r & (c & ->%list_elem_of_singleton & Hc%range8_elem)%list_elem_of_bind
              & Hr%range8_elem). done.
  - intros [Hr Hc]. exists (sq_r s). split; [|by apply range8_elem].
    apply list_elem_of_bind. exists (sq_c s). split; [|by apply range8_elem].
    apply list_elem_of_singleton. by destruct s.
Qed.

Lemma filter_length_0 {A} (P : A → Prop) `{∀ x, Decision (P x)} (l : list A) :
  length (filter P l) = 0%nat ↔ ∀ x, x ∈ l → ¬ P x.
Proof.
  induction l as [|y l IH].
  - split; [|done]. by intros _ x ?%elem_of_nil.
  - rewrite filter_cons. destruct (decide (P y)) as [Hy|Hy]; cbn.
    + split; [done|]. intros Hall. destruct (Hall y); [by left|done].
    + rewrite IH. split.
      * intros Hall x [->|Hin]%elem_of_cons; [done|by apply Hall].
      * intros Hall x Hin. apply Hall. by right.
Qed.

Lemma existsb_false {A} (f : A → bool) (l : list A) :
  existsb f l = false ↔ ∀ x, x ∈ l → f x = false.
Proof.
  induction l as [|y l IH]; cbn.
  - split; [|done]. by intros _ x ?%elem_of_nil.
  - rewrite orb_false_iff, IH. split.
    + intros [Hy Hall] x [->|Hin]%elem_of_cons; [done|by apply Hall].
    + intros Hall. split; [apply Hall; by left|]. intros x Hin. apply Hall. by right.
Qed.

Lemma countPieces_0 (b : Board) (side : Z) :
  countPieces b side = 0%nat ↔ sideHasNoPiece b side.
Proof.
  unfold countPieces, sideHasNoPiece, signAt. rewrite filter_length_0. split.
  - intros Hall r c Hin. apply (Hall (mkSquare r c)). by apply allSquares_elem.
  - intros Hall s Hin%allSquares_elem. by apply Hall.
Qed.

Lemma nonEmpty_false {A} (l : list A) : nonEmpty l = false ↔ l = [].
Proof. by destruct l. Qed.

Lemma hasAnyLegalMove_false (st : GameState) (side : Z) :
  hasAnyLegalMove st side = false ↔ sideHasNoMove st side.
Proof.
  unfold hasAnyLegalMove, sideHasNoMove, signAt. cbn zeta. rewrite existsb_false. split.
  - intros Hall r c Hin Hs.
    specialize (Hall (mkSquare r c) (proj2 (allSquares_elem (mkSquare r c)) Hin)).
    cbn [sq_r sq_c] in Hall.
    rewrite bool_decide_eq_true_2 in Hall by done. cbn [negb] in Hall.
    apply orb_false_iff in Hall as [H1 H2].
    by rewrite <- !nonEmpty_false.
  - intros Hall s Hin%allSquares_elem.
    destruct (bool_decide_reflect (sign <$> cellAt (board st) (sq_r s) (sq_c s) = Some side))
      as [Hs|Hs]; cbn [negb]; [|done].
    destruct (Hall _ _ Hin Hs) as [-> ->]. done.
Qed.

(** C4, as amended.  [checkWinner] returns Black (-1) for every board
    without a White piece, the empty board included; White (1) for every
    board with a White piece and without a Black piece; both whatever
    the turn.  When both sides have a piece it returns the opponent of
    the side to move if no piece of that side has a capture or a simple
    move, and 0 (the game goes on) otherwise. *)
Theorem checkWinner_spec (st : GameState) :
  (sideHasNoPiece (board st) 1 → checkWinner st = -1) ∧
  (¬ sideHasNoPiece (board st) 1 → sideHasNoPiece (board st) (-1) → checkWinner st = 1) ∧
  (¬ sideHasNoPiece (board st) 1 → ¬ sideHasNoPiece (board st) (-1) →
     sideHasNoMove st (turn st) → checkWinner st = - turn st) ∧
  (¬ sideHasNoPiece (board st) 1 → ¬ sideHasNoPiece (board st) (-1) →
     ¬ sideHasNoMove st (turn st) → checkWinner st = 0).
Proof.
  unfold checkWinner. cbn zeta.
  destruct (Nat.eqb_spec (countPieces (board st) 1) 0) as [Hw|Hw];
    rewrite countPieces_0 in Hw.
  { split_and!; try done. }
  destruct (Nat.eqb_spec (countPieces (board st) (-1)) 0) as [Hb|Hb];
    rewrite countPieces_0 in Hb.
  { split_and!; try done. }
  destruct (hasAnyLegalMove st (turn st)) eqn:Hmove; cbn [negb].
  - split_and!; try done. intros _ _ Hno%hasAnyLegalMove_false. congruence.
  - apply hasAnyLegalMove_false in Hmove. split_and!; try done.
Qed.

Lemma checkWinner_spec_witness :
  checkWinner createInitialState = 0.
Proof.
  apply (checkWinner_spec createInitialState).
  - intros H. by apply (H 5 0).
  - intros H. by apply (H 0 1).
  - intros H. by destruct (H 5 0 eq_refl eq_refl) as [_ ?].
Defined.

(** C4, counterexample.  The empty board has no Black piece, and
    [checkWinner] returns Black, not White, on it. *)
Lemma checkWinner_empty_board_counterexample :
  ¬ (∀ st, sideHasNoPiece (board st) (-1) → checkWinner st = 1).
Proof.
  intros H.
  specialize (H (mkState (replicate 8 (replicate 8 0)) 1 0 None initialRules)).
  assert (sideHasNoPiece (replicate 8 (replicate 8 0)) (-1)) as Hnone.
  { apply countPieces_0. reflexivity. }
  specialize (H Hnone). vm_compute in H. discriminate.
Qed.

(** ** Rules records *)

Lemma wfRules_normalizeRules (p : Rules) : wfRules (normalizeRules p).
Proof.
  unfold wfRules, normalizeRules. cbn. split_and!; try done.
  destruct (strictEqStr _ _); auto.
Qed.

Lemma wfRules_initial : wfRules (rules createInitialState).
Proof. unfold wfRules. cbn. split_and!; auto. Qed.

Lemma rules_recordWinner (next : GameState) : rules (recordWinner next) = rules next.
Proof. unfold recordWinner. by destruct (negb _). Qed.

Lemma board_recordWinner (next : GameState) : board (recordWinner next) = board next.
Proof. unfold recordWinner. by destruct (negb _). Qed.

Lemma applyMoveWithRules_rules (st : GameState) (mv : Move) (next : GameState) :
  applyMoveWithRules st mv = Some next → rules next = rules st.
Proof.
  unfold applyMoveWithRules. intros Happ.
  destruct (cellAt _ (sq_r (mv_from mv)) _); [|done].
  destruct (cellAt _ (sq_r (mv_to mv)) _); [|done].
  by injection Happ as <-.
Qed.

Lemma stateInv_initial : stateInv createInitialState.
Proof. split; [reflexivity|apply wfRules_initial]. Qed.

Lemma reachable_stateInv (rooms : option Room) :
  reachable rooms → ∀ room, rooms = Some room → stateInv (room_state room).
Proof.
  induction 1 as [|rooms white black _ IH|room0 white black _ IH
                 |rooms socketId payload rooms' emits _ IH Hup
                 |rooms socketId from to rooms' emits _ IH Hmv
                 |rooms socketId rooms' emits _ IH Hreset];
    intros room Hroom.
  - done.
  - injection Hroom as <-. cbn [room_state].
    destruct rooms as [room0|]; cbn [getRoom room_state];
      [exact (IH room0 eq_refl)|apply stateInv_initial].
  - injection Hroom as <-. cbn [room_state]. exact (IH room0 eq_refl).
  - unfold updateRules in Hup. destruct rooms as [room0|]; [|by simplify_eq].
    specialize (IH room0 eq_refl).
    destruct (roleOf room0 socketId); [|by simplify_eq; apply IH..].
    destruct payload as [p|]; [|done]. simplify_eq. cbn [room_state].
    split; [apply IH|apply wfRules_normalizeRules].
  - destruct rooms as [room0|]; [|by simplify_eq].
    specialize (IH room0 eq_refl). destruct IH as [Hwf Hrl].
    rewrite makeMove_eq in Hmv by done.
    destruct (seatSide room0 socketId) as [side|]; [|by simplify_eq].
    destruct (submittedMove from to) as [mv|]; [|by simplify_eq].
    destruct (accepted (room_state room0) side mv); [|by simplify_eq].
    destruct (applyMoveWithRules (room_state room0) mv) as [next|] eqn:Happ; [|done].
    simplify_eq. cbn [room_state].
    split.
    + rewrite board_recordWinner.
      by apply (applyMoveWithRules_wf (room_state room0) mv).
    + rewrite rules_recordWinner.
      by rewrite (applyMoveWithRules_rules (room_state room0) mv next).
  - unfold resetGame in Hreset. destruct rooms as [room0|]; [|by simplify_eq].
    specialize (IH room0 eq_refl).
    destruct (roleOf room0 socketId); simplify_eq; cbn [room_state];
      by (apply stateInv_initial || apply IH).
Qed.

(** C10.  The rules record of every state the server ever stores has
    the five switches as booleans and [multiCapture] equal to "optional"
    or to "forced".  The record of the initial state is such a record;
    [updateRules], when the White player sends it with a payload, stores
    the payload normalized (each switch coerced with [!!], [multiCapture]
    "forced" only when it is that string, "optional" otherwise) in place
    of the whole previous record, whatever that was, and touches nothing
    else in the state; from any other sender it changes nothing. *)
Theorem rules_well_formed :
  (∀ rooms room, reachable rooms → rooms = Some room → wfRules (rules (room_state room))) ∧
  wfRules (rules createInitialState) ∧
  (∀ p, wfRules (normalizeRules p) ∧
        (multiCapture p ≠ JStr "forced" → multiCapture (normalizeRules p) = JStr "optional")) ∧
  (∀ room socketId p,
     roleOf room socketId = RWhite →
     ∃ st', updateRules (Some room) socketId (Some p)
            = Returned (Some (mkRoom st' (players_white room) (players_black room)))
                       [EmitState st'] ∧
            rules st' = normalizeRules p ∧
            board st' = board (room_state room) ∧ turn st' = turn (room_state room) ∧
            winner st' = winner (room_state room) ∧
            lastMove st' = lastMove (room_state room)) ∧
  (∀ room socketId payload,
     roleOf room socketId ≠ RWhite →
     updateRules (Some room) socketId payload = Returned (Some room) []).
Proof.
  split_and!.
  - intros rooms room Hreach Hroom. by apply (reachable_stateInv rooms Hreach room).
  - apply wfRules_initial.
  - intros p. split; [apply wfRules_normalizeRules|].
    intros Hne. cbn. destruct (multiCapture p) as [| |?|?| | |s|]; try done.
    cbn. case_bool_decide; [congruence|done].
  - intros room socketId p Hrole. unfold updateRules. rewrite Hrole.
    eexists. split; [reflexivity|]. done.
  - intros room socketId payload Hrole. unfold updateRules.
    by destruct (roleOf room socketId).
Qed.

Lemma rules_well_formed_witness :
  wfRules (normalizeRules oddPayload).
Proof.
  apply (proj1 rules_well_formed
           (Some (seatedRoom (setRules createInitialState (normalizeRules oddPayload))))
           (seatedRoom (setRules createInitialState (normalizeRules oddPayload))));
    [|reflexivity].
  apply (reach_updateRules (Some (seatedRoom createInitialState)) "w" (Some oddPayload)
           _ [EmitState (setRules createInitialState (normalizeRules oddPayload))]);
    [|reflexivity].
  apply (reach_joinRoom None (Some "w"%string) (Some "b"%string)). apply reach_start.
Defined.

(** * Further properties of the code *)

(** ** The simple-move generators *)

Lemma slideLoop_elem (b : Board) (r c dr dc : Z) (n : nat) (rr cc : Z) (x : Move) :
  x ∈ slideLoop n b r c dr dc rr cc ↔
  ∃ k, 0 <= k < Z.of_nat n ∧
       (∀ i, 0 <= i <= k → rayClear b rr cc dr dc i) ∧
       x = mkMove (mkSquare r c) (raySquare rr cc dr dc k).
Proof.
  revert rr cc. induction n as [|n IH]; intros rr cc.
  { simpl. split; [by intros ?%elem_of_nil|]. intros (k & ? & _). lia. }
  cbn [slideLoop].
  destruct (inBounds rr cc && isEmptyAt b rr cc) eqn:Hhere.
  - apply andb_true_iff in Hhere as [Hin Hempty%isEmptyAt_spec].
    rewrite elem_of_cons, IH. split.
    + intros [->|(k & Hk & Hrun & ->)].
      * exists 0. split; [lia|]. split.
        -- intros i Hi. assert (i = 0) as -> by lia. by apply rayClear_0.
        -- unfold raySquare. do 2 f_equal; lia.
      * exists (k + 1). split; [lia|]. split.
        -- intros i Hi. destruct (decide (i = 0)) as [->|Hi0].
           ++ by apply rayClear_0.
           ++ apply (proj1 (rayClear_run_shift b rr cc dr dc 0 k) Hrun). lia.
        -- by rewrite raySquare_shift.
    + intros (k & Hk & Hrun & ->).
      destruct (decide (k = 0)) as [->|Hk0].
      * left. unfold raySquare. do 2 f_equal; lia.
      * right. exists (k - 1). split; [lia|]. split.
        -- apply rayClear_run_shift. intros i Hi. apply Hrun. lia.
        -- rewrite raySquare_shift. by replace (k - 1 + 1) with k by lia.
  - split; [by intros ?%elem_of_nil|]. intros (k & Hk & Hrun & _).
    destruct (Hrun 0) as [Hin Hc]; [lia|].
    rewrite !Z.mul_0_l, !Z.add_0_r in Hin, Hc.
    apply isEmptyAt_spec in Hc. rewrite Hin, Hc in Hhere. done.
Qed.

(** The flying branch of [listKingMoves], ray by ray, from the king's own
    square. *)
Lemma flying_move_ray_elem (b : Board) (r c dr dc : Z) (x : Move) :
  dr = -1 ∨ dr = 1 →
  x ∈ slideLoop 8 b r c dr dc (r + dr) (c + dc) ↔
  ∃ k, 1 <= k ∧ (∀ i, 1 <= i <= k → rayClear b r c dr dc i) ∧
       x = mkMove (mkSquare r c) (raySquare r c dr dc k).
Proof.
  intros Hdr. rewrite slideLoop_elem. split.
  - intros (k & Hk & Hrun & ->). exists (k + 1). split_and!; [lia| |].
    + intros i Hi. apply (proj1 (rayClear_run_shift b r c dr dc 0 k) Hrun). lia.
    + by rewrite raySquare_shift.
  - intros (k & Hk & Hrun & ->). exists (k - 1).
    assert (k <= 8) as Hk8.
    { destruct (Hrun 1) as [[H1 _]%inBounds_spec _]; [lia|].
      destruct (Hrun k) as [[H2 _]%inBounds_spec _]; [lia|]. nia. }
    split_and!; try lia.
    + apply rayClear_run_shift. intros i Hi. apply Hrun. lia.
    + rewrite raySquare_shift. by replace (k - 1 + 1) with k by lia.
Qed.

Lemma step_move_elem (b : Board) (r c dr dc : Z) (x : Move) :
  x ∈ (if inBounds (r + dr) (c + dc) && isEmptyAt b (r + dr) (c + dc)
       then [mkMove (mkSquare r c) (mkSquare (r + dr) (c + dc))] else []) ↔
  rayClear b r c dr dc 1 ∧ x = mkMove (mkSquare r c) (raySquare r c dr dc 1).
Proof.
  unfold rayClear, raySquare. rewrite !Z.mul_1_l.
  destruct (inBounds (r + dr) (c + dc)) eqn:Hin; cbn [andb].
  2:{ split; [by intros ?%elem_of_nil|]. by intros [[? _] _]. }
  destruct (isEmptyAt b (r + dr) (c + dc)) eqn:Hem.
  - apply isEmptyAt_spec in Hem. rewrite list_elem_of_singleton. by split; [intros ->|intros [_ ->]].
  - split; [by intros ?%elem_of_nil|]. intros [[_ H0%isEmptyAt_spec] _]. congruence.
Qed.

Lemma listManMoves_elem (b : Board) (r c side : Z) (x : Move) :
  x ∈ listManMoves b r c side ↔
  ∃ dc, (dc = -1 ∨ dc = 1) ∧ rayClear b r c (forwardDir side) dc 1 ∧
        x = mkMove (mkSquare r c) (raySquare r c (forwardDir side) dc 1).
Proof.
  unfold listManMoves. cbn zeta. rewrite list_elem_of_bind. split.
  - intros (dc & Hx & Hdc%dir_elem). apply step_move_elem in Hx. by exists dc.
  - intros (dc & Hdc & Hx). exists dc. split; [by apply step_move_elem|by apply dir_elem].
Qed.

Lemma listKingMoves_elem (b : Board) (r c : Z) (flying : bool) (x : Move) :
  x ∈ listKingMoves b r c flying ↔
  ∃ dr dc k, (dr = -1 ∨ dr = 1) ∧ (dc = -1 ∨ dc = 1) ∧ 1 <= k ∧
             (flying = false → k = 1) ∧
             (∀ i, 1 <= i <= k → rayClear b r c dr dc i) ∧
             x = mkMove (mkSquare r c) (raySquare r c dr dc k).
Proof.
  unfold listKingMoves. destruct flying; cbn [negb]; rewrite list_elem_of_bind.
  - split.
    + intros (dr & Hx & Hdr%dir_elem).
      apply list_elem_of_bind in Hx as (dc & Hx & Hdc%dir_elem).
      apply flying_move_ray_elem in Hx as (k & Hk & Hrun & ->); [|done].
      exists dr, dc, k. by split_and!.
    + intros (dr & dc & k & Hdr & Hdc & Hk & _ & Hrun & ->).
      exists dr. split; [|by apply dir_elem].
      apply list_elem_of_bind. exists dc. split; [|by apply dir_elem].
      apply flying_move_ray_elem; [done|]. by exists k.
  - split.
    + intros (dr & Hx & Hdr%dir_elem).
      apply list_elem_of_bind in Hx as (dc & Hx & Hdc%dir_elem).
      cbn zeta in Hx. apply step_move_elem in Hx as [Hclear ->].
      exists dr, dc, 1. split_and!; try done.
      intros i Hi. by assert (i = 1) as -> by lia.
    + intros (dr & dc & k & Hdr & Hdc & Hk & Hk1 & Hrun & ->).
      rewrite (Hk1 eq_refl) in *.
      exists dr. split; [|by apply dir_elem].
      apply list_elem_of_bind. exists dc. split; [|by apply dir_elem].
      cbn zeta. apply step_move_elem. split; [apply Hrun; lia|done].
Qed.

Lemma listMovesForPiece_elem (b : Board) (r c : Z) (rl : Rules) (x : Move) :
  x ∈ listMovesForPiece b r c rl ↔
  ∃ piece, cellAt b r c = Some piece ∧ piece ≠ 0 ∧
    x ∈ (if isKing piece
         then listKingMoves b r c (truthy (flyingKingMove rl))
         else listManMoves b r c (sign piece)).
Proof.
  unfold listMovesForPiece. destruct (cellAt b r c) as [piece|].
  2:{ split; [by intros ?%elem_of_nil|]. by intros (? & ? & _). }
  destruct (Z.eqb_spec piece 0) as [->|Hne]; cbn zeta.
  - split; [by intros ?%elem_of_nil|]. by intros (? & [= <-] & ? & _).
  - split; [by exists piece|]. by intros (? & [= <-] & _ & ?).
Qed.

Lemma listMovesForPiece_slides (b : Board) (r c : Z) (rl : Rules) (x : Move) :
  x ∈ listMovesForPiece b r c rl → ∃ k, slidesTo b r c k x.
Proof.
  intros (piece & _ & _ & Hx)%listMovesForPiece_elem.
  destruct (isKing piece).
  - apply listKingMoves_elem in Hx as (dr & dc & k & Hdr & Hdc & Hk & _ & Hrun & ->).
    exists k, dr, dc. by split_and!.
  - apply listManMoves_elem in Hx as (dc & Hdc & Hclear & ->).
    exists 1, (forwardDir (sign piece)), dc. split_and!; try done.
    + apply forwardDir_dir.
    + intros i Hi. by assert (i = 1) as -> by lia.
Qed.

Lemma slideLoop_NoDup (b : Board) (r c dr dc : Z) (n : nat) :
  dr = -1 ∨ dr = 1 → ∀ rr cc, NoDup (slideLoop n b r c dr dc rr cc).
Proof.
  intros Hdr. induction n as [|n IH]; intros rr cc; [constructor|].
  cbn [slideLoop]. destruct (_ && _); [|constructor].
  constructor; [|apply IH].
  intros (k & Hk & _ & Heq)%slideLoop_elem.
  unfold raySquare in Heq. injection Heq as Hr _.
  destruct Hdr; subst dr; lia.
Qed.

Lemma listKingMoves_flying_NoDup (b : Board) (r c : Z) :
  NoDup (listKingMoves b r c true).
Proof.
  unfold listKingMoves. cbn [negb].
  assert (NoDup [-1; 1]) as Hdirs.
  { repeat constructor; rewrite ?elem_of_cons, ?elem_of_nil; lia. }
  assert (∀ dr dc x, dr ∈ [-1; 1] → dc ∈ [-1; 1] →
            x ∈ slideLoop 8 b r c dr dc (r + dr) (c + dc) →
            ∃ k, 1 <= k ∧ mv_to x = raySquare r c dr dc k) as Hto.
  { intros dr dc x Hdr%dir_elem Hdc%dir_elem Hx.
    apply flying_move_ray_elem in Hx as (k & Hk & _ & ->); [|done].
    by exists k. }
  apply NoDup_bind; [| |done].
  - intros dr dr' x Hdr Hdr' Hx Hx'.
    apply list_elem_of_bind in Hx as (dc & Hx & Hdc).
    apply list_elem_of_bind in Hx' as (dc' & Hx' & Hdc').
    destruct (Hto _ _ _ Hdr Hdc Hx) as (k & Hk & Hxk).
    destruct (Hto _ _ _ Hdr' Hdc' Hx') as (k' & Hk' & Hxk').
    rewrite Hxk in Hxk'. unfold raySquare in Hxk'. injection Hxk' as Hr _.
    apply dir_elem in Hdr, Hdr'. destruct Hdr, Hdr'; subst; lia.
  - intros dr Hdr. apply NoDup_bind; [| |done].
    + intros dc dc' x Hdc Hdc' Hx Hx'.
      destruct (Hto _ _ _ Hdr Hdc Hx) as (k & Hk & Hxk).
      destruct (Hto _ _ _ Hdr Hdc' Hx') as (k' & Hk' & Hxk').
      rewrite Hxk in Hxk'. unfold raySquare in Hxk'. injection Hxk' as _ Hc.
      apply dir_elem in Hdc, Hdc'. destruct Hdc, Hdc'; subst; lia.
    + intros dc _. apply slideLoop_NoDup. by apply dir_elem.
Qed.

(** X1.  A man's simple moves do not depend on the rules: whatever the
    rule switches, a man on [(r, c)] moves one step to the row ahead of
    it (row [r - 1] for White, [r + 1] for Black), to either neighbouring
    column, when that square is on the board and empty, and nowhere
    else. *)
Theorem man_moves_one_step_forward (b : Board) (r c piece : Z) (rl : Rules) :
  cellAt b r c = Some piece → piece ≠ 0 → isKing piece = false →
  ∀ x, x ∈ listMovesForPiece b r c rl ↔
       ∃ dc, (dc = -1 ∨ dc = 1) ∧
             inBounds (r + (if 0 <? piece then -1 else 1)) (c + dc) = true ∧
             cellAt b (r + (if 0 <? piece then -1 else 1)) (c + dc) = Some 0 ∧
             x = mkMove (mkSquare r c)
                   (mkSquare (r + (if 0 <? piece then -1 else 1)) (c + dc)).
Proof.
  intros Hpiece Hne Hman x.
  assert (forwardDir (sign piece) = if 0 <? piece then -1 else 1) as Hfd.
  { unfold forwardDir, sign. destruct (Z.eqb_spec piece 0); [done|].
    by destruct (0 <? piece). }
  rewrite listMovesForPiece_elem. split.
  - intros (p & Hp & _ & Hx). rewrite Hpiece in Hp. injection Hp as <-.
    rewrite Hman in Hx. apply listManMoves_elem in Hx as (dc & Hdc & [Hin H0] & ->).
    rewrite Hfd, !Z.mul_1_l in Hin, H0. exists dc. split_and!; try done.
    unfold raySquare. by rewrite Hfd, !Z.mul_1_l.
  - intros (dc & Hdc & Hin & H0 & ->). exists piece. split_and!; try done.
    rewrite Hman. apply listManMoves_elem. exists dc. split_and!; try done.
    + unfold rayClear. by rewrite Hfd, !Z.mul_1_l.
    + unfold raySquare. by rewrite Hfd, !Z.mul_1_l.
Qed.

Lemma man_moves_one_step_forward_witness :
  mkMove (mkSquare 5 2) (mkSquare 4 1)
  ∈ listMovesForPiece (board penaltyState) 5 2 (normalizeRules oddPayload).
Proof.
  apply (man_moves_one_step_forward (board penaltyState) 5 2 1 (normalizeRules oddPayload)
           eq_refl); [discriminate|reflexivity|].
  exists (-1). split_and!; [by left|reflexivity..].
Defined.

(** X2.  A flying king slides: its simple moves are exactly the squares
    of its four diagonals that are reached over empty squares only, so
    with a square every square before it on the ray is a destination
    too; no move is listed twice. *)
Theorem flying_king_moves_spec (b : Board) (r c : Z) :
  (∀ x, x ∈ listKingMoves b r c true ↔
     ∃ dr dc k, (dr = -1 ∨ dr = 1) ∧ (dc = -1 ∨ dc = 1) ∧ 1 <= k ∧
                (∀ i, 1 <= i <= k → rayClear b r c dr dc i) ∧
                x = mkMove (mkSquare r c) (raySquare r c dr dc k)) ∧
  (∀ dr dc k i, (dr = -1 ∨ dr = 1) → (dc = -1 ∨ dc = 1) → 1 <= i <= k →
     mkMove (mkSquare r c) (raySquare r c dr dc k) ∈ listKingMoves b r c true →
     mkMove (mkSquare r c) (raySquare r c dr dc i) ∈ listKingMoves b r c true) ∧
  NoDup (listKingMoves b r c true).
Proof.
  assert (∀ x, x ∈ listKingMoves b r c true ↔
     ∃ dr dc k, (dr = -1 ∨ dr = 1) ∧ (dc = -1 ∨ dc = 1) ∧ 1 <= k ∧
                (∀ i, 1 <= i <= k → rayClear b r c dr dc i) ∧
                x = mkMove (mkSquare r c) (raySquare r c dr dc k)) as Hspec.
  { intros x. rewrite listKingMoves_elem. split.
    - intros (dr & dc & k & Hdr & Hdc & Hk & _ & Hrun & ->). by exists dr, dc, k.
    - intros (dr & dc & k & Hdr & Hdc & Hk & Hrun & ->). exists dr, dc, k.
      by split_and!. }
  split_and!; [done| |apply listKingMoves_flying_NoDup].
  intros dr dc k i Hdr Hdc Hik (dr' & dc' & k' & Hdr' & Hdc' & Hk' & Hrun & Heq)%Hspec.
  unfold raySquare in Heq. injection Heq as Hr Hc.
  assert (dr' = dr ∧ k' = k) as [-> ->] by (destruct Hdr, Hdr'; subst; lia).
  assert (dc' = dc) as -> by (destruct Hdc, Hdc'; subst; lia).
  apply Hspec. exists dr, dc, i. split_and!; try done; [lia|].
  intros i' Hi'. apply Hrun. lia.
Qed.

Lemma flying_king_moves_spec_witness :
  mkMove (mkSquare 7 0) (raySquare 7 0 (-1) 1 1)
  ∈ listKingMoves (replicate 8 (replicate 8 0)) 7 0 true.
Proof.
  apply (proj1 (proj2 (flying_king_moves_spec (replicate 8 (replicate 8 0)) 7 0))
           (-1) 1 7 1); [by left|by right|lia|].
  vm_compute. do 6 constructor 2. constructor 1.
Defined.

(** X3.  Turning [flyingKingMove] on takes no move away from a king:
    every one-step move is among the flying moves; and turning
    [menBackwardCapture] on takes no capture away from a man. *)
Theorem flags_only_add_options (b : Board) (r c side : Z) :
  listKingMoves b r c false ⊆ listKingMoves b r c true ∧
  listManCaptures b r c side false ⊆ listManCaptures b r c side true.
Proof.
  split.
  - intros x (dr & dc & k & Hdr & Hdc & Hk & Hk1 & Hrun & ->)%listKingMoves_elem.
    apply listKingMoves_elem. exists dr, dc, k. by split_and!.
  - intros x (dr & dc & Hfd & Hdc & Hx)%listManCaptures_elem.
    apply listManCaptures_elem. exists dr, dc. split_and!; try done.
    subst dr. apply forwardDir_dir.
Qed.

(** X4.  No square is both the landing square of a capture and the
    destination of a simple move of the same piece: of the handler's
    [isCap] and [isMove] at most one is true, whatever the target. *)
Theorem capture_and_move_targets_disjoint (b : Board) (r c : Z) (rl : Rules) (tr tc : Z) :
  existsb (landsOn tr tc) (listCapturesForPiece b r c rl)
  && existsb (moveLandsOn tr tc) (listMovesForPiece b r c rl) = false.
Proof.
  destruct (existsb (landsOn tr tc) _) eqn:Hcap; [|done].
  destruct (existsb (moveLandsOn tr tc) _) eqn:Hmove; [exfalso|done].
  apply existsb_exists in Hcap as (x & Hx%list_elem_of_In & Hxto%landsOn_spec).
  apply existsb_exists in Hmove as (m & Hm%list_elem_of_In & Hmto%moveLandsOn_spec).
  apply listCapturesForPiece_jumps in Hx
    as (dr & dc & j & k & Hdr & Hdc & Hjk & _ & (p & Hp & Hne) & ->).
  apply listMovesForPiece_slides in Hm
    as (k' & dr' & dc' & Hdr' & Hdc' & Hk' & Hrun & ->).
  cbn in Hxto, Hmto. rewrite <- Hmto in Hxto.
  unfold raySquare in Hxto. injection Hxto as Hr Hc.
  assert (dr = dr' ∧ k = k') as [<- <-] by (destruct Hdr, Hdr'; subst; lia).
  assert (dc = dc') as <- by (destruct Hdc, Hdc'; subst; lia).
  destruct (Hrun j) as [_ H0]; [lia|]. congruence.
Qed.

Lemma anyCaptureAvailable_true (b : Board) (side : Z) (rl : Rules) :
  anyCaptureAvailable b side rl = true ↔
  ∃ r c, inBounds r c = true ∧ sign <$> cellAt b r c = Some side ∧
         listCapturesForPiece b r c rl ≠ [].
Proof.
  unfold anyCaptureAvailable, signAt. rewrite existsb_exists. split.
  - intros (s & Hin%list_elem_of_In%allSquares_elem & Hs).
    apply andb_true_iff in Hs as [Hsign%bool_decide_eq_true Hcaps].
    exists (sq_r s), (sq_c s). split_and!; try done.
    intros Hnil. rewrite Hnil in Hcaps. done.
  - intros (r & c & Hin & Hsign & Hcaps). exists (mkSquare r c). split.
    + apply list_elem_of_In, allSquares_elem. done.
    + cbn [sq_r sq_c]. rewrite bool_decide_eq_true_2 by done.
      by destruct (listCapturesForPiece _ _ _ _).
Qed.

(** X5.  [anyCaptureAvailable] is true exactly when some square of the
    board holds a piece of the side that has a capture, and then
    [hasAnyLegalMove] is true for that side as well: a side that can
    capture is never stalemated. *)
Theorem anyCaptureAvailable_spec (st : GameState) (side : Z) :
  (anyCaptureAvailable (board st) side (rules st) = true ↔
   ∃ r c, inBounds r c = true ∧ sign <$> cellAt (board st) r c = Some side ∧
          listCapturesForPiece (board st) r c (rules st) ≠ []) ∧
  (anyCaptureAvailable (board st) side (rules st) = true →
   hasAnyLegalMove st side = true).
Proof.
  split; [apply anyCaptureAvailable_true|].
  intros (r & c & Hin & Hsign & Hcaps)%anyCaptureAvailable_true.
  destruct (hasAnyLegalMove st side) eqn:Hmove; [done|].
  apply hasAnyLegalMove_false in Hmove. by destruct (Hmove r c Hin Hsign) as [? _].
Qed.

Lemma anyCaptureAvailable_spec_witness :
  hasAnyLegalMove penaltyState 1 = true.
Proof.
  apply (proj2 (anyCaptureAvailable_spec penaltyState 1)). reflexivity.
Defined.

(** X6.  On an 8x8 board turning [flyingKingCapture] on takes no capture
    away from a king: every two-step capture is among the flying
    captures. *)
Theorem short_king_captures_are_flying (b : Board) (r c side : Z) :
  wfBoard b = true →
  listKingCaptures b r c side false ⊆ listKingCaptures b r c side true.
Proof.
  intros Hwf x (dr & dc & Hdr & Hdc & Hx)%listKingCaptures_elem.
  apply shortJump_elem in Hx as (Hin & (m & Hm & Hne & Hs) & H0 & ->).
  apply listKingCaptures_elem. exists dr, dc. split_and!; [done..|].
  apply flying_ray_elem; [done|]. exists 1, 2.
  assert (inBounds (r + 1 * dr) (c + 1 * dc) = true) as Hin1.
  { rewrite !Z.mul_1_l. apply wfBoard_rows in Hwf as [Hlen Hrows].
    unfold cellAt in Hm. destruct (nthZ b (r + dr)) as [row|] eqn:Hrow; [|done].
    assert (row ∈ b) as Hmem.
    { unfold nthZ in Hrow. destruct (0 <=? r + dr); [|done].
      by eapply list_elem_of_lookup_2. }
    apply nthZ_Some_range in Hrow, Hm. rewrite (Hrows row Hmem) in Hm.
    apply inBounds_spec. lia. }
  split_and!; try done; try lia.
  - split; [done|]. exists m. by rewrite !Z.mul_1_l.
  - intros i Hi. assert (i = 2) as -> by lia. by split.
  - unfold raySquare. by rewrite !Z.mul_1_l.
Qed.

Lemma short_king_captures_are_flying_witness :
  listKingCaptures twoOnRayBoard 7 0 1 false ⊆ listKingCaptures twoOnRayBoard 7 0 1 true.
Proof. apply short_king_captures_are_flying. reflexivity. Defined.

(** ** Counting pieces *)

Lemma NoDup_allSquares : NoDup allSquares.
Proof. apply (bool_decide_unpack _). by vm_compute. Qed.

(** Changing a predicate at one element of a duplicate-free list changes
    the count by that element only. *)
Lemma filter_length_change {A} (P Q : A → Prop)
    `{∀ x, Decision (P x)} `{∀ x, Decision (Q x)} (l : list A) (s : A) :
  NoDup l → s ∈ l → (∀ x, x ≠ s → (P x ↔ Q x)) →
  Z.of_nat (length (filter Q l))
  = Z.of_nat (length (filter P l))
    - (if decide (P s) then 1 else 0) + (if decide (Q s) then 1 else 0).
Proof.
  intros Hnd Hin Hagree.
  assert (∀ k : list A, s ∉ k → length (filter Q k) = length (filter P k)) as Hout.
  { induction k as [|y k IH]; intros Hs; [done|].
    rewrite !filter_cons.
    assert (y ≠ s) as Hy by (intros ->; apply Hs; by left).
    assert (s ∉ k) as Hk by (intros ?; apply Hs; by right).
    specialize (Hagree y Hy).
    destruct (decide (P y)), (decide (Q y)); cbn; rewrite ?IH; tauto. }
  induction Hnd as [|y l Hy Hnd IH]; [by apply elem_of_nil in Hin|].
  rewrite !filter_cons. apply elem_of_cons in Hin as [->|Hin].
  - pose proof (Hout l Hy) as E.
    destruct (decide (P y)), (decide (Q y)); cbn [length]; lia.
  - assert (y ≠ s) as Hys by (intros ->; done).
    specialize (IH Hin). specialize (Hagree y Hys).
    destruct (decide (P y)), (decide (Q y)); cbn [length]; try tauto; lia.
Qed.

Lemma countPieces_setCell (b : Board) (r c v old side : Z) :
  cellAt b r c = Some old → inBounds r c = true →
  Z.of_nat (countPieces (setCell b r c v) side)
  = Z.of_nat (countPieces b side)
    - (if sign old =? side then 1 else 0) + (if sign v =? side then 1 else 0).
Proof.
  intros Hold Hin. unfold countPieces.
  rewrite (filter_length_change (λ s, signAt b s = Some side)
             (λ s, signAt (setCell b r c v) s = Some side) allSquares (mkSquare r c)).
  - unfold signAt. cbn [sq_r sq_c].
    rewrite cellAt_setCell_eq by by eexists. rewrite Hold.
    cbn [fmap option_fmap option_map].
    destruct (Z.eqb_spec (sign old) side), (Z.eqb_spec (sign v) side);
      repeat case_decide; simplify_eq; first [lia | congruence].
  - apply NoDup_allSquares.
  - by apply allSquares_elem.
  - intros [r' c'] Hne. unfold signAt. cbn [sq_r sq_c].
    rewrite cellAt_setCell_ne; [done|]. intros [= -> ->]. done.
Qed.

Lemma accepted_inBounds (st : GameState) (side : Z) (mv : Move) :
  accepted st side mv = true →
  inBounds (sq_r (mv_from mv)) (sq_c (mv_from mv)) = true ∧
  inBounds (sq_r (mv_to mv)) (sq_c (mv_to mv)) = true.
Proof.
  unfold accepted. cbn zeta. rewrite !andb_true_iff.
  intros [[[[_ Hrange] _] _] _]. by apply inRange_inBounds.
Qed.

(** The jumped square lies between the source and the landing square. *)
Lemma capture_over_inBounds (b : Board) (r c : Z) (rl : Rules) (x : Capture) :
  x ∈ listCapturesForPiece b r c rl → inBounds r c = true →
  inBounds (sq_r (cap_to x)) (sq_c (cap_to x)) = true →
  inBounds (sq_r (cap_over x)) (sq_c (cap_over x)) = true.
Proof.
  intros (dr & dc & j & k & Hdr & Hdc & Hjk & _ & _ & ->)%listCapturesForPiece_jumps.
  cbn. rewrite !inBounds_spec. destruct Hdr, Hdc; subst; nia.
Qed.

Lemma sign_placedPiece (piece tr : Z) :
  piece ≠ 0 → sign (placedPiece piece (sign piece) tr) = sign piece.
Proof.
  intros Hne. unfold placedPiece.
  destruct (isKing piece); cbn [negb]; [done|]. cbn zeta.
  destruct (sign_cases piece) as [[? ?]|[[? Hs]|[? Hs]]]; [done|..]; rewrite Hs.
  - cbn. by destruct (tr =? 0).
  - cbn. by destruct (tr =? 7).
Qed.

(** The counts after an accepted move, step by step along the writes of
    the applier. *)
Lemma applied_counts (st : GameState) (side : Z) (mv : Move) :
  accepted st side mv = true →
  ∃ next,
    applyMoveWithRules st mv = Some next ∧
    (penaltyApplies st side mv = true → isCaptureMove st mv = false) ∧
    ∀ s, s ≠ 0 →
      Z.of_nat (countPieces (board next) s)
      = Z.of_nat (countPieces (board st) s)
        - (if penaltyApplies st side mv then if side =? s then 1 else 0 else 0)
        - (if isCaptureMove st mv then if - side =? s then 1 else 0 else 0).
Proof.
  intros Hacc.
  pose proof (accepted_inBounds _ _ _ Hacc) as [Hinf Hint].
  apply accepted_inv in Hacc as (piece & Hpiece & Hside & Hne & Hto & Hsd & _ & _ & Hft).
  set (b := board st) in *.
  set (fr := sq_r (mv_from mv)) in *. set (fc := sq_c (mv_from mv)) in *.
  set (tr := sq_r (mv_to mv)) in *. set (tc := sq_c (mv_to mv)) in *.
  assert ((fr, fc) ≠ (tr, tc)) as Hft'.
  { intros [= Hr Hc]. apply Hft. destruct (mv_from mv), (mv_to mv). cbn in *. congruence. }
  unfold applyMoveWithRules. fold b fr fc tr tc. rewrite Hpiece, Hto. cbn zeta.
  eexists. split; [reflexivity|]. cbn [board]. rewrite cloneBoard_id.
  unfold penaltyApplies, isCaptureMove. fold b fr fc tr tc.
  rewrite existsb_landsOn. rewrite Hside.
  set (caps := listCapturesForPiece b fr fc (rules st)).
  set (b1 := setCell b fr fc 0).
  assert (∀ r' c', (fr, fc) ≠ (r', c') → cellAt b1 r' c' = cellAt b r' c') as Hb1
    by (intros r' c' ?; by apply cellAt_setCell_ne).
  assert (∀ s, s ≠ 0 → Z.of_nat (countPieces b1 s)
               = Z.of_nat (countPieces b s) - (if side =? s then 1 else 0)) as Hc1.
  { intros s Hs. unfold b1. rewrite (countPieces_setCell b fr fc 0 piece s) by done.
    rewrite Hside. change (sign 0) with 0.
    destruct (Z.eqb_spec 0 s); destruct (Z.eqb_spec side s); lia. }
  set (b2 := match cap_over <$> List.find (landsOn tr tc) caps with
             | Some p => setCell b1 (sq_r p) (sq_c p) 0
             | None => b1
             end).
  assert (cellAt b2 tr tc = Some 0 ∧
          ∀ s, s ≠ 0 → Z.of_nat (countPieces b2 s)
               = Z.of_nat (countPieces b1 s)
                 - (if bool_decide (is_Some (List.find (landsOn tr tc) caps))
                    then if - side =? s then 1 else 0 else 0)) as [Hto2 Hc2].
  { unfold b2. destruct (List.find (landsOn tr tc) caps) as [x|] eqn:Hfind;
      cbn [fmap option_fmap option_map];
      [rewrite bool_decide_eq_true_2 by by eexists
      |rewrite bool_decide_eq_false_2 by by intros [? ?]].
    - apply find_capture in Hfind as [Hin Hxto].
      pose proof (capture_over_inBounds b fr fc (rules st) x Hin Hinf) as Hover.
      rewrite Hxto in Hover. specialize (Hover Hint).
      pose proof Hin as (dr & dc & j & k & Hdr & Hdc & Hjk & _ & _ & Hx)%listCapturesForPiece_jumps.
      apply listCapturesForPiece_sound in Hin as (p & Hp & _ & Hx0 & (m & Hm & Hnm & Hsm)).
      rewrite Hpiece in Hp. injection Hp as <-. rewrite Hside in Hsm.
      assert ((fr, fc) ≠ (sq_r (cap_over x), sq_c (cap_over x))) as Hfo.
      { intros [= Hr Hc]. rewrite <- Hr, <- Hc in Hm. rewrite Hpiece in Hm.
        injection Hm as <-. lia. }
      assert ((sq_r (cap_over x), sq_c (cap_over x)) ≠ (tr, tc)) as Hot.
      { intros [= Hr Hc]. rewrite Hr, Hc in Hm. congruence. }
      split.
      + rewrite cellAt_setCell_ne by done. by rewrite Hb1.
      + intros s Hs. rewrite (countPieces_setCell b1 _ _ 0 m s); [|by rewrite Hb1|done].
        rewrite Hsm. change (sign 0) with 0.
        destruct (Z.eqb_spec (- side) s), (Z.eqb_spec 0 s); lia.
    - split; [by rewrite Hb1|]. intros s _. lia. }
  set (placed := placedPiece piece side tr).
  assert (sign placed = side) as Hplaced.
  { unfold placed. rewrite <- Hside at 1. rewrite sign_placedPiece; done. }
  set (b3 := setCell b2 tr tc placed).
  assert (∀ s, s ≠ 0 → Z.of_nat (countPieces b3 s)
               = Z.of_nat (countPieces b2 s) + (if side =? s then 1 else 0)) as Hc3.
  { intros s Hs. unfold b3. rewrite (countPieces_setCell b2 tr tc placed 0 s) by done.
    rewrite Hplaced. change (sign 0) with 0.
    destruct (Z.eqb_spec 0 s), (Z.eqb_spec side s); lia. }
  assert (cellAt b3 tr tc = Some placed) as Hto3.
  { unfold b3. apply cellAt_setCell_eq. by eexists. }
  set (pen := truthy (mustCapture (rules st))
              && truthy (skipCapturePenaltyRemoveMoved (rules st))
              && anyCaptureAvailable b side (rules st)
              && negb (bool_decide (is_Some (List.find (landsOn tr tc) caps)))).
  assert (∀ s, s ≠ 0 → Z.of_nat (countPieces (if pen then setCell b3 tr tc 0 else b3) s)
               = Z.of_nat (countPieces b3 s)
                 - (if pen then if side =? s then 1 else 0 else 0)) as Hc4.
  { intros s Hs. destruct pen; [|lia].
    rewrite (countPieces_setCell b3 tr tc 0 placed s) by done.
    rewrite Hplaced. change (sign 0) with 0.
    destruct (Z.eqb_spec 0 s), (Z.eqb_spec side s); lia. }
  assert (pen = true → bool_decide (is_Some (List.find (landsOn tr tc) caps)) = false)
    as Hpencap.
  { unfold pen. rewrite !andb_true_iff, negb_true_iff. tauto. }
  split; [done|].
  intros s Hs. rewrite Hc4, Hc3, Hc2, Hc1 by done.
  destruct pen, (bool_decide _), (Z.eqb_spec side s), (Z.eqb_spec (- side) s); lia.
Qed.

(** X7.  An accepted move never adds a piece and removes at most one:
    the moving side loses its moved piece exactly when the penalty
    applies, and the other side loses one piece exactly when the move is
    a capture; the two never happen together. *)
Theorem move_changes_piece_counts (st : GameState) (side : Z) (mv : Move) :
  accepted st side mv = true →
  ∃ next,
    applyMoveWithRules st mv = Some next ∧
    Z.of_nat (countPieces (board next) side)
    = Z.of_nat (countPieces (board st) side)
      - (if penaltyApplies st side mv then 1 else 0) ∧
    Z.of_nat (countPieces (board next) (- side))
    = Z.of_nat (countPieces (board st) (- side))
      - (if isCaptureMove st mv then 1 else 0) ∧
    (penaltyApplies st side mv = true → isCaptureMove st mv = false).
Proof.
  intros Hacc.
  destruct (applied_counts st side mv Hacc) as (next & Happ & Hexcl & Hcount).
  apply accepted_inv in Hacc as (_ & _ & _ & _ & _ & Hside & _).
  exists next. split_and!; try done.
  - rewrite Hcount by lia. rewrite Z.eqb_refl.
    destruct (Z.eqb_spec (- side) side); [lia|].
    destruct (penaltyApplies st side mv), (isCaptureMove st mv); lia.
  - rewrite Hcount by lia. rewrite Z.eqb_refl.
    destruct (Z.eqb_spec side (- side)); [lia|].
    destruct (penaltyApplies st side mv), (isCaptureMove st mv); lia.
Qed.


Lemma move_changes_piece_counts_witness :
  ∃ next,
    applyMoveWithRules penaltyState (mkMove (mkSquare 5 2) (mkSquare 3 4)) = Some next ∧
    Z.of_nat (countPieces (board next) (-1)) = 0.
Proof.
  destruct (move_changes_piece_counts penaltyState 1 (mkMove (mkSquare 5 2) (mkSquare 3 4))
              eq_refl) as (next & Happ & _ & Hopp & _).
  exists next. split; [exact Happ|]. exact Hopp.
Defined.

(** ** Positions that play can produce *)

Lemma cellAt_Some_inBounds (b : Board) (r c v : Z) :
  wfBoard b = true → cellAt b r c = Some v → inBounds r c = true.
Proof.
  intros Hwf Hv. apply wfBoard_rows in Hwf as [Hlen Hrows].
  unfold cellAt in Hv. destruct (nthZ b r) as [row|] eqn:Hrow; [|done].
  assert (row ∈ b) as Hmem.
  { unfold nthZ in Hrow. destruct (0 <=? r); [|done].
    by eapply list_elem_of_lookup_2. }
  apply nthZ_Some_range in Hrow, Hv. rewrite (Hrows row Hmem) in Hv.
  apply inBounds_spec. lia.
Qed.

(** An accepted move goes along a diagonal of its source square. *)
Lemma accepted_diagonal (st : GameState) (side : Z) (mv : Move) :
  accepted st side mv = true →
  ∃ dr dc k, (dr = -1 ∨ dr = 1) ∧ (dc = -1 ∨ dc = 1) ∧ 1 <= k ∧
    mv_to mv = raySquare (sq_r (mv_from mv)) (sq_c (mv_from mv)) dr dc k.
Proof.
  unfold accepted. cbn zeta. rewrite !andb_true_iff, !orb_true_iff.
  intros [_ [Hcap|Hmove]].
  - apply existsb_exists in Hcap as (x & Hx%list_elem_of_In & Hto%landsOn_spec).
    apply listCapturesForPiece_jumps in Hx
      as (dr & dc & j & k & Hdr & Hdc & Hjk & _ & _ & ->).
    exists dr, dc, k. split_and!; try done; [lia|].
    cbn in Hto. rewrite Hto. by destruct (mv_to mv).
  - apply existsb_exists in Hmove as (m & Hm%list_elem_of_In & Hto%moveLandsOn_spec).
    apply listMovesForPiece_slides in Hm as (k & dr & dc & Hdr & Hdc & Hk & _ & ->).
    exists dr, dc, k. split_and!; try done.
    cbn in Hto. rewrite Hto. by destruct (mv_to mv).
Qed.

Lemma placedPiece_cases (piece side tr : Z) :
  placedPiece piece side tr = piece ∨
  placedPiece piece side tr = 2 ∨ placedPiece piece side tr = -2.
Proof.
  unfold placedPiece. destruct (isKing piece); cbn [negb]; [by left|]. cbn zeta.
  destruct (_ && _); [|destruct (_ && _)]; auto.
Qed.

(** The cells stay legal under an accepted move. *)
Lemma applied_cells_legal (st : GameState) (side : Z) (mv : Move) (next : GameState) :
  (∀ r c v, cellAt (board st) r c = Some v → legalCell r c v) →
  accepted st side mv = true → applyMoveWithRules st mv = Some next →
  ∀ r c v, cellAt (board next) r c = Some v → legalCell r c v.
Proof.
  intros Hlegal Hacc Happ r c v Hv.
  pose proof (accepted_diagonal _ _ _ Hacc) as (dr & dc & k & Hdr & Hdc & Hk & Hto').
  apply accepted_inv in Hacc as (piece & Hpiece & Hside & Hne & Hto & _).
  destruct (applyMoveWithRules_cells st mv piece 0 Hpiece Hto)
    as (next' & Happ' & _ & _ & _ & _ & Hcells).
  rewrite Happ in Happ'. injection Happ' as <-.
  rewrite Hcells in Hv.
  destruct (Hlegal _ _ _ Hpiece) as [Hrange Hdark]. specialize (Hdark Hne).
  destruct (decide (_ = (r, c))) as [[= <- <-]|_].
  - injection Hv as <-. destruct (penaltyApplies st (sign piece) mv).
    + split; [lia|done].
    + split.
      * destruct (placedPiece_cases piece (sign piece) (sq_r (mv_to mv))) as [->|[->| ->]]; lia.
      * intros _. rewrite Hto'. cbn.
        replace (sq_r (mv_from mv) + k * dr + (sq_c (mv_from mv) + k * dc))
          with (sq_r (mv_from mv) + sq_c (mv_from mv) + k * (dr + dc)) by lia.
        destruct Hdr, Hdc; subst dr dc.
        -- replace (k * (-1 + -1)) with ((- k) * 2) by lia. by rewrite Z.mod_add.
        -- replace (k * (-1 + 1)) with (0 * 2) by lia. by rewrite Z.mod_add.
        -- replace (k * (1 + -1)) with (0 * 2) by lia. by rewrite Z.mod_add.
        -- replace (k * (1 + 1)) with (k * 2) by lia. by rewrite Z.mod_add.
  - destruct (decide (_ = Some (mkSquare r c))); [injection Hv as <-; by split|].
    destruct (decide (_ = (r, c))); [injection Hv as <-; by split|].
    by apply Hlegal.
Qed.

Lemma checkWinner_range (st : GameState) :
  turn st = 1 ∨ turn st = -1 →
  checkWinner st = 0 ∨ checkWinner st = 1 ∨ checkWinner st = -1.
Proof.
  intros Hturn. unfold checkWinner. cbn zeta.
  destruct (_ =? _)%nat; [auto|]. destruct (_ =? _)%nat; [auto|].
  destruct (negb _); [|auto]. destruct Hturn as [-> | ->]; auto.
Qed.

Lemma positionInv_initial : positionInv createInitialState.
Proof.
  split_and!; try done; [|by vm_compute; lia..].
  intros r c v Hv.
  pose proof (cellAt_Some_inBounds (board createInitialState) r c v eq_refl Hv)
    as [Hr Hc]%inBounds_spec.
  assert (r ∈ [0; 1; 2; 3; 4; 5; 6; 7]) as Hr' by by apply range8_elem.
  assert (c ∈ [0; 1; 2; 3; 4; 5; 6; 7]) as Hc' by by apply range8_elem.
  rewrite !elem_of_cons, elem_of_nil in Hr'. rewrite !elem_of_cons, elem_of_nil in Hc'.
  unfold legalCell.
  repeat (destruct Hr' as [->|Hr']; [|]); try done;
    repeat (destruct Hc' as [->|Hc']; [|]); try done;
    vm_compute in Hv; injection Hv as <-; (split; [lia|by intros ?]).
Qed.

Lemma positionInv_applied (st : GameState) (side : Z) (mv : Move) (next : GameState) :
  positionInv st → accepted st side mv = true → applyMoveWithRules st mv = Some next →
  positionInv (recordWinner next).
Proof.
  intros (Hwf & Hlegal & Hturn & Hwin & Hw & Hb) Hacc Happ.
  destruct (applied_counts st side mv Hacc) as (next' & Happ' & _ & Hcount).
  rewrite Happ in Happ'. injection Happ' as <-.
  pose proof Hacc as (_ & _ & _ & _ & _ & Hside & _)%accepted_inv.
  assert (turn next = - turn st) as Hturn'.
  { unfold applyMoveWithRules in Happ.
    destruct (cellAt _ (sq_r (mv_from mv)) _); [|done].
    destruct (cellAt _ (sq_r (mv_to mv)) _); [|done]. by injection Happ as <-. }
  assert (turn next = 1 ∨ turn next = -1) as Hturn'' by lia.
  unfold positionInv. rewrite board_recordWinner, turn_recordWinner.
  split_and!.
  - by apply (applyMoveWithRules_wf st mv).
  - by apply (applied_cells_legal st side mv).
  - done.
  - unfold recordWinner. destruct (Z.eqb_spec (checkWinner next) 0); cbn [negb].
    + apply accepted_inv in Hacc as (_ & _ & _ & _ & _ & _ & Hw0 & _).
      unfold applyMoveWithRules in Happ.
      destruct (cellAt _ (sq_r (mv_from mv)) _); [|done].
      destruct (cellAt _ (sq_r (mv_to mv)) _); [|done].
      injection Happ as <-. cbn. auto.
    + cbn [winner setWinner]. destruct (checkWinner_range next Hturn'') as [?|?]; [done|auto].
  - specialize (Hcount 1 ltac:(lia)).
    destruct (penaltyApplies st side mv), (isCaptureMove st mv),
      (side =? 1), (- side =? 1); lia.
  - specialize (Hcount (-1) ltac:(lia)).
    destruct (penaltyApplies st side mv), (isCaptureMove st mv),
      (side =? -1), (- side =? -1); lia.
Qed.



Lemma reachable_positionInv (rooms : option Room) :
  reachable rooms → ∀ room, rooms = Some room → positionInv (room_state room).
Proof.
  induction 1 as [|rooms white black _ IH|room0 white black _ IH
                 |rooms socketId payload rooms' emits _ IH Hup
                 |rooms socketId from to rooms' emits _ IH Hmv
                 |rooms socketId rooms' emits _ IH Hreset];
    intros room Hroom.
  - done.
  - injection Hroom as <-. cbn [room_state].
    destruct rooms as [room0|]; cbn [getRoom room_state];
      [exact (IH room0 eq_refl)|apply positionInv_initial].
  - injection Hroom as <-. cbn [room_state]. exact (IH room0 eq_refl).
  - unfold updateRules in Hup. destruct rooms as [room0|]; [|by simplify_eq].
    specialize (IH room0 eq_refl).
    destruct (roleOf room0 socketId); [|by simplify_eq; apply IH..].
    destruct payload as [p|]; [|done]. simplify_eq. exact IH.
  - destruct rooms as [room0|]; [|by simplify_eq].
    specialize (IH room0 eq_refl). pose proof IH as [Hwf _].
    rewrite makeMove_eq in Hmv by done.
    destruct (seatSide room0 socketId) as [side|]; [|by simplify_eq].
    destruct (submittedMove from to) as [mv|]; [|by simplify_eq].
    destruct (accepted (room_state room0) side mv) eqn:Hacc; [|by simplify_eq].
    destruct (applyMoveWithRules (room_state room0) mv) as [next|] eqn:Happ; [|done].
    simplify_eq. cbn [room_state].
    by apply (positionInv_applied (room_state room0) side mv).
  - unfold resetGame in Hreset. destruct rooms as [room0|]; [|by simplify_eq].
    specialize (IH room0 eq_refl).
    destruct (roleOf room0 socketId); simplify_eq; cbn [room_state];
      by (apply positionInv_initial || apply IH).
Qed.

(** X9.  Whatever messages the server has handled, the state of the room
    holds a position that play can produce: an 8x8 board whose cells are
    0, 1, 2, -1 or -2, with pieces on dark squares only and at most 12 of
    each side, a turn that is 1 or -1, and a winner that is 0, 1 or -1. *)
Theorem reachable_positions_legal (rooms : option Room) (room : Room) :
  reachable rooms → rooms = Some room →
  wfBoard (board (room_state room)) = true ∧
  (∀ r c v, cellAt (board (room_state room)) r c = Some v →
     v ∈ [0; 1; 2; -1; -2] ∧ (v ≠ 0 → (r + c) mod 2 = 1)) ∧
  (turn (room_state room) = 1 ∨ turn (room_state room) = -1) ∧
  (winner (room_state room) = 0 ∨ winner (room_state room) = 1
   ∨ winner (room_state room) = -1) ∧
  (countPieces (board (room_state room)) 1 ≤ 12)%nat ∧
  (countPieces (board (room_state room)) (-1) ≤ 12)%nat.
Proof.
  intros Hreach Hroom.
  destruct (reachable_positionInv rooms Hreach room Hroom)
    as (Hwf & Hlegal & Hturn & Hwin & Hw & Hb).
  split_and!; try done.
  intros r c v Hv. destruct (Hlegal r c v Hv) as [Hrange Hdark]. split; [|done].
  rewrite !elem_of_cons, elem_of_nil. lia.
Qed.

Lemma reachable_positions_legal_witness :
  (countPieces (board createInitialState) 1 ≤ 12)%nat.
Proof.
  apply (reachable_positions_legal (Some (seatedRoom createInitialState))
           (seatedRoom createInitialState)); [|reflexivity].
  apply (reach_joinRoom None (Some "w"%string) (Some "b"%string)). apply reach_start.
Defined.

(** ** How a game ends *)

Lemma checkWinner_recordWinner (next : GameState) :
  checkWinner (recordWinner next) = checkWinner next.
Proof. unfold recordWinner. by destruct (negb _). Qed.

Lemma countPieces_pos (b : Board) (side r c : Z) :
  inBounds r c = true → sign <$> cellAt b r c = Some side → countPieces b side ≠ 0%nat.
Proof. intros Hin Hs H0%countPieces_0. by apply (H0 r c). Qed.

Lemma capture_to_inBounds (b : Board) (r c : Z) (rl : Rules) (x : Capture) :
  x ∈ listCapturesForPiece b r c rl →
  inBounds (sq_r (cap_to x)) (sq_c (cap_to x)) = true.
Proof.
  intros (piece & _ & _ & Hx)%listCapturesForPiece_elem.
  assert (∀ side dr dc, x ∈ shortJump b r c side dr dc →
            inBounds (sq_r (cap_to x)) (sq_c (cap_to x)) = true) as Hshort.
  { by intros side dr dc (Hin & _ & _ & ->)%shortJump_elem. }
  destruct (isKing piece).
  - apply listKingCaptures_elem in Hx as (dr & dc & Hdr & Hdc & Hx).
    destruct (truthy _); [|by apply (Hshort (sign piece) dr dc)].
    apply flying_ray_elem in Hx; [|done].
    destruct Hx as (j & k & Hjk & _ & _ & Hrun & ->).
    destruct (Hrun k) as [Hin _]; [lia|]. exact Hin.
  - apply listManCaptures_elem in Hx as (dr & dc & _ & _ & Hx).
    by apply (Hshort (sign piece) dr dc).
Qed.

(** A side that has a capture faces at least one piece. *)
Lemma anyCaptureAvailable_enemy (b : Board) (side : Z) (rl : Rules) :
  anyCaptureAvailable b side rl = true → countPieces b (- side) ≠ 0%nat.
Proof.
  intros (r & c & Hin & Hsign & Hcaps)%anyCaptureAvailable_true.
  destruct (listCapturesForPiece b r c rl) as [|x l] eqn:Hl; [done|].
  assert (x ∈ listCapturesForPiece b r c rl) as Hx by (rewrite Hl; by left).
  pose proof (capture_to_inBounds _ _ _ _ _ Hx) as Hto.
  pose proof (capture_over_inBounds _ _ _ _ _ Hx Hin Hto) as Hover.
  apply listCapturesForPiece_sound in Hx as (p & Hp & _ & _ & (m & Hm & _ & Hs)).
  rewrite Hp in Hsign. injection Hsign as Hsign. rewrite Hsign in Hs.
  apply (countPieces_pos b (- side) _ _ Hover). by rewrite Hm, <- Hs.
Qed.

(** X10.  When a move is accepted, the handler stores and emits one and
    the same state, whose [winner] is what [checkWinner] gives on it, and
    keeps both seats; if that winner is not 0, every later [makeMove],
    from whomever, is ignored. *)
Theorem winner_recorded_after_move (room : Room) (socketId : string)
    (from to : option SquareP) (side : Z) (mv : Move) :
  wfBoard (board (room_state room)) = true →
  seatSide room socketId = Some side → submittedMove from to = Some mv →
  accepted (room_state room) side mv = true →
  ∃ room',
    makeMove (Some room) socketId from to
    = Returned (Some room') [EmitState (room_state room')] ∧
    winner (room_state room') = checkWinner (room_state room') ∧
    players_white room' = players_white room ∧
    players_black room' = players_black room ∧
    (winner (room_state room') ≠ 0 →
     ∀ socketId' from' to',
       makeMove (Some room') socketId' from' to' = Returned (Some room') []).
Proof.
  intros Hwf Hseat Hmv Hacc.
  destruct (makeMove_accepted room socketId from to side mv Hwf Hseat Hmv Hacc)
    as (next & Happ & ->).
  exists (mkRoom (recordWinner next) (players_white room) (players_black room)).
  cbn [room_state players_white players_black]. split_and!; try done.
  - rewrite checkWinner_recordWinner. unfold recordWinner.
    destruct (Z.eqb_spec (checkWinner next) 0) as [H0|H0]; cbn [negb]; [|done].
    apply accepted_inv in Hacc as (_ & _ & _ & _ & _ & _ & Hw0 & _).
    unfold applyMoveWithRules in Happ.
    destruct (cellAt _ (sq_r (mv_from mv)) _); [|done].
    destruct (cellAt _ (sq_r (mv_to mv)) _); [|done].
    injection Happ as <-. cbn [winner]. congruence.
  - intros Hwon socketId' from' to'. apply makeMove_rejected.
    + cbn [room_state]. rewrite board_recordWinner.
      by apply (applyMoveWithRules_wf (room_state room) mv).
    + intros side' mv' _ _. cbn [room_state].
      destruct (accepted (recordWinner next) side' mv') eqn:Hacc'; [|done].
      by apply accepted_inv in Hacc' as (_ & _ & _ & _ & _ & _ & Hw0 & _).
Qed.

Lemma winner_recorded_after_move_witness :
  ∃ room',
    makeMove (Some (seatedRoom penaltyState)) "w"
      (Some (mkSquareP (JNum 5) (JNum 2))) (Some (mkSquareP (JNum 3) (JNum 4)))
    = Returned (Some room') [EmitState (room_state room')] ∧
    winner (room_state room') = checkWinner (room_state room').
Proof.
  destruct (winner_recorded_after_move (seatedRoom penaltyState) "w"
              (Some (mkSquareP (JNum 5) (JNum 2))) (Some (mkSquareP (JNum 3) (JNum 4)))
              1 (mkMove (mkSquare 5 2) (mkSquare 3 4)) eq_refl eq_refl eq_refl eq_refl)
    as (room' & Hmv & Hw & _).
  exists room'. split; [exact Hmv|exact Hw].
Defined.

(** X11.  The last piece decides the game at once: after an accepted
    capture of the opponent's only piece [checkWinner] names the mover,
    and after an accepted move that forfeits the mover's only piece to
    the penalty it names the opponent. *)
Theorem last_piece_decides (st : GameState) (side : Z) (mv : Move) :
  accepted st side mv = true →
  ∃ next,
    applyMoveWithRules st mv = Some next ∧
    (isCaptureMove st mv = true → countPieces (board st) (- side) = 1%nat →
     checkWinner next = side) ∧
    (penaltyApplies st side mv = true → countPieces (board st) side = 1%nat →
     checkWinner next = - side).
Proof.
  intros Hacc.
  destruct (applied_counts st side mv Hacc) as (next & Happ & Hexcl & Hcount).
  pose proof (accepted_inBounds _ _ _ Hacc) as [Hinf _].
  apply accepted_inv in Hacc as (piece & Hpiece & Hsign & Hne & _ & Hside & _).
  assert (countPieces (board st) side ≠ 0%nat) as Hown.
  { apply (countPieces_pos _ _ _ _ Hinf). by rewrite Hpiece, <- Hsign. }
  pose proof (Hcount side ltac:(lia)) as Hmine.
  pose proof (Hcount (- side) ltac:(lia)) as Htheirs.
  rewrite Z.eqb_refl in Hmine, Htheirs.
  assert ((- side =? side) = false) as E1 by (apply Z.eqb_neq; lia).
  assert ((side =? - side) = false) as E2 by (apply Z.eqb_neq; lia).
  rewrite E1 in Hmine. rewrite E2 in Htheirs.
  exists next. split_and!; [done| |].
  - intros Hcap Hone. rewrite Hcap in Hmine, Htheirs.
    assert (penaltyApplies st side mv = false) as Hpen.
    { destruct (penaltyApplies st side mv); [|done]. rewrite Hexcl in Hcap; done. }
    rewrite Hpen in Hmine, Htheirs.
    unfold checkWinner. cbn zeta.
    destruct Hside as [-> | ->]; change (- (1)) with (-1) in *; change (- -1) with 1 in *.
    + destruct (Nat.eqb_spec (countPieces (board next) 1) 0); [lia|].
      destruct (Nat.eqb_spec (countPieces (board next) (-1)) 0); [done|lia].
    + destruct (Nat.eqb_spec (countPieces (board next) 1) 0); [done|lia].
  - intros Hpen Hone. rewrite Hpen in Hmine, Htheirs. rewrite (Hexcl Hpen) in Hmine, Htheirs.
    assert (countPieces (board st) (- side) ≠ 0%nat) as Hopp.
    { apply (anyCaptureAvailable_enemy _ _ (rules st)).
      unfold penaltyApplies in Hpen. rewrite !andb_true_iff in Hpen. tauto. }
    unfold checkWinner. cbn zeta.
    destruct Hside as [-> | ->]; change (- (1)) with (-1) in *; change (- -1) with 1 in *.
    + destruct (Nat.eqb_spec (countPieces (board next) 1) 0); [done|lia].
    + destruct (Nat.eqb_spec (countPieces (board next) 1) 0); [lia|].
      destruct (Nat.eqb_spec (countPieces (board next) (-1)) 0); [done|lia].
Qed.

Lemma last_piece_decides_witness :
  ∃ next,
    applyMoveWithRules penaltyState (mkMove (mkSquare 5 2) (mkSquare 3 4)) = Some next ∧
    checkWinner next = 1.
Proof.
  destruct (last_piece_decides penaltyState 1 (mkMove (mkSquare 5 2) (mkSquare 3 4))
              eq_refl) as (next & Happ & Hcap & _).
  exists next. split; [exact Happ|]. apply Hcap; reflexivity.
Defined.

(** ** Seats *)

Section SeatsProperties.
Context {Key : Type} `{EqDecision Key} (keyTruthy : Key → bool).





Lemma seatNewcomer_cases (room : Room) (socketId : string) (seat : JsVal) :
  let res := seatNewcomer room socketId seat in
  (res = (mkRoom (room_state room) (Some socketId) (players_black room), RWhite) ∧
   players_white room = None) ∨
  (res = (mkRoom (room_state room) (players_white room) (Some socketId), RBlack) ∧
   players_black room = None) ∨
  (res = (room, RSpectator) ∧ players_white room ≠ None ∧ players_black room ≠ None).
Proof.
  unfold seatNewcomer. destruct room as [st white black]. cbn.
  destruct (strictEqStr seat "white"), (strictEqStr seat "black"), white, black;
    cbn; auto.
  all: right; right; by split_and!.
Qed.



(** X15.  A client that [clientMap] does not know never takes a seat
    from anyone: the seats that are taken stay with their sockets, the
    client is seated on a free seat when there is one (on the one it asks
    for, if that is free), and when both are taken it becomes a spectator
    and the room stays as it is. *)
Theorem newcomer_takes_free_seats_only (rooms : option (Lobby (Key := Key)))
    (socketId : string) (seat : JsVal) (clientId : Key) :
  (keyTruthy clientId = false ∨ clientMap (getLobby rooms) clientId = None) →
  let room := lobby_room (getLobby rooms) in
  let joined := seatSocket keyTruthy rooms socketId seat clientId in
  (∀ s, players_white room = Some s → players_white (lobby_room joined.1) = Some s) ∧
  (∀ s, players_black room = Some s → players_black (lobby_room joined.1) = Some s) ∧
  (joined.2 = RSpectator ↔ players_white room ≠ None ∧ players_black room ≠ None) ∧
  (joined.2 = RSpectator → joined.1 = getLobby rooms) ∧
  (strictEqStr seat "white" = true → players_white room = None → joined.2 = RWhite) ∧
  (strictEqStr seat "black" = true → players_black room = None → joined.2 = RBlack).
Proof.
  intros Hunknown room joined.
  assert (joined = (let '(room', role) := seatNewcomer room socketId seat in
                    (mkLobby room'
                       (if keyTruthy clientId
                           && match role with RWhite | RBlack => true | _ => false end
                        then mapSet clientId role (clientMap (getLobby rooms))
                        else clientMap (getLobby rooms)), role))) as ->.
  { unfold joined, seatSocket. fold room.
    by destruct Hunknown as [-> | Hmap]; [|rewrite Hmap; destruct (keyTruthy clientId)]. }
  assert (strictEqStr seat "white" = true → players_white room = None →
          (seatNewcomer room socketId seat).2 = RWhite) as Hasked_w.
  { intros Hs Hw. unfold seatNewcomer. rewrite Hs, Hw. done. }
  assert (strictEqStr seat "black" = true → players_black room = None →
          (seatNewcomer room socketId seat).2 = RBlack) as Hasked_b.
  { intros Hs Hb.
    assert (strictEqStr seat "white" = false) as Hnw.
    { destruct seat; try done. cbn in *. apply bool_decide_eq_true in Hs as ->. done. }
    unfold seatNewcomer. by rewrite Hnw, Hs, Hb. }
  destruct (seatNewcomer_cases room socketId seat) as [[E Hw]|[[E Hb]|[E [Hw Hb]]]];
    cbn zeta in E; rewrite E in *; cbn [fst snd lobby_room players_white players_black].
  - split_and!; try done.
    + intros s Hs. congruence.
    + split; [done|]. by intros [? _].
  - split_and!; try done.
    + intros s Hs. congruence.
    + split; [done|]. by intros [_ ?].
  - split_and!; try done.
    intros _. rewrite andb_false_r. unfold room. by destruct (getLobby rooms).
Qed.

(** X16.  [disconnect] frees the seats of the socket that leaves and no
    other: afterwards that socket is a spectator, every other socket has
    the seats it had, and [presence] is sent exactly when a seat was
    freed. *)
Theorem disconnect_frees_own_seats (lobby : Lobby (Key := Key)) (socketId : string) :
  ∃ lobby',
    (disconnect (Some lobby) socketId).1 = Some lobby' ∧
    roleOf (lobby_room lobby') socketId = RSpectator ∧
    (∀ other, other ≠ socketId →
       roleOf (lobby_room lobby') other = roleOf (lobby_room lobby) other) ∧
    ((disconnect (Some lobby) socketId).2 = [] ↔
     roleOf (lobby_room lobby) socketId = RSpectator).
Proof.
  eexists. split; [reflexivity|]. cbn [lobby_room]. unfold roleOf. cbn.
  destruct lobby as [[st white black] clients]. cbn.
  split_and!.
  - repeat case_bool_decide; try done;
      repeat match goal with H : context [if ?b then _ else _] |- _ => destruct b end;
      congruence.
  - intros other Hother.
    destruct (bool_decide_reflect (white = Some socketId)) as [->|Hw],
             (bool_decide_reflect (black = Some socketId)) as [->|Hb];
      repeat case_bool_decide; congruence.
  - destruct (bool_decide_reflect (white = Some socketId)) as [->|Hw],
             (bool_decide_reflect (black = Some socketId)) as [->|Hb]; cbn;
      split; try done; repeat case_bool_decide; try done; congruence.
Qed.

End SeatsProperties.



Lemma newcomer_takes_free_seats_only_witness :
  (seatSocket stringTruthy (Some (mkLobby (seatedRoom createInitialState) (λ _, None)))
     "s3" (JStr "white") "c3"%string).2
  = RSpectator.
Proof.
  apply (newcomer_takes_free_seats_only stringTruthy
           (Some (mkLobby (seatedRoom createInitialState) (λ _, None)))
           "s3" (JStr "white") "c3"%string (or_intror eq_refl)).
  split; discriminate.
Defined.

(** ** Reset *)

(** X17.  [resetGame] from either player puts the room back to the
    opening, whatever the game was: Black men on the dark squares of rows
    0 to 2, White men on those of rows 5 to 7, White to move, no winner,
    no last move, and the default rules in place of the room's; in the
    opening neither side has a capture and [checkWinner] is 0.  The
    seats stay; from a spectator [resetGame] does nothing. *)
Theorem reset_restores_the_opening :
  (∀ r c, inBounds r c = true →
     cellAt (board createInitialState) r c
     = Some (if (r + c) mod 2 =? 1
             then if r <? 3 then -1 else if 5 <=? r then 1 else 0
             else 0)) ∧
  turn createInitialState = 1 ∧ winner createInitialState = 0 ∧
  lastMove createInitialState = None ∧ rules createInitialState = initialRules ∧
  checkWinner createInitialState = 0 ∧
  anyCaptureAvailable (board createInitialState) 1 initialRules = false ∧
  anyCaptureAvailable (board createInitialState) (-1) initialRules = false ∧
  (∀ room socketId,
     roleOf room socketId ≠ RSpectator →
     resetGame (Some room) socketId
     = Returned (Some (mkRoom createInitialState (players_white room) (players_black room)))
                [EmitState createInitialState]) ∧
  (∀ room socketId,
     roleOf room socketId = RSpectator →
     resetGame (Some room) socketId = Returned (Some room) []).
Proof.
  split_and!; try by vm_compute.
  - intros r c [Hr Hc]%inBounds_spec.
    assert (r ∈ [0; 1; 2; 3; 4; 5; 6; 7]) as Hr' by by apply range8_elem.
    assert (c ∈ [0; 1; 2; 3; 4; 5; 6; 7]) as Hc' by by apply range8_elem.
    rewrite !elem_of_cons, elem_of_nil in Hr'. rewrite !elem_of_cons, elem_of_nil in Hc'.
    repeat (destruct Hr' as [->|Hr']; [|]); try done;
      repeat (destruct Hc' as [->|Hc']; [|]); try done; by vm_compute.
  - intros room socketId Hrole. unfold resetGame. by destruct (roleOf room socketId).
  - intros room socketId Hrole. unfold resetGame. by rewrite Hrole.
Qed.

Lemma reset_restores_the_opening_witness :
  resetGame (Some (seatedRoom penaltyState)) "b"
  = Returned (Some (seatedRoom createInitialState)) [EmitState createInitialState].
Proof.
  apply (proj1 (proj2 (proj2 (proj2 (proj2 (proj2 (proj2 (proj2 (proj2
           reset_restores_the_opening))))))))
           (seatedRoom penaltyState) "b").
  discriminate.
Defined.

(** ** The client's copy of the generators *)

Lemma fmap_bind {A B C} (f : B → C) (g : A → list B) (l : list A) :
  f <$> (l ≫= g) = l ≫= (λ x, f <$> g x).
Proof.
  induction l as [|x l IH]; [done|].
  change ((x :: l) ≫= g) with (g x ++ (l ≫= g)).
  change ((x :: l) ≫= (λ x, f <$> g x)) with ((f <$> g x) ++ (l ≫= (λ x, f <$> g x))).
  by rewrite fmap_app, IH.
Qed.

Lemma client_slideLoop (b : Board) (r c dr dc : Z) (n : nat) (rr cc : Z) :
  Client.slideLoop n b dr dc rr cc = mv_to <$> slideLoop n b r c dr dc rr cc.
Proof.
  revert rr cc. induction n as [|n IH]; intros rr cc; [done|].
  cbn [Client.slideLoop slideLoop]. destruct (_ && _); [|done].
  rewrite fmap_cons. cbn [mv_to]. by rewrite IH.
Qed.

Lemma client_flyLoop (b : Board) (r c side dr dc : Z) (n : nat) (rr cc : Z)
    (seen seen' : option Square) :
  (seen = None ↔ seen' = None) →
  Client.flyLoop n b side dr dc rr cc seen = cap_to <$> flyLoop n b r c side dr dc rr cc seen'.
Proof.
  revert rr cc seen seen'. induction n as [|n IH]; intros rr cc seen seen' Hseen; [done|].
  cbn [Client.flyLoop flyLoop]. destruct (inBounds rr cc); [|done].
  destruct (cellAt b rr cc) as [cell|]; [|done].
  destruct (cell =? 0).
  - rewrite fmap_app, (IH _ _ seen seen' Hseen).
    destruct seen, seen'; try done; by destruct Hseen as [H1 H2]; (discriminate H1 || discriminate H2 || done).
  - cbn zeta. destruct (_ =? side); [done|]. destruct (_ =? - side); [|done].
    destruct seen, seen'; try done.
    + by destruct Hseen as [H1 H2]; discriminate H2.
    + by destruct Hseen as [H1 H2]; discriminate H1.
    + by apply IH.
Qed.

Lemma client_shortJump (b : Board) (r c side dr dc : Z) :
  Client.shortJump b r c side dr dc = cap_to <$> shortJump b r c side dr dc.
Proof.
  unfold Client.shortJump, shortJump. cbn zeta.
  destruct (negb _); [done|]. by destruct (_ && _).
Qed.

(** The client's lists are the targets of the server's lists. *)
Lemma client_listMovesForPiece (b : Board) (r c : Z) (rl : Rules) :
  Client.listMovesForPiece b r c rl = mv_to <$> listMovesForPiece b r c rl.
Proof.
  unfold Client.listMovesForPiece, listMovesForPiece.
  destruct (cellAt b r c) as [piece|]; [|done].
  destruct (piece =? 0); [done|]. cbn zeta.
  destruct (isKing piece).
  - unfold Client.listKingMoves, listKingMoves. destruct (negb _).
    + rewrite fmap_bind. apply list_bind_ext; [|done]. intros dr.
      rewrite fmap_bind. apply list_bind_ext; [|done]. intros dc.
      cbn zeta. by destruct (_ && _).
    + rewrite fmap_bind. apply list_bind_ext; [|done]. intros dr.
      rewrite fmap_bind. apply list_bind_ext; [|done]. intros dc.
      apply client_slideLoop.
  - unfold Client.listManMoves, listManMoves. cbn zeta.
    rewrite fmap_bind. apply list_bind_ext; [|done]. intros dc.
    by destruct (_ && _).
Qed.

Lemma client_listCapturesForPiece (b : Board) (r c : Z) (rl : Rules) :
  Client.listCapturesForPiece b r c rl = cap_to <$> listCapturesForPiece b r c rl.
Proof.
  unfold Client.listCapturesForPiece, listCapturesForPiece.
  destruct (cellAt b r c) as [piece|]; [|done].
  destruct (piece =? 0); [done|]. cbn zeta.
  destruct (isKing piece).
  - unfold Client.listKingCaptures, listKingCaptures. destruct (negb _).
    + rewrite fmap_bind. apply list_bind_ext; [|done]. intros dr.
      rewrite fmap_bind. apply list_bind_ext; [|done]. intros dc.
      apply client_shortJump.
    + rewrite fmap_bind. apply list_bind_ext; [|done]. intros dr.
      rewrite fmap_bind. apply list_bind_ext; [|done]. intros dc.
      by apply client_flyLoop.
  - unfold Client.listManCaptures, listManCaptures. cbn zeta.
    rewrite fmap_bind. apply list_bind_ext; [|done]. intros dr.
    rewrite fmap_bind. apply list_bind_ext; [|done]. intros dc.
    apply client_shortJump.
Qed.

Lemma existsb_ext_in {A} (f g : A → bool) (l : list A) :
  (∀ x, f x = g x) → existsb f l = existsb g l.
Proof. intros Hfg. induction l as [|x l IH]; [done|]. cbn [existsb]. by rewrite Hfg, IH. Qed.

Lemma nonEmpty_fmap {A B} (f : A → B) (l : list A) : nonEmpty (f <$> l) = nonEmpty l.
Proof. by destruct l. Qed.

(** X18.  The client's copy of the generators agrees with the server's:
    for every board, square and rules, the client's [listMovesForPiece]
    and [listCapturesForPiece] list the targets of the server's lists, in
    the same order and as often, and the client's [anyCaptureAvailable],
    from which the hint line is written, is the server's. *)
Theorem client_generators_agree (b : Board) (r c side : Z) (rl : Rules) :
  Client.listMovesForPiece b r c rl = mv_to <$> listMovesForPiece b r c rl ∧
  Client.listCapturesForPiece b r c rl = cap_to <$> listCapturesForPiece b r c rl ∧
  Client.anyCaptureAvailable b side rl = anyCaptureAvailable b side rl.
Proof.
  split_and!; [apply client_listMovesForPiece|apply client_listCapturesForPiece|].
  unfold Client.anyCaptureAvailable, anyCaptureAvailable.
  apply existsb_ext_in. intros s.
  by rewrite client_listCapturesForPiece, nonEmpty_fmap.
Qed.

(** The keys of the 64 squares are pairwise different. *)
Lemma key_NoDup : NoDup (Client.key <$> allSquares).
Proof. apply (bool_decide_unpack _). by vm_compute. Qed.

Lemma key_inj (x y : Square) :
  inBounds (sq_r x) (sq_c x) = true → inBounds (sq_r y) (sq_c y) = true →
  Client.key x = Client.key y → x = y.
Proof.
  intros Hx%allSquares_elem Hy%allSquares_elem Hk.
  apply list_elem_of_lookup_1 in Hx as [i Hi]. apply list_elem_of_lookup_1 in Hy as [j Hj].
  assert (i = j) as ->.
  { apply (NoDup_lookup _ i j (Client.key x) key_NoDup).
    - by rewrite list_lookup_fmap, Hi.
    - by rewrite list_lookup_fmap, Hj, Hk. }
  congruence.
Qed.

Lemma foldl_setAdd_elem {A} (f : A → string) (l : list A) (acc : list string) (k : string) :
  k ∈ foldl (λ set x, Client.setAdd set (f x)) acc l ↔ k ∈ acc ∨ ∃ x, x ∈ l ∧ f x = k.
Proof.
  revert acc. induction l as [|y l IH]; intros acc; cbn [foldl].
  - split; [by left|]. intros [?|(x & ?%elem_of_nil & _)]; done.
  - rewrite IH. unfold Client.setAdd. split.
    + intros [Hk|(x & Hx & <-)].
      * destruct (bool_decide _); [by left|].
        apply elem_of_app in Hk as [?|Hk%list_elem_of_singleton]; [by left|]. subst k.
        right. exists y. split; [by left|done].
      * right. exists x. split; [by right|done].
    + intros [Hk|(x & Hx & <-)].
      * left. destruct (bool_decide _); [done|]. apply elem_of_app. by left.
      * apply elem_of_cons in Hx as [->|Hx]; [|right; by exists x].
        left. destruct (bool_decide_reflect (f y ∈ acc)); [done|].
        apply elem_of_app. right. by apply list_elem_of_singleton.
Qed.

Lemma foldl_setAdd_NoDup {A} (f : A → string) (l : list A) (acc : list string) :
  NoDup acc → NoDup (foldl (λ set x, Client.setAdd set (f x)) acc l).
Proof.
  revert acc. induction l as [|y l IH]; intros acc Hacc; cbn [foldl]; [done|].
  apply IH. unfold Client.setAdd. destruct (bool_decide_reflect (f y ∈ acc)); [done|].
  apply NoDup_app. split_and!; [done| |apply NoDup_singleton].
  by intros x Hx ->%list_elem_of_singleton.
Qed.

(** The targets of both generators are empty squares of the board. *)
Lemma capture_target_empty (b : Board) (r c : Z) (rl : Rules) (x : Capture) :
  x ∈ listCapturesForPiece b r c rl →
  cellAt b (sq_r (cap_to x)) (sq_c (cap_to x)) = Some 0.
Proof. by intros (piece & _ & _ & [Hto _])%listCapturesForPiece_sound. Qed.

Lemma move_target_empty (b : Board) (r c : Z) (rl : Rules) (x : Move) :
  x ∈ listMovesForPiece b r c rl →
  cellAt b (sq_r (mv_to x)) (sq_c (mv_to x)) = Some 0.
Proof.
  intros (k & dr & dc & _ & _ & Hk & Hrun & ->)%listMovesForPiece_slides.
  apply (Hrun k). lia.
Qed.

Lemma existsb_moveLandsOn (tr tc : Z) (l : list Move) :
  existsb (moveLandsOn tr tc) l = true ↔ ∃ x, x ∈ l ∧ mv_to x = mkSquare tr tc.
Proof.
  rewrite existsb_exists. split.
  - intros (x & Hx%list_elem_of_In & Hl%moveLandsOn_spec). by exists x.
  - intros (x & Hx%list_elem_of_In & Hl%moveLandsOn_spec). by exists x.
Qed.

Lemma existsb_captureLandsOn (tr tc : Z) (l : list Capture) :
  existsb (landsOn tr tc) l = true ↔ ∃ x, x ∈ l ∧ cap_to x = mkSquare tr tc.
Proof.
  rewrite existsb_exists. split.
  - intros (x & Hx%list_elem_of_In & Hl%landsOn_spec). by exists x.
  - intros (x & Hx%list_elem_of_In & Hl%landsOn_spec). by exists x.
Qed.

(** The set that [computeLegalTargets] leaves, against the server's guards. *)
Lemma computeLegalTargets_elem (st : GameState) (role : Role) (r c tr tc : Z) :
  wfBoard (board st) = true → inBounds r c = true → inBounds tr tc = true →
  Client.key (mkSquare tr tc) ∈ Client.computeLegalTargets (Some st) role r c ↔
  accepted st (match role with RWhite => 1 | RBlack => -1 | RSpectator => 0 end)
    (mkMove (mkSquare r c) (mkSquare tr tc)) = true.
Proof.
  intros Hwf Hin Hto.
  set (side := match role with RWhite => 1 | RBlack => -1 | RSpectator => 0 end).
  assert (side = 0 ∨ side = 1 ∨ side = -1) as Hside by (destruct role; subst side; lia).
  destruct (cellAt_inBounds _ r c Hwf Hin) as [piece Hpiece].
  unfold Client.computeLegalTargets, accepted. fold side. rewrite Hpiece. cbn zeta.
  cbn [mv_from mv_to sq_r sq_c fmap option_fmap option_map].
  rewrite Hpiece.
  assert (forallb inRange [r; c; tr; tc] = true) as -> by by apply inRange_inBounds.
  destruct (Z.eqb_spec side 0) as [H0|H0].
  { rewrite H0. cbn. split; [by intros ?%elem_of_nil|done]. }
  assert ((side =? 1) || (side =? -1) = true) as ->.
  { apply orb_true_iff. rewrite !Z.eqb_eq. lia. }
  destruct (Z.eqb_spec (winner st) 0) as [Hw|Hw]; cbn [negb andb];
    [|split; [by intros ?%elem_of_nil|done]].
  destruct (Z.eqb_spec (turn st) side) as [Ht|Ht]; cbn [negb andb];
    [|split; [by intros ?%elem_of_nil|done]].
  destruct (Z.eqb_spec (sign piece) side) as [Hs|Hs]; cbn [negb].
  2:{ rewrite (bool_decide_eq_false_2 (Some (sign piece) = Some side)) by congruence.
      split; [by intros ?%elem_of_nil|done]. }
  rewrite (bool_decide_eq_true_2 (Some (sign piece) = Some side)) by congruence.
  cbn [andb].
  rewrite client_listCapturesForPiece, client_listMovesForPiece.
  rewrite foldl_setAdd_elem, andb_true_iff, orb_true_iff, bool_decide_eq_true,
    existsb_captureLandsOn, existsb_moveLandsOn.
  split.
  - intros [?%elem_of_nil|(x & Hx & Hk)]; [done|].
    apply elem_of_app in Hx as [Hx|Hx]; apply list_elem_of_fmap in Hx as (y & -> & Hy).
    + pose proof (capture_target_empty _ _ _ _ _ Hy) as He.
      apply key_inj in Hk; [|by eapply cellAt_Some_inBounds|done].
      rewrite Hk in He. split; [exact He|]. left. by exists y.
    + pose proof (move_target_empty _ _ _ _ _ Hy) as He.
      apply key_inj in Hk; [|by eapply cellAt_Some_inBounds|done].
      rewrite Hk in He. split; [exact He|]. right. by exists y.
  - intros [_ [(y & Hy & Hl)|(y & Hy & Hl)]]; right.
    + exists (cap_to y). split; [|by rewrite Hl].
      apply elem_of_app. left. apply list_elem_of_fmap. by exists y.
    + exists (mv_to y). split; [|by rewrite Hl].
      apply elem_of_app. right. apply list_elem_of_fmap. by exists y.
Qed.

Lemma computeLegalTargets_NoDup (state : option GameState) (role : Role) (r c : Z) :
  NoDup (Client.computeLegalTargets state role r c).
Proof.
  unfold Client.computeLegalTargets. destruct state as [st|]; [|constructor].
  destruct (cellAt _ r c); [|constructor]. cbn zeta.
  repeat (match goal with |- NoDup (if ?b then _ else _) => destruct b end;
          [constructor|]).
  apply foldl_setAdd_NoDup. constructor.
Qed.

(** X19.  The client highlights the squares the server accepts: on a
    well-formed board, after a click on the square [(r, c)] the key of a
    square [(tr, tc)] of the board is in [legalTargets] exactly when
    [makeMove] from [(r, c)] to [(tr, tc)], sent by a socket of the
    client's role, passes all the server's guards.  For a spectator both
    sides are false.  The set holds no key twice. *)
Theorem client_highlights_accepted_moves (st : GameState) (role : Role) (r c tr tc : Z) :
  wfBoard (board st) = true → inBounds r c = true → inBounds tr tc = true →
  (Client.key (mkSquare tr tc) ∈ Client.computeLegalTargets (Some st) role r c ↔
   accepted st (match role with RWhite => 1 | RBlack => -1 | RSpectator => 0 end)
     (mkMove (mkSquare r c) (mkSquare tr tc)) = true) ∧
  NoDup (Client.computeLegalTargets (Some st) role r c).
Proof.
  intros Hwf Hin Hto. split; [by apply computeLegalTargets_elem|].
  apply computeLegalTargets_NoDup.
Qed.

Lemma client_highlights_accepted_moves_witness :
  Client.key (mkSquare 4 1) ∈ Client.computeLegalTargets (Some penaltyState) RWhite 5 2 ∧
  Client.computeLegalTargets (Some createInitialState) RWhite 5 2 = ["4,1"; "4,3"]%string.
Proof.
  split; [|by vm_compute].
  apply (proj1 (client_highlights_accepted_moves penaltyState RWhite 5 2 4 1
                  eq_refl eq_refl eq_refl)).
  by vm_compute.
Defined.

(** ** The click handler *)

Lemma onSquareClick_inv (v : Client.Vars) (r c : Z) :
  varsInv v → inBounds r c = true → varsInv (Client.onSquareClick v r c).1.
Proof.
  intros Hinv Hin. pose proof Hinv as [Hwf Hsel]. unfold Client.onSquareClick.
  destruct (Client.v_state v) as [st|] eqn:Hst; [|exact Hinv].
  destruct (negb _); [exact Hinv|]. cbn zeta.
  destruct (Client.v_selected v) as [sel|] eqn:Hs.
  - destruct (bool_decide _); [exact Hinv|].
    split; [cbn [fst Client.v_state]; intros ? [= <-]; by apply Hwf|].
    cbn [fst Client.v_selected]. destruct (_ && _); [done|]. by cbn.
  - split; [cbn [fst Client.v_state]; intros ? [= <-]; by apply Hwf|].
    cbn [fst Client.v_selected]. destruct (_ && _); [done|]. by cbn.
Qed.

Lemma reach_varsInv (v : Client.Vars) : Client.reach v → varsInv v.
Proof.
  induction 1 as [|v r s _ _ Hwf|v s _ _ Hwf|v r c _ IH Hin].
  - by split.
  - split; [|done]. by intros st [= <-].
  - split; [|done]. by intros st [= <-].
  - by apply onSquareClick_inv.
Qed.

Lemma onSquareClick_sent (v : Client.Vars) (r c : Z) (from to : Square) :
  Client.SendMakeMove from to ∈ (Client.onSquareClick v r c).2 →
  ∃ st, Client.v_state v = Some st ∧ winner st = 0 ∧
    Client.v_selected v = Some from ∧ to = mkSquare r c ∧
    Client.key to ∈ Client.v_legalTargets v.
Proof.
  unfold Client.onSquareClick.
  destruct (Client.v_state v) as [st|]; [|by intros ?%elem_of_nil].
  destruct (Z.eqb_spec (winner st) 0) as [Hw|Hw]; cbn [negb]; [|by intros ?%elem_of_nil].
  cbn zeta. destruct (Client.v_selected v) as [sel|]; [|by intros ?%elem_of_nil].
  destruct (bool_decide_reflect (Client.key (mkSquare r c) ∈ Client.v_legalTargets v))
    as [Hk|Hk]; [|by intros ?%elem_of_nil].
  intros [= -> ->]%list_elem_of_singleton. by exists st.
Qed.

Lemma onSquareClick_keeps (v : Client.Vars) (r c : Z) :
  Client.v_role (Client.onSquareClick v r c).1 = Client.v_role v ∧
  Client.v_state (Client.onSquareClick v r c).1 = Client.v_state v.
Proof.
  destruct v as [role [st|] sel targets]; [|done].
  unfold Client.onSquareClick.
  cbn [Client.v_state Client.v_role Client.v_selected Client.v_legalTargets].
  destruct (negb _); [done|]. cbn zeta.
  destruct sel; [destruct (bool_decide _); [done|]|]; done.
Qed.

(** X20.  The client sends no move that the server would turn down.
    After any sequence of [roomJoined] and [state] messages and clicks, a
    click changes neither [role] nor [state]; and when it sends
    [makeMove], it sends it from the selected square to the clicked one,
    does not change the selection, and the server, holding the state the
    client holds and the sending socket in the seat of the client's role,
    applies the move and answers with the new state. *)
Theorem client_sends_only_accepted_moves (v : Client.Vars) (r c : Z) :
  Client.reach v → inBounds r c = true →
  Client.v_role (Client.onSquareClick v r c).1 = Client.v_role v ∧
  Client.v_state (Client.onSquareClick v r c).1 = Client.v_state v ∧
  ∀ from to,
    Client.SendMakeMove from to ∈ (Client.onSquareClick v r c).2 →
    (Client.onSquareClick v r c).1 = v ∧
    Client.v_selected v = Some from ∧ to = mkSquare r c ∧
    ∃ st, Client.v_state v = Some st ∧
      ∀ room socketId,
        room_state room = st → roleOf room socketId = Client.v_role v →
        ∃ next,
          applyMoveWithRules st (mkMove from to) = Some next ∧
          makeMove (Some room) socketId (Client.wire from) (Client.wire to)
          = Returned (Some (mkRoom (recordWinner next) (players_white room)
                              (players_black room)))
                     [EmitState (recordWinner next)].
Proof.
  intros [Hwf Hsel]%reach_varsInv Hin.
  split; [apply onSquareClick_keeps|]. split; [apply onSquareClick_keeps|].
  intros from to Hsent.
  pose proof Hsent as (st & Hst & Hw & Hfrom & -> & Hk)%onSquareClick_sent.
  assert ((Client.onSquareClick v r c).1 = v) as Hsame.
  { unfold Client.onSquareClick. rewrite Hst, Hfrom.
    destruct (negb _); [done|]. cbn zeta. by rewrite (bool_decide_eq_true_2 _ Hk). }
  split_and!; try done. exists st. split; [done|].
  intros room socketId <- Hrole.
  rewrite Hfrom in Hsel. destruct Hsel as [Hfin Hset]. rewrite Hset, Hst in Hk.
  destruct from as [fr fc]. cbn [sq_r sq_c] in *.
  apply (computeLegalTargets_elem _ _ fr fc r c (Hwf _ Hst) Hfin Hin) in Hk.
  assert (∃ side, seatSide room socketId = Some side ∧
                  accepted (room_state room) side (mkMove (mkSquare fr fc) (mkSquare r c)) = true)
    as (side & Hseat & Hacc).
  { unfold seatSide. rewrite Hrole.
    destruct (Client.v_role v); [by eexists..|].
    by apply accepted_inv in Hk as (? & _ & _ & _ & _ & [?|?] & _). }
  exact (makeMove_accepted room socketId (Client.wire (mkSquare fr fc))
           (Client.wire (mkSquare r c)) side (mkMove (mkSquare fr fc) (mkSquare r c))
           (Hwf _ Hst) Hseat eq_refl Hacc).
Qed.

Lemma client_sends_only_accepted_moves_witness :
  ∃ next,
    applyMoveWithRules createInitialState (mkMove (mkSquare 5 2) (mkSquare 4 1)) = Some next ∧
    makeMove (Some (seatedRoom createInitialState)) "w"
      (Client.wire (mkSquare 5 2)) (Client.wire (mkSquare 4 1))
    = Returned (Some (seatedRoom (recordWinner next))) [EmitState (recordWinner next)].
Proof.
  pose (v := (Client.onSquareClick
                (Client.onRoomJoined Client.initialVars RWhite createInitialState) 5 2).1).
  assert (Client.reach v) as Hv.
  { apply Client.reach_click; [|reflexivity].
    apply Client.reach_roomJoined; [constructor|reflexivity]. }
  destruct (client_sends_only_accepted_moves v 4 1 Hv eq_refl) as (_ & _ & Hsend).
  destruct (Hsend (mkSquare 5 2) (mkSquare 4 1)) as (_ & _ & _ & st & Hst & Hsrv).
  { vm_compute. by constructor. }
  injection Hst as <-.
  exact (Hsrv (seatedRoom createInitialState) "w"%string eq_refl eq_refl).
Defined.

(** ** What the rules record is read for *)

Lemma listCapturesForPiece_switches (b : Board) (r c : Z) (rl rl' : Rules) :
  sameSwitches rl rl' → listCapturesForPiece b r c rl = listCapturesForPiece b r c rl'.
Proof.
  intros (_ & _ & _ & Hfc & Hbc). unfold listCapturesForPiece. by rewrite Hfc, Hbc.
Qed.

Lemma listMovesForPiece_switches (b : Board) (r c : Z) (rl rl' : Rules) :
  sameSwitches rl rl' → listMovesForPiece b r c rl = listMovesForPiece b r c rl'.
Proof. intros (_ & _ & Hfm & _). unfold listMovesForPiece. by rewrite Hfm. Qed.

Lemma anyCaptureAvailable_switches (b : Board) (side : Z) (rl rl' : Rules) :
  sameSwitches rl rl' → anyCaptureAvailable b side rl = anyCaptureAvailable b side rl'.
Proof.
  intros Hsw. unfold anyCaptureAvailable. apply existsb_ext_in. intros s.
  by rewrite (listCapturesForPiece_switches b _ _ rl rl' Hsw).
Qed.

Lemma hasAnyLegalMove_switches (st : GameState) (side : Z) (rl rl' : Rules) :
  sameSwitches rl rl' →
  hasAnyLegalMove (setRules st rl) side = hasAnyLegalMove (setRules st rl') side.
Proof.
  intros Hsw. unfold hasAnyLegalMove. cbn [setRules board rules].
  apply existsb_ext_in. intros s.
  by rewrite (listCapturesForPiece_switches _ _ _ rl rl' Hsw),
    (listMovesForPiece_switches _ _ _ rl rl' Hsw).
Qed.

(** X21.  The server reads a rules record for the truthiness of its five
    switches and for nothing else: with two records that agree on those,
    whatever their [multiCapture], the same submissions are accepted, the
    applier returns the same board, turn, winner and last move (penalty
    included), and [checkWinner] and [hasAnyLegalMove] give the same
    answers.  So [multiCapture] is stored and sent but decides nothing,
    and the coercion of [updateRules] changes no decision. *)
Theorem rules_read_by_truthiness (st : GameState) (rl rl' : Rules) (side : Z) (mv : Move) :
  sameSwitches rl rl' →
  accepted (setRules st rl) side mv = accepted (setRules st rl') side mv ∧
  (λ next, (board next, turn next, winner next, lastMove next))
    <$> applyMoveWithRules (setRules st rl) mv
  = (λ next, (board next, turn next, winner next, lastMove next))
      <$> applyMoveWithRules (setRules st rl') mv ∧
  hasAnyLegalMove (setRules st rl) side = hasAnyLegalMove (setRules st rl') side ∧
  checkWinner (setRules st rl) = checkWinner (setRules st rl').
Proof.
  intros Hsw. pose proof Hsw as (Hmc & Hpen & _).
  split_and!.
  - unfold accepted. cbn [setRules board rules turn winner].
    by rewrite (listCapturesForPiece_switches _ _ _ rl rl' Hsw),
      (listMovesForPiece_switches _ _ _ rl rl' Hsw).
  - unfold applyMoveWithRules. cbn [setRules board rules turn winner].
    destruct (cellAt (board st) (sq_r (mv_from mv)) _) as [piece|]; [|done].
    destruct (cellAt (board st) (sq_r (mv_to mv)) _); [|done].
    cbn zeta.
    rewrite (listCapturesForPiece_switches _ _ _ rl rl' Hsw),
      (anyCaptureAvailable_switches _ _ rl rl' Hsw), Hmc, Hpen.
    reflexivity.
  - by apply hasAnyLegalMove_switches.
  - unfold checkWinner. cbn [setRules board turn].
    pose proof (hasAnyLegalMove_switches st (turn st) rl rl' Hsw) as Hh.
    cbn [setRules board turn] in Hh. by rewrite Hh.
Qed.

Lemma rules_read_by_truthiness_witness :
  accepted (setRules createInitialState oddPayload) 1 (mkMove (mkSquare 5 2) (mkSquare 4 1))
  = accepted (setRules createInitialState (normalizeRules oddPayload)) 1
      (mkMove (mkSquare 5 2) (mkSquare 4 1)).
Proof.
  apply (rules_read_by_truthiness createInitialState oddPayload (normalizeRules oddPayload) 1
           (mkMove (mkSquare 5 2) (mkSquare 4 1))).
  by vm_compute.
Defined.
